(** * organize_media.py: classification results, path synthesis, sidecar
    moves and the CSV cache, embedded in Rocq.

    Python strings are modelled as [string] (sequences of 8-bit characters),
    dictionaries as [gmap], [pathlib] paths as their list of components, and
    the functions that touch the file system, the log or the remote adapters
    as computations over an explicit [world]. *)

From Stdlib Require Import ZArith NArith Ascii String List Lia.
From Stdlib Require Import DecimalString DecimalPos DecimalN DecimalZ.
From stdpp Require Import base option list gmap strings.

(** ** Characters and strings *)

Module Chars.
Definition dquote : ascii := "034"%char.
Definition squote : ascii := "039"%char.
Definition backslash : ascii := "092"%char.
Definition slash : ascii := "047"%char.
Definition dot : ascii := "046"%char.
Definition comma : ascii := "044"%char.
Definition cr : ascii := "013"%char.
Definition lf : ascii := "010"%char.
Definition tab : ascii := "009"%char.
End Chars.

Definition ascii_eqb (a b : ascii) : bool := Ascii.eqb a b.
Arguments ascii_eqb : simpl never.

Definition str1 (c : ascii) : string := String c EmptyString.

Definition str_is_empty (s : string) : bool :=
  match s with EmptyString => true | String _ _ => false end.

Fixpoint str_mem (c : ascii) (s : string) : bool :=
  match s with
  | EmptyString => false
  | String a s' => ascii_eqb c a || str_mem c s'
  end.

Fixpoint str_forallb (p : ascii → bool) (s : string) : bool :=
  match s with
  | EmptyString => true
  | String a s' => p a && str_forallb p s'
  end.

Fixpoint str_join (sep : string) (l : list string) : string :=
  match l with
  | [] => EmptyString
  | [x] => x
  | x :: l' => x +:+ sep +:+ str_join sep l'
  end.

(** [s.split(c)] on a single separator character. *)
Fixpoint str_split (c : ascii) (s : string) : list string :=
  match s with
  | EmptyString => [EmptyString]
  | String a s' =>
      if ascii_eqb a c then EmptyString :: str_split c s'
      else match str_split c s' with
           | [] => [str1 a]
           | w :: ws => String a w :: ws
           end
  end.

(** [s[:n]]. *)
Fixpoint str_take (n : nat) (s : string) : string :=
  match n, s with
  | S n', String a s' => String a (str_take n' s')
  | _, _ => EmptyString
  end.

(** [s.rfind(c)]: index of the last occurrence, [None] for Python's [-1]. *)
Fixpoint str_rfind (c : ascii) (s : string) : option nat :=
  match s with
  | EmptyString => None
  | String a s' =>
      match str_rfind c s' with
      | Some i => Some (S i)
      | None => if ascii_eqb a c then Some 0 else None
      end
  end.

Fixpoint str_drop (n : nat) (s : string) : string :=
  match n, s with
  | S n', String _ s' => str_drop n' s'
  | _, _ => s
  end.

(** The decimal digits ['0'..'9']: the characters [int()] reads as digits,
    and those [str.isdecimal()] accepts. *)
Definition is_decimal_char (a : ascii) : bool :=
  (48 <=? nat_of_ascii a) && (nat_of_ascii a <=? 57).

(** The characters [str.isdigit()] accepts: among the 8-bit characters the
    decimal digits and the superscript digits two, three and one (178, 179
    and 185), which are digits and not decimal digits. *)
Definition is_digit_char (a : ascii) : bool :=
  is_decimal_char a
  || (nat_of_ascii a =? 178) || (nat_of_ascii a =? 179) || (nat_of_ascii a =? 185).

(** [s.isdigit()]: non-empty and only digits. *)
Definition str_isdigit (s : string) : bool :=
  negb (str_is_empty s) && str_forallb is_digit_char s.

(** [s.isdecimal()]: non-empty and only decimal digits. *)
Definition str_isdecimal (s : string) : bool :=
  negb (str_is_empty s) && str_forallb is_decimal_char s.

(** [int(s)] for a string of decimal digits, read left to right. *)
Fixpoint digits_value (acc : Z) (s : string) : Z :=
  match s with
  | EmptyString => acc
  | String a s' => digits_value (10 * acc + (Z.of_nat (nat_of_ascii a) - 48)) s'
  end.

(** [str(n)] for an integer: decimal digits after an optional minus sign. *)
Definition decimal (z : Z) : string := NilZero.string_of_int (Z.to_int z).

(** [re.sub('[...]', repl, s)] for a pattern that is one character class:
    every character of the class is replaced by [repl], left to right. *)
Fixpoint re_sub_class (cls : ascii → bool) (repl : string) (s : string) : string :=
  match s with
  | EmptyString => EmptyString
  | String a s' =>
      if cls a then repl +:+ re_sub_class cls repl s'
      else String a (re_sub_class cls repl s')
  end.

(** ** Python values

    The values a JSON reply or a CSV row can put into a metadata dictionary:
    [null], integers, strings and arrays. The integers are those
    [json.loads] gives, of at most 4300 digits, for which [str] returns. *)

#[warnings="-register-all"]
Inductive pyval :=
  | VNone
  | VInt (z : Z)
  | VStr (s : string)
  | VList (l : list pyval).

(** [a == b]. *)
Fixpoint py_eqb (a b : pyval) : bool :=
  match a, b with
  | VNone, VNone => true
  | VInt x, VInt y => Z.eqb x y
  | VStr s, VStr t => String.eqb s t
  | VList l, VList m =>
      (fix go (l m : list pyval) : bool :=
         match l, m with
         | [], [] => true
         | x :: l', y :: m' => py_eqb x y && go l' m'
         | _, _ => false
         end) l m
  | _, _ => false
  end.

(** [bool(v)]. *)
Definition py_truthy (v : pyval) : bool :=
  match v with
  | VNone => false
  | VInt z => negb (Z.eqb z 0)
  | VStr s => negb (str_is_empty s)
  | VList l => match l with [] => false | _ => true end
  end.

Definition hex_digit (n : nat) : ascii :=
  ascii_of_nat (if n <? 10 then 48 + n else 87 + n).

(** One character inside [repr(s)], for the chosen quote character: the
    characters that are not printable (the control characters up to 31 and
    from 127 to 159, the no-break space and the soft hyphen) are written as
    hexadecimal escapes. *)
Definition repr_char (q : ascii) (a : ascii) : string :=
  if ascii_eqb a q || ascii_eqb a Chars.backslash then String Chars.backslash (str1 a)
  else if ascii_eqb a Chars.tab then "\t"
  else if ascii_eqb a Chars.lf then "\n"
  else if ascii_eqb a Chars.cr then "\r"
  else if (nat_of_ascii a <? 32)
          || ((127 <=? nat_of_ascii a) && (nat_of_ascii a <=? 160))
          || (nat_of_ascii a =? 173) then
    "\x" +:+ String (hex_digit (nat_of_ascii a / 16)) (str1 (hex_digit (nat_of_ascii a mod 16)))
  else str1 a.

Fixpoint str_concat_map (f : ascii → string) (s : string) : string :=
  match s with
  | EmptyString => EmptyString
  | String a s' => f a +:+ str_concat_map f s'
  end.

(** [repr(s)] for a string: single quotes unless the string holds a single
    quote and no double quote. *)
Definition repr_str (s : string) : string :=
  let q := if str_mem Chars.squote s && negb (str_mem Chars.dquote s)
           then Chars.dquote else Chars.squote in
  String q (str_concat_map (repr_char q) s +:+ str1 q).

(** [repr(v)]. *)
Fixpoint py_repr (v : pyval) : string :=
  match v with
  | VNone => "None"
  | VInt z => decimal z
  | VStr s => repr_str s
  | VList l =>
      "[" +:+ str_join ", "
        ((fix go (l : list pyval) : list string :=
            match l with
            | [] => []
            | x :: l' => py_repr x :: go l'
            end) l) +:+ "]"
  end.

(** [str(v)], also what an f-string field [{v}] renders. *)
Definition py_str (v : pyval) : string :=
  match v with
  | VStr s => s
  | _ => py_repr v
  end.

(** [v in [s1, s2, ...]] for a list of string literals. *)
Definition py_in_strs (v : pyval) (l : list string) : bool :=
  existsb (λ s, py_eqb v (VStr s)) l.

Definition is_none (v : pyval) : bool :=
  match v with VNone => true | _ => false end.

(** ** Exceptions *)

Inductive exn :=
  | KeyError (key : string)
  | ValueError (msg : string)
  | TypeError (msg : string)
  | AttributeError (msg : string)
  | OSError (msg : string)
  | CsvError (msg : string).

Inductive res (A : Type) :=
  | Ok (a : A)
  | Raise (e : exn).
Arguments Ok {A} a.
Arguments Raise {A} e.

(** [isinstance(e, ValueError)] for [except ValueError]. *)
Definition is_ValueError (e : exn) : bool :=
  match e with ValueError _ => true | _ => false end.

(** The white space [int()] skips around a literal: the blank, the
    characters 9 to 13, and the next-line and no-break-space characters.
    The separators 28 to 31 are not skipped. *)
Definition is_space_char (a : ascii) : bool :=
  (nat_of_ascii a =? 32) || ((9 <=? nat_of_ascii a) && (nat_of_ascii a <=? 13))
  || (nat_of_ascii a =? 133) || (nat_of_ascii a =? 160).

Fixpoint str_lstrip (s : string) : string :=
  match s with
  | String a s' => if is_space_char a then str_lstrip s' else s
  | EmptyString => EmptyString
  end.

(** The scan of the digits of an integer literal: decimal digits, with
    single underscores between them. It stops at the first other character
    and gives the value read, the number of digits and the text that is
    left; two underscores in a row, or an underscore at the end of the
    digits, are an error. *)
Fixpoint scan_literal (after_underscore : bool) (acc digits : Z) (s : string)
  : option (Z * Z * string) :=
  match s with
  | EmptyString => if after_underscore then None else Some (acc, digits, EmptyString)
  | String a s' =>
      if is_decimal_char a then
        scan_literal false (10 * acc + (Z.of_nat (nat_of_ascii a) - 48)) (digits + 1) s'
      else if ascii_eqb a "_" then
        if after_underscore then None else scan_literal true acc digits s'
      else if after_underscore then None
      else Some (acc, digits, String a s')
  end.

(** The most digits [int()] converts (the default of
    [sys.get_int_max_str_digits()], as of CPython 3.11). *)
Definition int_max_str_digits : Z := 4300.

Inductive int_literal :=
  | IntValue (z : Z)
  | IntInvalid
  | IntTooLong (digits : Z).

(** [int(s)] for a string, base ten: white space, a sign, the digits
    (which must not start with an underscore), white space. The number of
    digits is checked when the digits have been scanned, before the rest of
    the text is looked at. *)
Definition int_of_str (s : string) : int_literal :=
  let stripped := str_lstrip s in
  let '(negative, body) :=
    match stripped with
    | String a t =>
        if ascii_eqb a "-" then (true, t)
        else if ascii_eqb a "+" then (false, t)
        else (false, stripped)
    | EmptyString => (false, stripped)
    end in
  if match body with String a _ => ascii_eqb a "_" | EmptyString => false end
  then IntInvalid
  else
    match scan_literal false 0 0 body with
    | None => IntInvalid
    | Some (value, digits, rest) =>
        if (int_max_str_digits <? digits)%Z then IntTooLong digits
        else if (digits =? 0)%Z then IntInvalid
        else if negb (str_is_empty (str_lstrip rest)) then IntInvalid
        else IntValue (if negative : bool then - value else value)%Z
    end.

(** The name of the type of a value, as error messages give it. *)
Definition type_name (v : pyval) : string :=
  match v with
  | VNone => "NoneType"
  | VInt _ => "int"
  | VStr _ => "str"
  | VList _ => "list"
  end.

(** [int(v)]. The message for a text that is no literal shows at most 200
    characters of its [repr]. *)
Definition py_int (v : pyval) : res Z :=
  match v with
  | VInt z => Ok z
  | VStr s =>
      match int_of_str s with
      | IntValue z => Ok z
      | IntInvalid =>
          Raise (ValueError ("invalid literal for int() with base 10: "
                             +:+ str_take 200 (repr_str s)))
      | IntTooLong digits =>
          Raise (ValueError
                   ("Exceeds the limit (4300 digits) for integer string conversion: value has "
                    +:+ decimal digits
                    +:+ " digits; use sys.set_int_max_str_digits() to increase the limit"))
      end
  | _ =>
      Raise (TypeError
               ("int() argument must be a string, a bytes-like object or a real number, not '"
                +:+ type_name v +:+ "'"))
  end.

(** [f"{n:02d}"]: decimal, padded with zeros on the left to width two. *)
Definition format_02d (n : Z) : string :=
  if (0 <=? n)%Z && (n <? 10)%Z then "0" +:+ decimal n else decimal n.

(** ** The sanitizer *)

Definition forbidden_chars : list ascii :=
  ["<"; ">"; ":"; Chars.dquote; "/"; Chars.backslash; "|"; "?"; "*"]%char.

(** The character class of the pattern: less-than, greater-than, colon,
    double quote, slash, backslash, bar, question mark and star. *)
Definition forbidden (a : ascii) : bool :=
  existsb (ascii_eqb a) forbidden_chars.

Definition sanitize_filename (filename : pyval) : string :=
  match filename with
  | VStr s => re_sub_class forbidden EmptyString s
  | _ => EmptyString
  end.

(** ** pathlib paths

    A [PurePosixPath] is its anchor (absolute or not) and its components;
    empty components and single dots are dropped when a string is parsed.
    A path stands for the entry it names: the root of exactly two slashes,
    which [pathlib] keeps apart and the system resolves to the root, is the
    root here, so that the text of such a path has one slash where
    Python's has two.
    Suffix and stem are those of Python up to 3.13: the last dot of the
    name counts unless it is its first or its last character. *)

Record Path := mkPath { absolute : bool; parts : list string }.

Global Instance Path_eq_dec : EqDecision Path.
Proof. solve_decision. Defined.

Global Program Instance Path_countable : Countable Path :=
  inj_countable' (λ p, (absolute p, parts p)) (λ x, mkPath x.1 x.2) _.
Next Obligation. by intros []. Qed.

Definition str_starts_with_slash (s : string) : bool :=
  match s with
  | String a _ => ascii_eqb a Chars.slash
  | EmptyString => false
  end.

Definition proper_segment (x : string) : bool :=
  negb (str_is_empty x) && negb (String.eqb x ".").

(** [Path(s)]. *)
Definition path_of_str (s : string) : Path :=
  mkPath (str_starts_with_slash s)
         (List.filter proper_segment (str_split Chars.slash s)).

(** [p / s] for a string [s]: an absolute [s] replaces [p]. *)
Definition path_div (p : Path) (s : string) : Path :=
  let q := path_of_str s in
  if absolute q then q else mkPath (absolute p) (parts p ++ parts q).

(** [p.name]. *)
Definition path_name (p : Path) : string :=
  List.last (parts p) EmptyString.

(** [p.parent]. *)
Definition path_parent (p : Path) : Path :=
  mkPath (absolute p) (removelast (parts p)).

(** Where the last suffix of a file name starts: the last dot, unless it
    is the first or the last character of the name. *)
Definition suffix_index (name : string) : option nat :=
  match str_rfind Chars.dot name with
  | Some i => if (0 <? i) && (i <? String.length name - 1) then Some i else None
  | None => None
  end.

(** [p.suffix]. *)
Definition path_suffix (p : Path) : string :=
  match suffix_index (path_name p) with
  | Some i => str_drop i (path_name p)
  | None => EmptyString
  end.

(** [p.stem]. *)
Definition path_stem (p : Path) : string :=
  match suffix_index (path_name p) with
  | Some i => str_take i (path_name p)
  | None => path_name p
  end.

(** [str(p)]. *)
Definition path_str (p : Path) : string :=
  if absolute p then "/" +:+ str_join "/" (parts p)
  else match parts p with
       | [] => "."
       | ps => str_join "/" ps
       end.

(** ** The file system

    One volume: a finite map from paths to regular files and directories.
    The root and the current directory always exist. An error of the
    system is an [OSError] with the description of the error; the error
    number and the file names of Python's message are left out. *)

Inductive node :=
  | File (content : string)
  | Dir.

Abbreviation filesystem := (gmap Path node).

Definition fs_is_dir (fs : filesystem) (p : Path) : bool :=
  match parts p with
  | [] => true
  | _ => match fs !! p with Some Dir => true | _ => false end
  end.

Definition fs_exists (fs : filesystem) (p : Path) : bool :=
  match parts p with
  | [] => true
  | _ => match fs !! p with Some _ => true | None => false end
  end.

Fixpoint list_prefixb (l k : list string) : bool :=
  match l, k with
  | [], _ => true
  | x :: l', y :: k' => String.eqb x y && list_prefixb l' k'
  | _ :: _, [] => false
  end.

(** [p] is [d] or lies below it. *)
Definition path_below (d p : Path) : bool :=
  Bool.eqb (absolute d) (absolute p) && list_prefixb (parts d) (parts p).

(** The path of [p] once the tree at [src] has become the tree at [dst]. *)
Definition reroot (src dst p : Path) : Path :=
  if path_below src p
  then mkPath (absolute dst) (parts dst ++ drop (length (parts src)) (parts p))
  else p.

Definition fs_reroot (src dst : Path) (fs : filesystem) : filesystem :=
  list_to_map (prod_map (reroot src dst) id <$> map_to_list fs).

(** [os.makedirs(p, exist_ok=True)], which is also what
    [p.mkdir(parents=True, exist_ok=True)] does: every missing ancestor and
    [p] itself become directories; a regular file in the way is an error. *)
Fixpoint makedirs_from (fs : filesystem) (abs : bool) (above todo : list string)
  : res filesystem :=
  match todo with
  | [] => Ok fs
  | x :: todo' =>
      let p := mkPath abs (above ++ [x]) in
      match fs !! p with
      | Some (File _) => Raise (OSError "File exists")
      | Some Dir => makedirs_from fs abs (above ++ [x]) todo'
      | None => makedirs_from (<[p := Dir]> fs) abs (above ++ [x]) todo'
      end
  end.

Definition makedirs (fs : filesystem) (p : Path) : res filesystem :=
  makedirs_from fs (absolute p) [] (parts p).

(** [p.iterdir()]: the entries of a directory, listed once when the loop
    starts, in the order of the directory listing. *)
Definition iterdir (fs : filesystem) (d : Path) : res (list Path) :=
  if fs_is_dir fs d then
    Ok (List.filter
          (λ p, match parts p with [] => false | _ => bool_decide (path_parent p = d) end)
          (map_to_list fs).*1)
  else Raise (OSError "Not a directory").

(** [shutil.move(src, dst)] on one volume. A destination that is a
    directory receives the source under its own name. When [os.rename]
    refuses, the copying fall-back fails for a regular file, and for a
    directory it first creates the missing ancestors of the destination. *)
Definition shutil_move (fs : filesystem) (src dst : Path) : res filesystem :=
  if fs_is_dir fs dst && bool_decide (src = dst) then Ok fs
  else
    let real_dst := if fs_is_dir fs dst then path_div dst (path_name src) else dst in
    if fs_is_dir fs dst && fs_exists fs real_dst then
      Raise (OSError "Destination path already exists")
    else
      match fs !! src with
      | None => Raise (OSError "No such file or directory")
      | Some (File c) =>
          if fs_is_dir fs (path_parent real_dst)
          then Ok (<[real_dst := File c]> (delete src fs))
          else Raise (OSError "No such file or directory")
      | Some Dir =>
          if path_below src real_dst then
            Raise (OSError "Cannot move a directory into itself")
          else if fs_exists fs real_dst then Raise (OSError "File exists")
          else
            match makedirs fs (path_parent real_dst) with
            | Ok fs' => Ok (fs_reroot src real_dst fs')
            | Raise e => Raise e
            end
      end.

(** ** The world and its computations *)

Inductive level := INFO | WARNING | ERROR.

Inductive query :=
  | QClassify (filename : string)
  | QEnrich (search_type : string) (title : pyval) (year : option pyval).

Record world := mkWorld {
  fs : filesystem;
  log : list (level * string);
  queries : list query;
}.

Definition M (A : Type) : Type := world → res A * world.

Global Instance M_ret : MRet M := λ A a w, (Ok a, w).
Global Instance M_bind : MBind M := λ A B f m w,
  match m w with
  | (Ok a, w') => f a w'
  | (Raise e, w') => (Raise e, w')
  end.

Definition raise {A} (e : exn) : M A := λ w, (Raise e, w).

(** [try: m; except Exception as e: h e]. *)
Definition try_except {A} (m : M A) (h : exn → M A) : M A := λ w,
  match m w with
  | (Ok a, w') => (Ok a, w')
  | (Raise e, w') => h e w'
  end.

(** A pure computation that may raise. *)
Definition lift_res {A} (r : res A) : M A := λ w, (r, w).

Definition logging (l : level) (msg : string) : M unit := λ w,
  (Ok tt, mkWorld (fs w) (log w ++ [(l, msg)]) (queries w)).

Definition record_query (q : query) : M unit := λ w,
  (Ok tt, mkWorld (fs w) (log w) (queries w ++ [q])).

Definition get_fs : M filesystem := λ w, (Ok (fs w), w).

Definition put_fs (f : filesystem) : M unit := λ w,
  (Ok tt, mkWorld f (log w) (queries w)).

(** A file system operation: the new file system on success. *)
Definition fs_op (op : filesystem → res filesystem) : M unit :=
  f ← get_fs; f' ← lift_res (op f); put_fs f'.

(** [for x in l: body x]. *)
Fixpoint for_each {A} (l : list A) (body : A → M unit) : M unit :=
  match l with
  | [] => mret tt
  | x :: l' => body x;; for_each l' body
  end.

Definition exn_str (e : exn) : string :=
  match e with
  | KeyError k => repr_str k
  | ValueError m | TypeError m | AttributeError m | OSError m | CsvError m => m
  end.

Global Instance res_ret : MRet res := λ A a, Ok a.
Global Instance res_bind : MBind res := λ A B f r,
  match r with
  | Ok a => f a
  | Raise e => Raise e
  end.

(** ** Dictionaries

    Keys are the hashable values that occur: strings, integers and [None]
    (the key under which [csv.DictReader] stores surplus fields). *)

Inductive pykey :=
  | KNone
  | KInt (z : Z)
  | KStr (s : string).

Global Instance pykey_eq_dec : EqDecision pykey.
Proof. solve_decision. Defined.

Global Program Instance pykey_countable : Countable pykey :=
  inj_countable'
    (λ k, match k with KNone => inl () | KInt z => inr (inl z) | KStr s => inr (inr s) end)
    (λ x, match x with inl _ => KNone | inr (inl z) => KInt z | inr (inr s) => KStr s end) _.
Next Obligation. by intros []. Qed.

Abbreviation dict := (gmap pykey pyval).

(** The key a value is stored under; lists are not hashable. *)
Definition py_key (v : pyval) : res pykey :=
  match v with
  | VNone => Ok KNone
  | VInt z => Ok (KInt z)
  | VStr s => Ok (KStr s)
  | VList _ => Raise (TypeError "unhashable type: 'list'")
  end.

(** [d[k]]. *)
Definition dict_getitem (d : dict) (k : string) : res pyval :=
  match d !! KStr k with
  | Some v => Ok v
  | None => Raise (KeyError k)
  end.

(** [d.get(k, default)]. *)
Definition dict_get (d : dict) (k : string) (default : pyval) : pyval :=
  match d !! KStr k with
  | Some v => v
  | None => default
  end.

(** ** Path and name synthesis *)

Definition SHARED_MEDIA_PATH : string := "/Volumes/HDD_RAID/Shared Media/".
Definition CACHE_FILE : string := "media_cache.csv".

Definition str_chars (s : string) : list pyval :=
  (λ a, VStr (str1 a)) <$> list_ascii_of_string s.

(** The items a [for] loop or a slice takes from a value. *)
Definition py_items (v : pyval) : res (list pyval) :=
  match v with
  | VList l => Ok l
  | VStr s => Ok (str_chars s)
  | VInt _ => Raise (TypeError "'int' object is not subscriptable")
  | VNone => Raise (TypeError "'NoneType' object is not subscriptable")
  end.

(** The loop body of [dedupe_sequential]: append [item] unless it equals
    [deduped_list[-1]]. *)
Definition dedupe_step (first : pyval) (deduped_list : list pyval) (item : pyval)
  : list pyval :=
  if negb (py_eqb item (List.last deduped_list first))
  then deduped_list ++ [item]
  else deduped_list.

Definition dedupe_sequential (lst : pyval) : res (list pyval) :=
  if negb (py_truthy lst) then Ok []
  else
    items ← py_items lst;
    match items with
    | [] => Raise (TypeError "list index out of range")
    | x :: rest => Ok (fold_left (dedupe_step x) rest [x])
    end.

Definition season_tag_applies (v : pyval) : bool :=
  negb (is_none v) && str_isdigit (py_str v).

Definition build_destination_path
    (category subfolders title season : pyval) (dry_run : bool) : M Path :=
  if is_none category then raise (ValueError "Category cannot be None.")
  else
    let dest_path := path_div (path_of_str SHARED_MEDIA_PATH) (sanitize_filename category) in
    deduped ← lift_res (dedupe_sequential subfolders);
    let dest_path :=
      fold_left (λ p subfolder, path_div p (sanitize_filename subfolder)) deduped dest_path in
    dest_path ←
      (if py_in_strs category ["TV Shows"; "Kids TV"; "Anime"] && py_truthy title then
         let dest_path :=
           if negb (py_truthy subfolders)
           then path_div dest_path (sanitize_filename title) else dest_path in
         if season_tag_applies season then
           n ← lift_res (py_int season);
           mret (path_div dest_path ("Season " +:+ format_02d n))
         else mret dest_path
       else mret dest_path);
    (if negb dry_run then fs_op (λ f, makedirs f dest_path) else mret tt);;
    mret dest_path.

Definition generate_new_filename
    (file_path : string) (category title year season episode : pyval) : res string :=
  let file_ext := path_suffix (path_of_str file_path) in
  if py_in_strs category ["Movies"; "Kids Movies"] then
    Ok (if py_truthy year
        then py_str year +:+ " - " +:+ sanitize_filename title +:+ file_ext
        else sanitize_filename title +:+ file_ext)
  else if py_in_strs category ["TV Shows"; "Kids TV"; "Anime"] then
    season_str ←
      (if season_tag_applies season
       then n ← py_int season; Ok ("S" +:+ format_02d n) else Ok EmptyString);
    episode_str ←
      (if season_tag_applies episode
       then n ← py_int episode; Ok ("E" +:+ format_02d n) else Ok EmptyString);
    Ok (if negb (str_is_empty season_str) && negb (str_is_empty episode_str) then
          season_str +:+ episode_str +:+ " - " +:+ sanitize_filename title +:+ file_ext
        else if negb (str_is_empty episode_str) && str_is_empty season_str then
          episode_str +:+ " - " +:+ sanitize_filename title +:+ file_ext
        else sanitize_filename title +:+ file_ext)
  else Ok (path_name (path_of_str file_path)).

(** ** The move executor *)

(** The body of the loop over the entries of the source directory. *)
Definition move_sibling (src_stem : string) (dest_file : Path) (item : Path) : M unit :=
  if String.eqb (path_stem item) src_stem
  then fs_op (λ f, shutil_move f item (path_div (path_parent dest_file) (path_name item)))
  else mret tt.

Definition move_file_and_sidecars (src_file : string) (dest_file : Path) : M unit :=
  try_except
    (let src_dir := path_parent (path_of_str src_file) in
     let src_stem := path_stem (path_of_str src_file) in
     f ← get_fs;
     items ← lift_res (iterdir f src_dir);
     for_each items (move_sibling src_stem dest_file);;
     logging INFO ("Moved " +:+ src_file +:+ " to " +:+ path_str dest_file))
    (λ e, logging ERROR ("Error moving file " +:+ src_file +:+ " to "
                          +:+ path_str dest_file +:+ ": " +:+ exn_str e)).

Definition rename_and_move_file (file_path : string) (metadata : dict) (dry_run : bool)
  : M (string * string) :=
  category ← lift_res (dict_getitem metadata "category");
  let subfolders := dict_get metadata "subfolders" (VList []) in
  title ← lift_res (dict_getitem metadata "title");
  let year := dict_get metadata "year" (VStr EmptyString) in
  let season := dict_get metadata "season" (VStr EmptyString) in
  let episode := dict_get metadata "episode" (VStr EmptyString) in
  dest_path ← build_destination_path category subfolders title season dry_run;
  new_filename ← lift_res (generate_new_filename file_path category title year season episode);
  let dest_file := path_div dest_path new_filename in
  (if dry_run
   then logging INFO ("Dry run: Would move " +:+ file_path +:+ " to " +:+ path_str dest_file)
   else move_file_and_sidecars file_path dest_file);;
  mret (file_path, path_str dest_file).

(** ** The csv module, excel dialect

    Delimiter comma, quote character double quote, doubled quotes inside
    quoted fields, minimal quoting, line terminator CR LF, no escape
    character, not strict. Text is handled as lists of characters, every
    character being an ordinary one (as since Python 3.11). *)

Module Csv.
Import Chars.

Definition special (a : ascii) : bool :=
  ascii_eqb a comma || ascii_eqb a dquote || ascii_eqb a cr || ascii_eqb a lf.

Definition double_quotes (s : list ascii) : list ascii :=
  flat_map (λ a, if ascii_eqb a dquote then [dquote; dquote] else [a]) s.

(** One field as the writer emits it. *)
Definition join_field (s : list ascii) : list ascii :=
  if existsb special s then dquote :: double_quotes s ++ [dquote] else s.

Fixpoint join_fields (fields : list (list ascii)) : list ascii :=
  match fields with
  | [] => []
  | [f] => join_field f
  | f :: fields' => join_field f ++ comma :: join_fields fields'
  end.

(** [writer.writerow(fields)]: a record made of one empty field is
    written as a pair of quotes. *)
Definition writerow (fields : list (list ascii)) : list ascii :=
  match fields with
  | [[]] => [dquote; dquote; cr; lf]
  | _ => join_fields fields ++ [cr; lf]
  end.

(** The reader's automaton. The two escape states are left out: they are
    entered on the escape character only, and the dialect has none. *)
Inductive state :=
  | START_RECORD
  | START_FIELD
  | IN_FIELD
  | IN_QUOTED_FIELD
  | QUOTE_IN_QUOTED_FIELD
  | EAT_CRNL.

Inductive tok :=
  | Ch (c : ascii)
  | EOL.

Record parser := mkParser {
  st : state;
  field : list ascii;
  fields : list (list ascii);
}.

Definition parse_reset : parser := mkParser START_RECORD [] [].

(** [csv.field_size_limit()]: the most characters a field may have. *)
Definition field_limit : N := 131072.

Definition parse_add_char (p : parser) (c : ascii) : res parser :=
  if (field_limit <=? N.of_nat (length (field p)))%N
  then Raise (CsvError "field larger than field limit (131072)")
  else Ok (mkParser (st p) (field p ++ [c]) (fields p)).

Definition parse_save_field (p : parser) : parser :=
  mkParser (st p) [] (fields p ++ [field p]).

Definition set_state (s : state) (p : parser) : parser :=
  mkParser s (field p) (fields p).

Definition is_newline (c : ascii) : bool := ascii_eqb c lf || ascii_eqb c cr.

Definition start_field (p : parser) (t : tok) : res parser :=
  match t with
  | EOL => Ok (set_state START_RECORD (parse_save_field p))
  | Ch c =>
      if is_newline c then Ok (set_state EAT_CRNL (parse_save_field p))
      else if ascii_eqb c dquote then Ok (set_state IN_QUOTED_FIELD p)
      else if ascii_eqb c comma then Ok (parse_save_field p)
      else p' ← parse_add_char p c; Ok (set_state IN_FIELD p')
  end.

Definition parse_process_char (p : parser) (t : tok) : res parser :=
  match st p with
  | START_RECORD =>
      match t with
      | EOL => Ok p
      | Ch c =>
          if is_newline c then Ok (set_state EAT_CRNL p)
          else start_field (set_state START_FIELD p) t
      end
  | START_FIELD => start_field p t
  | IN_FIELD =>
      match t with
      | EOL => Ok (set_state START_RECORD (parse_save_field p))
      | Ch c =>
          if is_newline c then Ok (set_state EAT_CRNL (parse_save_field p))
          else if ascii_eqb c comma then Ok (set_state START_FIELD (parse_save_field p))
          else parse_add_char p c
      end
  | IN_QUOTED_FIELD =>
      match t with
      | EOL => Ok p
      | Ch c =>
          if ascii_eqb c dquote then Ok (set_state QUOTE_IN_QUOTED_FIELD p)
          else parse_add_char p c
      end
  | QUOTE_IN_QUOTED_FIELD =>
      match t with
      | EOL => Ok (set_state START_RECORD (parse_save_field p))
      | Ch c =>
          if ascii_eqb c dquote
          then p' ← parse_add_char p c; Ok (set_state IN_QUOTED_FIELD p')
          else if ascii_eqb c comma then Ok (set_state START_FIELD (parse_save_field p))
          else if is_newline c then Ok (set_state EAT_CRNL (parse_save_field p))
          else p' ← parse_add_char p c; Ok (set_state IN_FIELD p')
      end
  | EAT_CRNL =>
      match t with
      | EOL => Ok (set_state START_RECORD p)
      | Ch c =>
          if is_newline c then Ok p
          else Raise (CsvError "new-line character seen in unquoted field")
      end
  end.

(** A file opened with [newline=''] is read line by line, a line ending
    after LF, after CR LF, after a CR that no LF follows, and at the end of
    the text. [ends_line c rest] tells whether the line ends after [c]
    when [rest] is what follows. *)
Definition ends_line (c : ascii) (rest : list ascii) : bool :=
  match rest with
  | [] => true
  | d :: _ => ascii_eqb c lf || (ascii_eqb c cr && negb (ascii_eqb d lf))
  end.

Definition is_START_RECORD (s : state) : bool :=
  match s with START_RECORD => true | _ => false end.

Definition is_IN_QUOTED_FIELD (s : state) : bool :=
  match s with IN_QUOTED_FIELD => true | _ => false end.

(** The records the reader yields, and the error that ended the
    iteration, if any. Every character of a line is processed, then the end
    of the line; a record is complete when this leaves the automaton at the
    start of a record. At the end of the text an open quoted field, or a
    field with characters, is closed into a last record. *)
Fixpoint read_from (p : parser) (s : list ascii)
  : list (list (list ascii)) * option exn :=
  match s with
  | [] =>
      if negb (length (field p) =? 0) || is_IN_QUOTED_FIELD (st p)
      then ([fields (parse_save_field p)], None)
      else ([], None)
  | c :: rest =>
      match parse_process_char p (Ch c) with
      | Raise e => ([], Some e)
      | Ok p1 =>
          if ends_line c rest then
            match parse_process_char p1 EOL with
            | Raise e => ([], Some e)
            | Ok p2 =>
                if is_START_RECORD (st p2) then
                  let '(rows, err) := read_from parse_reset rest in
                  (fields p2 :: rows, err)
                else read_from p2 rest
            end
          else read_from p1 rest
      end
  end.

Definition reader (text : list ascii) : list (list (list ascii)) * option exn :=
  read_from parse_reset text.

(** A field the reader accepts: not longer than the limit. *)
Definition within_limit (f : list ascii) : Prop :=
  (N.of_nat (length f) <= field_limit)%N.

(** Where the automaton stands after a field written by the writer. *)
Definition after_field (p : parser) (f : list ascii) : parser :=
  if existsb special f then mkParser QUOTE_IN_QUOTED_FIELD f (fields p)
  else match f with
       | [] => p
       | _ => mkParser IN_FIELD f (fields p)
       end.

Definition at_field_start (p : parser) : Prop :=
  field p = [] ∧ (st p = START_FIELD ∨ (st p = START_RECORD ∧ fields p = [])).
End Csv.

(** ** The cache store *)

Definition expected_headers : list string :=
  ["original_path"; "new_path"; "category"; "title"; "show_name"; "year"; "season"; "episode"].

Definition cache_path : Path := path_of_str CACHE_FILE.

Abbreviation cache_table := (gmap pykey dict).

(** What the csv writer puts in a cell: nothing for [None], the string
    itself, [str(v)] for anything else. *)
Definition csv_cell (v : pyval) : string :=
  match v with
  | VNone => EmptyString
  | _ => py_str v
  end.

(** [DictWriter._dict_to_list]: keys outside the field names are an error,
    missing keys are written as the empty string. *)
Definition dict_to_list (fieldnames : list string) (rowdict : dict) : res (list pyval) :=
  if forallb (λ k, bool_decide (k ∈ KStr <$> fieldnames)) (map_to_list rowdict).*1
  then Ok ((λ key, dict_get rowdict key (VStr EmptyString)) <$> fieldnames)
  else Raise (ValueError "dict contains fields not in fieldnames").

(** The text [DictWriter.writerow] writes. *)
Definition DictWriter_writerow (fieldnames : list string) (rowdict : dict) : res string :=
  cells ← dict_to_list fieldnames rowdict;
  Ok (string_of_list_ascii
        (Csv.writerow ((λ v, list_ascii_of_string (csv_cell v)) <$> cells))).

Definition header_dict (fieldnames : list string) : dict :=
  list_to_map ((λ k, (KStr k, VStr k)) <$> fieldnames).

(** [open(p, 'w')]: the file is created or emptied. *)
Definition open_truncate (fs : filesystem) (p : Path) : res filesystem :=
  match fs !! p with
  | Some Dir => Raise (OSError "Is a directory")
  | _ => if fs_is_dir fs (path_parent p)
         then Ok (<[p := File EmptyString]> fs)
         else Raise (OSError "No such file or directory")
  end.

(** [open(p, 'a')]: the file is created when missing. *)
Definition open_append (fs : filesystem) (p : Path) : res filesystem :=
  match fs !! p with
  | Some Dir => Raise (OSError "Is a directory")
  | Some (File _) => Ok fs
  | None => if fs_is_dir fs (path_parent p)
            then Ok (<[p := File EmptyString]> fs)
            else Raise (OSError "No such file or directory")
  end.

Definition file_write (data : string) (fs : filesystem) (p : Path) : res filesystem :=
  match fs !! p with
  | Some (File c) => Ok (<[p := File (c +:+ data)]> fs)
  | _ => Raise (OSError "Bad file descriptor")
  end.

Definition file_read (fs : filesystem) (p : Path) : res string :=
  match fs !! p with
  | Some (File c) => Ok c
  | Some Dir => Raise (OSError "Is a directory")
  | None => Raise (OSError "No such file or directory")
  end.

Definition write_cache_entry (cache_entry : dict) : M unit :=
  try_except
    (f ← get_fs;
     (if negb (fs_exists f cache_path) then
        fs_op (λ f, open_truncate f cache_path);;
        header ← lift_res (DictWriter_writerow expected_headers (header_dict expected_headers));
        fs_op (λ f, file_write header f cache_path)
      else mret tt);;
     fs_op (λ f, open_append f cache_path);;
     row ← lift_res (DictWriter_writerow expected_headers cache_entry);
     fs_op (λ f, file_write row f cache_path);;
     original_path ← lift_res (dict_getitem cache_entry "original_path");
     logging INFO ("Cache entry written to " +:+ CACHE_FILE +:+ " for " +:+ py_str original_path))
    (λ e,
     original_path ← lift_res (dict_getitem cache_entry "original_path");
     logging ERROR ("Error writing cache entry for " +:+ py_str original_path
                    +:+ ": " +:+ exn_str e)).

(** One row of [csv.DictReader]: the fields under the field names, surplus
    fields as a list under the key [None], missing fields as [None]. *)
Definition DictReader_row (fieldnames : list string) (row : list string) : dict :=
  let d := fold_left (λ (d : dict) kv, <[KStr kv.1 := VStr kv.2]> d) (zip fieldnames row) ∅ in
  let lf := length fieldnames in
  let lr := length row in
  if lf <? lr then <[KNone := VList (VStr <$> drop lf row)]> d
  else if lr <? lf then fold_left (λ (d : dict) key, <[KStr key := VNone]> d) (drop lr fieldnames) d
  else d.

(** The loop [for row in reader: cache[row['original_path']] = row]; empty
    records are skipped by the reader. The table filled so far survives an
    exception. *)
Fixpoint load_rows (cache : cache_table) (rows : list (list string))
  : cache_table * option exn :=
  match rows with
  | [] => (cache, None)
  | [] :: rows' => load_rows cache rows'
  | row :: rows' =>
      let d := DictReader_row expected_headers row in
      match v ← dict_getitem d "original_path"; py_key v with
      | Ok k => load_rows (<[k := d]> cache) rows'
      | Raise e => (cache, Some e)
      end
  end.

Definition csv_reader (text : string) : list (list string) * option exn :=
  let '(rows, err) := Csv.reader (list_ascii_of_string text) in
  (map (map string_of_list_ascii) rows, err).

(** The message of the header check; [fieldnames] is [None] for a text
    without records. *)
Definition unexpected_headers_msg (fieldnames : option (list string)) : string :=
  "Unexpected headers in " +:+ CACHE_FILE
  +:+ ". Expected: " +:+ py_repr (VList (VStr <$> expected_headers))
  +:+ ", Got: "
  +:+ match fieldnames with
      | Some names => py_repr (VList (VStr <$> names))
      | None => "None"
      end.

(** What the [try] block of [read_cache] leaves: the table, and the
    exception that ended the block, if any. The field names are the first
    record, [None] for a text without records. *)
Definition read_cache_rows (text : string) : cache_table * option exn :=
  match csv_reader text with
  | ([], Some e) => (∅, Some e)
  | ([], None) => (∅, Some (ValueError (unexpected_headers_msg None)))
  | (fieldnames :: rows, err) =>
      if bool_decide (fieldnames = expected_headers) then
        match load_rows ∅ rows with
        | (cache, Some e) => (cache, Some e)
        | (cache, None) => (cache, err)
        end
      else (∅, Some (ValueError (unexpected_headers_msg (Some fieldnames))))
  end.

Definition read_cache : M cache_table :=
  f ← get_fs;
  if fs_exists f cache_path then
    match file_read f cache_path with
    | Raise e =>
        logging ERROR ("Error reading cache file " +:+ CACHE_FILE +:+ ": " +:+ exn_str e);;
        mret ∅
    | Ok text =>
        match read_cache_rows text with
        | (cache, Some e) =>
            logging ERROR ("Error reading cache file " +:+ CACHE_FILE +:+ ": " +:+ exn_str e);;
            mret cache
        | (cache, None) =>
            logging INFO ("Loaded cache from " +:+ CACHE_FILE);;
            mret cache
        end
    end
  else
    logging INFO "No cache file found. Starting with an empty cache.";;
    mret ∅.

(** ** The remote adapters

    What the two remote services answer is outside the program; a run is
    modelled against a fixed pair of answer functions. *)

Inductive llm_reply :=
  | ReplyObject (d : dict)
  | ReplyOther
  | ReplyUndecodable
  | ReplyFailed (e : exn).

Inductive tmdb_reply :=
  | TmdbResults (results : list dict)
  | TmdbFailed (e : exn).

Record adapters := mkAdapters {
  chat_completion : string → llm_reply;
  tmdb_get : string → pyval → option pyval → tmdb_reply;
}.

Definition categorize_file (A : adapters) (filename : string) : M (option dict) :=
  record_query (QClassify filename);;
  match chat_completion A filename with
  | ReplyObject d => mret (Some d)
  | ReplyOther =>
      logging ERROR ("Error categorizing file " +:+ filename +:+ ": Invalid metadata format.");;
      mret None
  | ReplyUndecodable =>
      logging ERROR "JSON decoding error";;
      logging ERROR ("Error categorizing file " +:+ filename +:+ ": Invalid metadata format.");;
      mret None
  | ReplyFailed e =>
      logging ERROR ("Error categorizing file " +:+ filename +:+ ": " +:+ exn_str e);;
      mret None
  end.

Definition fetch_metadata_tmdb (A : adapters) (title : pyval) (year : pyval) (is_tv : bool)
  : M (option dict) :=
  let search_type := if is_tv then "tv" else "movie" in
  let year_param := if negb (is_none year) && str_isdigit (py_str year) then Some year else None in
  record_query (QEnrich search_type title year_param);;
  match tmdb_get A search_type title year_param with
  | TmdbResults (r :: _) => mret (Some r)
  | TmdbResults [] =>
      logging WARNING ("No TMDb results for " +:+ py_str title);;
      mret None
  | TmdbFailed e =>
      logging ERROR ("TMDb API request failed for " +:+ py_str title +:+ ": " +:+ exn_str e);;
      mret None
  end.

(** [v[:4]]. *)
Definition slice_4 (v : pyval) : res pyval :=
  match v with
  | VStr s => Ok (VStr (str_take 4 s))
  | VList l => Ok (VList (take 4 l))
  | VNone => Raise (TypeError "'NoneType' object is not subscriptable")
  | VInt _ => Raise (TypeError "'int' object is not subscriptable")
  end.

Definition update_metadata_with_tmdb (metadata tmdb_data : dict) (is_tv : bool) : res dict :=
  let date_key := if is_tv then "first_air_date" else "release_date" in
  year ← slice_4 (dict_get tmdb_data date_key (VStr EmptyString));
  let metadata := <[KStr "year" := year]> metadata in
  old_title ← dict_getitem metadata "title";
  Ok (<[KStr "title" := dict_get tmdb_data (if is_tv then "name" else "title") old_title]> metadata).

Definition key_str (k : pykey) : string :=
  match k with
  | KNone => "None"
  | KInt z => decimal z
  | KStr s => s
  end.

Definition purge_removed_files_from_cache (cache : cache_table) (media_files : list string)
  : M cache_table :=
  let removed_files :=
    List.filter (λ k, negb (bool_decide (k ∈ KStr <$> media_files))) (map_to_list cache).*1 in
  for_each removed_files (λ file_path,
    logging INFO ("Removing " +:+ key_str file_path +:+ " from cache as it no longer exists."));;
  mret (fold_left (λ (c : cache_table) k, delete k c) removed_files cache).

(** The metadata of one file: from the cache, or classified and, outside
    the two TV categories, enriched. [None] when the file is skipped. *)
Definition obtain_metadata (A : adapters) (cache : cache_table) (file_path : string)
  : M (option dict) :=
  match cache !! KStr file_path with
  | Some metadata =>
      logging INFO ("Using cached metadata for " +:+ file_path);;
      mret (Some metadata)
  | None =>
      classified ← categorize_file A (path_name (path_of_str file_path));
      match classified with
      | None =>
          logging WARNING ("Skipping " +:+ file_path +:+ " due to missing metadata.");;
          mret None
      | Some metadata =>
          category ← lift_res (dict_getitem metadata "category");
          let is_tv := py_in_strs category ["TV Shows"; "Kids TV"] in
          if negb is_tv then
            title ← lift_res (dict_getitem metadata "title");
            tmdb_data ← fetch_metadata_tmdb A title (dict_get metadata "year" VNone) is_tv;
            match tmdb_data with
            | Some d =>
                if bool_decide (d = ∅) then
                  logging WARNING ("No TMDb data for " +:+ py_str title);;
                  mret (Some metadata)
                else
                  metadata ← lift_res (update_metadata_with_tmdb metadata d is_tv);
                  mret (Some metadata)
            | None =>
                logging WARNING ("No TMDb data for " +:+ py_str title);;
                mret (Some metadata)
            end
          else mret (Some metadata)
      end
  end.

Definition make_cache_entry (original_path new_path : string) (metadata : dict) : dict :=
  list_to_map
    [(KStr "original_path", VStr original_path);
     (KStr "new_path", VStr new_path);
     (KStr "category", dict_get metadata "category" (VStr EmptyString));
     (KStr "title", dict_get metadata "title" (VStr EmptyString));
     (KStr "show_name", dict_get metadata "show_name" (VStr EmptyString));
     (KStr "year", dict_get metadata "year" (VStr EmptyString));
     (KStr "season", dict_get metadata "season" (VStr EmptyString));
     (KStr "episode", dict_get metadata "episode" (VStr EmptyString))].

(** [try: m; except ValueError as e: h e]: other exceptions pass. *)
Definition try_except_ValueError {A} (m : M A) (h : exn → M A) : M A :=
  try_except m (λ e, if is_ValueError e then h e else raise e).

(** The body of the loop of [process_files]. The table is updated between
    the move and the write of the cache entry, both inside the [try]. *)
Definition process_file (A : adapters) (dry_run : bool) (cache : cache_table)
    (file_path : string) : M cache_table :=
  logging INFO ("Processing " +:+ file_path);;
  found ← obtain_metadata A cache file_path;
  match found with
  | None => mret cache
  | Some metadata =>
      try_except_ValueError
        (moved ← rename_and_move_file file_path metadata dry_run;
         let cache_entry := make_cache_entry moved.1 moved.2 metadata in
         let cache := <[KStr moved.1 := cache_entry]> cache in
         try_except_ValueError
           (write_cache_entry cache_entry;; mret cache)
           (λ e,
            logging WARNING ("Error moving file at original path " +:+ file_path
                             +:+ ": " +:+ exn_str e);;
            mret cache))
        (λ e,
         logging WARNING ("Error moving file at original path " +:+ file_path
                          +:+ ": " +:+ exn_str e);;
         mret cache)
  end.

Fixpoint process_loop (A : adapters) (dry_run : bool) (cache : cache_table)
    (media_files : list string) : M cache_table :=
  match media_files with
  | [] => mret cache
  | file_path :: rest =>
      cache ← process_file A dry_run cache file_path;
      process_loop A dry_run cache rest
  end.

Definition process_files (A : adapters) (media_files : list string) (cache : cache_table)
    (dry_run : bool) : M cache_table :=
  cache ← process_loop A dry_run cache media_files;
  purge_removed_files_from_cache cache media_files.

(** The [--rescue] branch of [main], for the files the directory walk
    found. *)
Definition rescue (A : adapters) (media_files : list string) (no_cache dry_run : bool)
  : M unit :=
  match media_files with
  | [] => logging INFO "No media files found in the orphaned directory."
  | _ =>
      cache ← (if no_cache then logging INFO "Cache usage disabled.";; mret ∅
               else read_cache);
      process_files A media_files cache dry_run;;
      mret tt
  end.

(** ** Notions of the specification *)

Definition episodic (category : pyval) : bool :=
  py_in_strs category ["TV Shows"; "Kids TV"; "Anime"].

Definition movie_like (category : pyval) : bool :=
  py_in_strs category ["Movies"; "Kids Movies"].

(** Sequential dedupe in the words of the specification: an element equal
    to the one kept before it is dropped, so runs of adjacent duplicates
    collapse and duplicates further apart stay. *)
Fixpoint collapse_from (prev : pyval) (l : list pyval) : list pyval :=
  match l with
  | [] => []
  | y :: l' => if py_eqb y prev then collapse_from prev l' else y :: collapse_from y l'
  end.

Definition collapse_adjacent (l : list pyval) : list pyval :=
  match l with
  | [] => []
  | x :: l' => x :: collapse_from x l'
  end.

(** The integer a season or episode value parses as: a non-negative
    integer, or a non-empty string of at most 4300 decimal digits. *)
Definition integer_of (v : pyval) : option Z :=
  match v with
  | VInt z => if (0 <=? z)%Z then Some z else None
  | VStr s =>
      if str_isdecimal s && (Z.of_nat (String.length s) <=? int_max_str_digits)%Z
      then Some (digits_value 0 s) else None
  | _ => None
  end.

(** A season or episode value that [str(v).isdigit()] accepts and that is
    no such integer: its text holds a superscript digit, or more than 4300
    digits. *)
Definition digits_rejected (v : pyval) : bool :=
  match integer_of v with
  | Some _ => false
  | None => season_tag_applies v
  end.

(** The season or the episode of a record of an episodic category is such
    a value. *)
Definition tags_rejected (category season episode : pyval) : bool :=
  episodic category && (digits_rejected season || digits_rejected episode).

(** What [int(v)] raises for such a value. *)
Definition int_exception (v : pyval) : exn :=
  match py_int v with
  | Raise e => e
  | Ok _ => ValueError EmptyString
  end.

Definition root_parts : list string := ["Volumes"; "HDD_RAID"; "Shared Media"].

(** The list a [subfolders] value supplies: the array itself, the empty
    list for [null]. *)
Definition subfolder_list (v : pyval) : option (list pyval) :=
  match v with
  | VList l => Some l
  | VNone => Some []
  | _ => None
  end.

(** The segments the directory rule lists after the root. *)
Definition directory_segments (category : pyval) (subfolders : list pyval)
    (title season : pyval) : list string :=
  sanitize_filename category
  :: (sanitize_filename <$> collapse_adjacent subfolders)
  ++ (if episodic category && py_truthy title then
        (match subfolders with [] => [sanitize_filename title] | _ => [] end)
        ++ (match integer_of season with
            | Some n => ["Season " +:+ format_02d n]
            | None => []
            end)
      else []).

(** The directory of the rule; a segment that is empty or a single dot
    adds no component to a path. *)
Definition spec_directory (category : pyval) (subfolders : list pyval)
    (title season : pyval) : Path :=
  mkPath true
    (root_parts ++ List.filter proper_segment (directory_segments category subfolders title season)).

(** The tag of the filename rule for a season or episode value. *)
Definition tag (letter : string) (v : pyval) : string :=
  match integer_of v with
  | Some n => letter +:+ format_02d n
  | None => EmptyString
  end.

(** The filename rule. *)
Definition spec_filename (file_path : string) (category title year season episode : pyval)
  : string :=
  let ext := path_suffix (path_of_str file_path) in
  let name := sanitize_filename title in
  if movie_like category then
    if py_truthy year then py_str year +:+ " - " +:+ name +:+ ext else name +:+ ext
  else if episodic category then
    match integer_of season, integer_of episode with
    | Some s, Some e => "S" +:+ format_02d s +:+ "E" +:+ format_02d e +:+ " - " +:+ name +:+ ext
    | None, Some e => "E" +:+ format_02d e +:+ " - " +:+ name +:+ ext
    | _, None => name +:+ ext
    end
  else path_name (path_of_str file_path).

(** No two neighbours of a collapsed list are equal. *)
Inductive no_adjacent_dup : list pyval → Prop :=
  | nad_nil : no_adjacent_dup []
  | nad_one x : no_adjacent_dup [x]
  | nad_cons x y l : x ≠ y → no_adjacent_dup (y :: l) → no_adjacent_dup (x :: y :: l).

(** The world with another file system. *)
Definition with_fs (f : filesystem) (w : world) : world :=
  mkWorld f (log w) (queries w).

Definition empty_world : world := mkWorld ∅ [] [].

(** ** Scenarios *)

Module Scenario.
Definition dirs (l : list string) : list (Path * node) :=
  (λ s, (path_of_str s, Dir)) <$> l.

Definition volume : list (Path * node) :=
  dirs ["/Volumes"; "/Volumes/HDD_RAID"; "/Volumes/HDD_RAID/Orphaned"].

(** A movie with a subtitle file next to it. *)
Definition movie_fs : filesystem :=
  list_to_map (volume ++
    [(path_of_str "/Volumes/HDD_RAID/Orphaned/Test.Movie.2020.mkv", File "video");
     (path_of_str "/Volumes/HDD_RAID/Orphaned/Test.Movie.2020.srt", File "subtitles")]).

Definition movie_file : string := "/Volumes/HDD_RAID/Orphaned/Test.Movie.2020.mkv".

Definition movie_metadata : dict :=
  list_to_map [(KStr "category", VStr "Movies"); (KStr "subfolders", VList []);
               (KStr "title", VStr "Test Movie"); (KStr "show_name", VNone);
               (KStr "year", VStr "2020"); (KStr "season", VNone); (KStr "episode", VNone)].

(** A clip with a subtitle file; the destination directory already holds
    a directory of the subtitle's name with an entry of that name. *)
Definition clip_fs : filesystem :=
  list_to_map (volume ++
    dirs ["/Volumes/HDD_RAID/Shared Media"; "/Volumes/HDD_RAID/Shared Media/Movies";
          "/Volumes/HDD_RAID/Shared Media/Movies/Clip.srt"] ++
    [(path_of_str "/Volumes/HDD_RAID/Orphaned/Clip.mp4", File "video");
     (path_of_str "/Volumes/HDD_RAID/Orphaned/Clip.srt", File "subtitles");
     (path_of_str "/Volumes/HDD_RAID/Shared Media/Movies/Clip.srt/Clip.srt", File "older")]).

Definition clip_file : string := "/Volumes/HDD_RAID/Orphaned/Clip.mp4".

Definition clip_metadata : dict :=
  list_to_map [(KStr "category", VStr "Movies"); (KStr "title", VStr "Clip")].
End Scenario.

(** The exception a result carries. *)
Definition raised {A} (r : res A) : option exn :=
  match r with
  | Raise e => Some e
  | Ok _ => None
  end.

Module Batch.
(** Two files found by the directory walk. *)
Definition first_file : string := "/Volumes/HDD_RAID/Orphaned/First.mkv".
Definition second_file : string := "/Volumes/HDD_RAID/Orphaned/Second.mkv".

Definition good_reply : dict :=
  list_to_map [(KStr "category", VStr "Movies"); (KStr "subfolders", VList []);
               (KStr "title", VStr "Second"); (KStr "show_name", VNone);
               (KStr "year", VNone); (KStr "season", VNone); (KStr "episode", VNone)].

(** The classification of the first file is [first_reply]; the second
    file is classified well. The search of the enrichment service finds
    [results]. *)
Definition services (first_reply : dict) (results : list dict) : adapters :=
  mkAdapters
    (λ filename, if String.eqb filename "First.mkv" then ReplyObject first_reply
                 else ReplyObject good_reply)
    (λ _ _ _, TmdbResults results).

Definition no_category : dict := list_to_map [(KStr "title", VStr "First")].
Definition no_title : dict := list_to_map [(KStr "category", VStr "Movies")].
Definition complete : dict :=
  list_to_map [(KStr "category", VStr "Movies"); (KStr "title", VStr "First")].

(** A search result whose release date is null. *)
Definition undated : dict :=
  list_to_map [(KStr "title", VStr "First"); (KStr "release_date", VNone)].

Definition run (first_reply : dict) (results : list dict) : res cache_table * world :=
  process_files (services first_reply results) [first_file; second_file] ∅ true empty_world.

(** An episode of an anime series. *)
Definition anime_file : string := "/Volumes/HDD_RAID/Orphaned/Show.S01E05.mkv".
Definition anime_reply : dict :=
  list_to_map [(KStr "category", VStr "Anime"); (KStr "subfolders", VList []);
               (KStr "title", VStr "Show"); (KStr "show_name", VStr "Show");
               (KStr "year", VNone); (KStr "season", VStr "01"); (KStr "episode", VStr "05")].
Definition anime_services : adapters :=
  mkAdapters (λ _, ReplyObject anime_reply) (λ _ _ _, TmdbResults []).

(** A cache file of another layout. *)
Definition foreign_text : string :=
  "path,title" +:+ String Chars.cr (String Chars.lf
    ("/Volumes/HDD_RAID/Orphaned/First.mkv,First"
     +:+ String Chars.cr (String Chars.lf EmptyString))).

Definition foreign_cache : filesystem := {[ cache_path := File foreign_text ]}.
End Batch.

(** A computation that asks the remote adapters nothing. *)
Definition queries_kept {A} (m : M A) : Prop :=
  ∀ w, queries (m w).2 = queries w.

(** The [year] parameter of the search request. *)
Definition year_param (metadata : dict) : option pyval :=
  let year := dict_get metadata "year" VNone in
  if negb (is_none year) && str_isdigit (py_str year) then Some year else None.

(** No record of the table has a [subfolders] key. *)
Definition no_subfolders (cache : cache_table) : Prop :=
  ∀ k metadata, cache !! k = Some metadata → metadata !! KStr "subfolders" = None.

(** The destination [rename_and_move_file] returns for a record without
    subfolders. *)
Definition cached_target (file_path : string) (metadata : dict) (category title : pyval)
  : string :=
  path_str
    (path_div
       (spec_directory category [] title (dict_get metadata "season" (VStr EmptyString)))
       (spec_filename file_path category title
          (dict_get metadata "year" (VStr EmptyString))
          (dict_get metadata "season" (VStr EmptyString))
          (dict_get metadata "episode" (VStr EmptyString)))).

Module Superscript.
(** The superscript digits two and three: digits for [str.isdigit()], and
    no decimal digits. *)
Definition two : string := String "178"%char EmptyString.
Definition three : string := String "179"%char EmptyString.

(** [c * n]. *)
Fixpoint str_repeat (c : ascii) (n : nat) : string :=
  match n with
  | 0 => EmptyString
  | S n' => String c (str_repeat c n')
  end.

(** A season of 4301 decimal digits. *)
Definition long_season : string := str_repeat "1"%char 4301.
End Superscript.

Module Rerun.
(** A film the classification files under a studio subfolder. *)
Definition up_file : string := "/Volumes/HDD_RAID/Orphaned/Up.2009.mkv".

Definition up_metadata : dict :=
  list_to_map [(KStr "category", VStr "Movies"); (KStr "subfolders", VList [VStr "Pixar"]);
               (KStr "title", VStr "Up"); (KStr "show_name", VNone);
               (KStr "year", VStr "2009"); (KStr "season", VNone); (KStr "episode", VNone)].

Definition services : adapters :=
  mkAdapters (λ _, ReplyObject up_metadata) (λ _ _ _, TmdbResults []).

(** The record the first run puts into the table. *)
Definition up_entry : dict :=
  make_cache_entry up_file "/Volumes/HDD_RAID/Shared Media/Movies/Pixar/2009 - Up.mkv"
    up_metadata.
End Rerun.

Fixpoint str_concat (l : list string) : string :=
  match l with
  | [] => EmptyString
  | s :: l' => s +:+ str_concat l'
  end.

(** The line the csv writer writes for a list of cells. *)
Definition row_text (cells : list string) : string :=
  string_of_list_ascii (Csv.writerow (list_ascii_of_string <$> cells)).

(** The cells of a cache entry, in the order of the columns. *)
Definition entry_cells (e : dict) : list string :=
  (λ k, csv_cell (dict_get e k (VStr EmptyString))) <$> expected_headers.

(** A cell the csv reader accepts, and an entry made of such cells. *)
Definition cell_fits (s : string) : Prop :=
  (N.of_nat (String.length s) <= Csv.field_limit)%N.

Definition entry_fits (e : dict) : Prop := Forall cell_fits (entry_cells e).

(** The cache file after the program has written the entries in turn. *)
Definition cache_text (entries : list dict) : string :=
  row_text expected_headers +:+ str_concat (row_text <$> (entry_cells <$> entries)).

(** The record [read_cache] makes of the line of an entry. *)
Definition reloaded (e : dict) : dict :=
  DictReader_row expected_headers (entry_cells e).

(** The entries of the files routed so far: original path, new path and
    metadata of each. *)
Definition routed_entries (routed : list (string * string * dict)) : list dict :=
  (λ r, make_cache_entry r.1.1 r.1.2 r.2) <$> routed.

(** ** Frames

    What a computation leaves as it is: [preserves R m] when every run of
    [m] ends in a world related by [R] to the one it started in. *)

Definition preserves {A} (R : relation world) (m : M A) : Prop :=
  ∀ w, R w (m w).2.

(** The file system is left as it is. *)
Definition same_fs : relation world := λ w w', fs w' = fs w.

(** Every path other than [p] is left as it is. *)
Definition same_fs_but (p : Path) : relation world :=
  λ w w', ∀ q, q ≠ p → fs w' !! q = fs w !! q.

(** The world with more lines in its log. *)
Definition logged (lines : list (level * string)) (w : world) : world :=
  mkWorld (fs w) (log w ++ lines) (queries w).

(** The line [purge_removed_files_from_cache] logs for a key. *)
Definition removal_line (k : pykey) : level * string :=
  (INFO, "Removing " +:+ key_str k +:+ " from cache as it no longer exists.").

(** The first line [process_files] logs for a file. *)
Definition processing_line (file_path : string) : level * string :=
  (INFO, "Processing " +:+ file_path).

(** The [try] block of the loop of [process_files], with its handler. *)
Definition route_file (dry_run : bool) (cache : cache_table) (file_path : string)
    (metadata : dict) : M cache_table :=
  try_except_ValueError
    (moved ← rename_and_move_file file_path metadata dry_run;
     let cache_entry := make_cache_entry moved.1 moved.2 metadata in
     let cache := <[KStr moved.1 := cache_entry]> cache in
     try_except_ValueError
       (write_cache_entry cache_entry;; mret cache)
       (λ e,
        logging WARNING ("Error moving file at original path " +:+ file_path
                         +:+ ": " +:+ exn_str e);;
        mret cache))
    (λ e,
     logging WARNING ("Error moving file at original path " +:+ file_path
                      +:+ ": " +:+ exn_str e);;
     mret cache).

Module Skipped.
(** A classifier that answers with something that is not a JSON object. *)
Definition services : adapters :=
  mkAdapters (λ _, ReplyOther) (λ _ _ _, TmdbResults []).

(** A record without a category, as a short line of the cache file gives. *)
Definition uncategorized : dict :=
  list_to_map [(KStr "category", VNone); (KStr "title", VStr "First")].
End Skipped.

(** The cache file is only added to: the text it holds stays, as the
    beginning of the text it holds afterwards. *)
Definition cache_file_grows : relation world :=
  λ w w', ∀ t, fs w !! cache_path = Some (File t) →
               ∃ s, fs w' !! cache_path = Some (File (t +:+ s)).

(** A computation that raises whatever the world is. *)
Definition always_raises {A} (m : M A) : Prop :=
  ∀ w, ∃ e, (m w).1 = Raise e.

Module Appended.
(** A volume with a cache file of one record, and a film next to it. *)
Definition old_text : string :=
  cache_text [make_cache_entry "/Volumes/HDD_RAID/Orphaned/Old.mkv"
                "/Volumes/HDD_RAID/Shared Media/Movies/Old.mkv" Scenario.movie_metadata].

Definition volume : filesystem :=
  <[cache_path := File old_text]> Scenario.movie_fs.
End Appended.

(** The destination [rename_and_move_file] returns for a record whose
    subfolders are the list [subfolders]. *)
Definition routed_target (file_path : string) (metadata : dict) (category title : pyval)
    (subfolders : list pyval) : string :=
  path_str
    (path_div
       (spec_directory category subfolders title (dict_get metadata "season" (VStr EmptyString)))
       (spec_filename file_path category title
          (dict_get metadata "year" (VStr EmptyString))
          (dict_get metadata "season" (VStr EmptyString))
          (dict_get metadata "episode" (VStr EmptyString)))).

(** The original path a line of the cache file is stored under. *)
Definition stored_path (e : dict) : string :=
  csv_cell (dict_get e "original_path" (VStr EmptyString)).

(** The entries written for [p], in the order they were written. *)
Definition records_of (p : string) (entries : list dict) : list dict :=
  List.filter (λ e, String.eqb (stored_path e) p) entries.

Module Vanished.
(** A record of the cache for a film that is no longer on the volume. *)
Definition gone_file : string := "/Volumes/HDD_RAID/Orphaned/Gone.mkv".

Definition cache : cache_table := {[ KStr gone_file := Scenario.movie_metadata ]}.
End Vanished.

(** A path component the synthesis may add: not empty, not a single dot,
    and without any of the nine characters. *)
Definition clean_segment (s : string) : Prop :=
  proper_segment s = true ∧ ∀ c, c ∈ forbidden_chars → str_mem c s = false.

Module Enriched.
(** A film the classifier dates wrongly and the film data base knows. *)
Definition file : string := "/Volumes/HDD_RAID/Orphaned/alien.mkv".

Definition reply : dict :=
  list_to_map [(KStr "category", VStr "Movies"); (KStr "title", VStr "alien");
               (KStr "year", VStr "1980")].

Definition result : dict :=
  list_to_map [(KStr "title", VStr "Alien"); (KStr "release_date", VStr "1979-05-25")].

Definition services : adapters :=
  mkAdapters (λ _, ReplyObject reply) (λ _ _ _, TmdbResults [result]).
End Enriched.

(** ** Video files *)

Definition VIDEO_EXTENSIONS : list string := [".mp4"; ".mkv"; ".avi"; ".mov"; ".wmv"].

(** [c.lower()] for an 8-bit character: the letters A to Z, and the
    capital letters from A grave to thorn, the multiplication sign between
    them left out, are moved 32 places up. *)
Definition char_lower (a : ascii) : ascii :=
  let n := nat_of_ascii a in
  if ((65 <=? n) && (n <=? 90)) || ((192 <=? n) && (n <=? 222) && negb (n =? 215))
  then ascii_of_nat (n + 32) else a.

(** [s.lower()]. *)
Fixpoint str_lower (s : string) : string :=
  match s with
  | EmptyString => EmptyString
  | String a s' => String (char_lower a) (str_lower s')
  end.

(** [s.endswith(suffix)]. *)
Definition str_endswith (s suffix : string) : bool :=
  (String.length suffix <=? String.length s)
  && String.eqb (str_drop (String.length s - String.length suffix) s) suffix.

(** [s.startswith(prefix)]. *)
Definition str_startswith (s pre : string) : bool :=
  String.eqb (str_take (String.length pre) s) pre.

(** The name generated for a film starts with the year as it is, and a
    name that starts with a slash stands for itself as the destination.
    [pathlib] keeps a root of exactly two slashes apart from the root,
    which the paths of this model do not: where the text of a destination
    is stated, the year of a film is taken not to start with two slashes. *)
Definition year_keeps_root (category year : pyval) : Prop :=
  movie_like category = true → py_truthy year = true →
  str_startswith (py_str year) "//" = false.

Definition is_video_file (filename : string) : bool :=
  existsb (λ ext, str_endswith (str_lower filename) ext) VIDEO_EXTENSIONS.

(** ** Reorganizing the library *)

Definition max_files_to_think_of_at_once : nat := 500.

(** [range(start, stop, step)] for a positive step, counted out with as
    many steps as [stop] allows. *)
Fixpoint range_from (fuel start stop step : nat) : list nat :=
  match fuel with
  | 0 => []
  | S fuel' =>
      if start <? stop then start :: range_from fuel' (start + step) stop step else []
  end.

Definition py_range (start stop step : nat) : list nat :=
  range_from stop start stop step.

(** [[titles[i:i + n] for i in range(0, len(titles), n)]]. *)
Definition title_chunks (titles : list string) : list (list string) :=
  (λ i, take max_files_to_think_of_at_once (drop i titles))
    <$> py_range 0 (length titles) max_files_to_think_of_at_once.

(** An element of the list of groupings: a JSON object, or a value of
    another type, of which the program gets to see the type only. *)
Inductive grouping :=
  | GroupObject (group : dict)
  | GroupOther (type_name : string).

(** The entry [groupings] of the object an answer decodes to, as
    [list.extend] sees it: nothing for an object without the entry (the
    empty object included, which the program skips to the same effect); the
    items it takes from a value it can iterate over (the elements of an
    array, the characters of a string, the keys of an object); the type of
    a value it cannot iterate over (null, a number, a truth value). *)
Inductive groupings_entry :=
  | NoGroupings
  | Groupings (items : list grouping)
  | NotIterable (type_name : string).

(** What the grouping request gives back. For an answer that decodes to a
    JSON object, the program looks at the entry [groupings] only; the
    objects among its items have values among null, integers, strings and
    arrays. [raw] is the text of the answer, [shown] what [str] makes of
    the decoded value, [err] the message of the decoder. *)
Inductive grouping_reply :=
  | GroupingObject (raw shown : string) (groupings : groupings_entry)
  | GroupingOther (raw shown : string)
  | GroupingUndecodable (raw err : string)
  | GroupingFailed (e : exn).

Definition grouping_service : Type := string → list string → grouping_reply.

Definition get_grouping_data_from_api (G : grouping_service) (category : string)
    (titles_chunk : list string) : M (option groupings_entry) :=
  let failed msg :=
    logging ERROR ("Error during grouping API call for category '" +:+ category
                   +:+ "': " +:+ msg) in
  match G category titles_chunk with
  | GroupingObject raw shown groupings =>
      logging INFO ("Grouping raw data for '" +:+ category +:+ "': " +:+ raw);;
      logging INFO ("Grouping response for '" +:+ category +:+ "': " +:+ shown);;
      mret (Some groupings)
  | GroupingOther raw shown =>
      logging INFO ("Grouping raw data for '" +:+ category +:+ "': " +:+ raw);;
      logging INFO ("Grouping response for '" +:+ category +:+ "': " +:+ shown);;
      failed "Invalid grouping data format.";;
      mret None
  | GroupingUndecodable raw err =>
      logging INFO ("Grouping raw data for '" +:+ category +:+ "': " +:+ raw);;
      logging ERROR ("JSON decoding error: " +:+ err);;
      logging INFO ("Grouping response for '" +:+ category +:+ "': None");;
      failed "Invalid grouping data format.";;
      mret None
  | GroupingFailed e =>
      failed (exn_str e);;
      mret None
  end.

Definition not_iterable (type_name : string) : exn :=
  TypeError ("'" +:+ type_name +:+ "' object is not iterable").

(** [groupings.extend(grouping_data.get('groupings', []))]. *)
Definition extend_groupings (groupings : list grouping) (entry : groupings_entry)
  : res (list grouping) :=
  match entry with
  | NoGroupings => Ok groupings
  | Groupings found => Ok (groupings ++ found)
  | NotIterable type_name => Raise (not_iterable type_name)
  end.

(** The loop over the chunks, [groupings] being the list filled so far. *)
Fixpoint collect_groupings (G : grouping_service) (category : string)
    (chunks : list (list string)) (groupings : list grouping) : M (list grouping) :=
  match chunks with
  | [] => mret groupings
  | chunk :: chunks' =>
      grouping_data ← get_grouping_data_from_api G category chunk;
      groupings ←
        match grouping_data with
        | Some entry => lift_res (extend_groupings groupings entry)
        | None => mret groupings
        end;
      collect_groupings G category chunks' groupings
  end.

Definition get_groupings_from_titles (G : grouping_service) (category : string)
    (files : list string) : M (list grouping) :=
  let titles := (λ f, path_stem (path_of_str f)) <$> files in
  collect_groupings G category (title_chunks titles) [].

(** The items a [for] loop takes from a value. *)
Definition py_iter (v : pyval) : res (list pyval) :=
  match v with
  | VList l => Ok l
  | VStr s => Ok (str_chars s)
  | VInt _ => Raise (TypeError "'int' object is not iterable")
  | VNone => Raise (TypeError "'NoneType' object is not iterable")
  end.

(** The folder of a group. *)
Definition group_folder (category : string) (group_name : pyval) : Path :=
  path_div (path_div (path_of_str SHARED_MEDIA_PATH) category) (sanitize_filename group_name).

(** The innermost loop body of [move_files_to_groupings]. *)
Definition move_to_group (dry_run : bool) (group_path : Path) (file_path : string) : M unit :=
  let dest_file_path := path_div group_path (path_name (path_of_str file_path)) in
  if dry_run then
    logging INFO ("Dry run: Would move " +:+ file_path +:+ " to " +:+ path_str dest_file_path)
  else
    try_except
      (fs_op (λ f, shutil_move f (path_of_str file_path) dest_file_path);;
       logging INFO ("Moved " +:+ file_path +:+ " to " +:+ path_str dest_file_path))
      (λ e, logging ERROR ("Error moving " +:+ file_path +:+ " to "
                           +:+ path_str dest_file_path +:+ ": " +:+ exn_str e)).

(** [[f for f in files if Path(f).stem == title]]. *)
Definition matched_files (files : list string) (title : pyval) : list string :=
  List.filter (λ f, py_eqb (VStr (path_stem (path_of_str f))) title) files.

(** [group.get(key, default)] for an element of the list of groupings:
    only an object has the method. *)
Definition group_get (group : grouping) (key : string) (default : pyval) : res pyval :=
  match group with
  | GroupObject d => Ok (dict_get d key default)
  | GroupOther type_name =>
      Raise (AttributeError ("'" +:+ type_name +:+ "' object has no attribute 'get'"))
  end.

Definition move_files_to_groupings (groupings : list grouping) (files : list string)
    (category : string) (dry_run : bool) : M unit :=
  for_each groupings (λ group,
    group_name ← lift_res (group_get group "group_name" VNone);
    group_titles ← lift_res (group_get group "titles" (VList []));
    if negb (py_truthy group_name) || negb (py_truthy group_titles) then mret tt
    else
      let group_path := group_folder category group_name in
      (if negb dry_run then fs_op (λ f, makedirs f group_path)
       else logging INFO ("Dry run: Would create directory " +:+ path_str group_path));;
      titles ← lift_res (py_iter group_titles);
      for_each titles (λ title,
        for_each (matched_files files title) (move_to_group dry_run group_path))).

(** The loop of [reorganize_shared_media] over the catalog: the categories
    that were found, each with its video files. *)
Definition reorganize_catalog (G : grouping_service)
    (media_catalog : list (string * list string)) (dry_run : bool) : M unit :=
  for_each media_catalog (λ entry,
    let category := entry.1 in
    let files := entry.2 in
    logging INFO ("Analyzing " +:+ decimal (Z.of_nat (length files))
                  +:+ " files in category '" +:+ category +:+ "' for reorganization.");;
    groupings ← get_groupings_from_titles G category files;
    match groupings with
    | [] => mret tt
    | _ => move_files_to_groupings groupings files category dry_run
    end).

(** The groupings a chunk adds to the list. *)
Definition chunk_groupings (G : grouping_service) (category : string)
    (chunk : list string) : list grouping :=
  match G category chunk with
  | GroupingObject _ _ (Groupings found) => found
  | _ => []
  end.

(** The exception a chunk ends the loop with: its answer is an object
    whose [groupings] cannot be iterated over. *)
Definition chunk_failure (G : grouping_service) (category : string)
    (chunk : list string) : option exn :=
  match G category chunk with
  | GroupingObject _ _ (NotIterable type_name) => Some (not_iterable type_name)
  | _ => None
  end.

(** One move of the grouping loop, on the file system: a move that fails
    leaves the file system as it is. *)
Definition attempt_move (group_path : Path) (f : filesystem) (file_path : string)
  : filesystem :=
  match shutil_move f (path_of_str file_path)
          (path_div group_path (path_name (path_of_str file_path))) with
  | Ok f' => f'
  | Raise _ => f
  end.

Module Grouped.
(** Two episodes in the Anime folder, and a grouping that names a title
    that has no file before the titles of the two. *)
Definition library : filesystem :=
  list_to_map
    (Scenario.dirs ["/Volumes"; "/Volumes/HDD_RAID"; "/Volumes/HDD_RAID/Shared Media";
                    "/Volumes/HDD_RAID/Shared Media/Anime"] ++
     [(path_of_str "/Volumes/HDD_RAID/Shared Media/Anime/Akira.mkv", File "akira");
      (path_of_str "/Volumes/HDD_RAID/Shared Media/Anime/Paprika.mkv", File "paprika")]).

Definition files : list string :=
  ["/Volumes/HDD_RAID/Shared Media/Anime/Lost.mkv";
   "/Volumes/HDD_RAID/Shared Media/Anime/Akira.mkv";
   "/Volumes/HDD_RAID/Shared Media/Anime/Paprika.mkv"].

Definition group : dict :=
  list_to_map [(KStr "group_name", VStr "Films");
               (KStr "titles", VList [VStr "Lost"; VStr "Akira"; VStr "Paprika"])].
End Grouped.

(** ** Finding the video files *)

Definition ORPHANED_PATH : string := "/Volumes/HDD_RAID/Orphaned/".
Definition CATEGORIES : list string := ["Anime"].

(** [os.path.join(a, b)]. *)
Definition os_path_join (a b : string) : string :=
  if str_starts_with_slash b then b
  else if str_is_empty a || str_endswith a "/" then a +:+ b
  else a +:+ "/" +:+ b.

Definition is_dir_entry (f : filesystem) (p : Path) : bool :=
  match f !! p with Some Dir => true | _ => false end.

(** [os.walk(top)], top down: for every directory that can be listed its
    path, the names of its directories and the names of its other entries,
    then the same for each of its directories; a directory that cannot be
    listed gives nothing. The volume has no links. [fuel] bounds the depth
    that is walked. *)
Fixpoint os_walk (fuel : nat) (f : filesystem) (top : string)
  : list (string * list string * list string) :=
  match fuel with
  | 0 => []
  | S fuel' =>
      match iterdir f (path_of_str top) with
      | Raise _ => []
      | Ok entries =>
          let dirs := path_name <$> List.filter (is_dir_entry f) entries in
          let nondirs := path_name <$> List.filter (λ p, negb (is_dir_entry f p)) entries in
          (top, dirs, nondirs)
          :: flat_map (λ d, os_walk fuel' f (os_path_join top d)) dirs
      end
  end.

(** One step more than the longest path of the volume has components:
    enough for every directory. *)
Definition walk_fuel (f : filesystem) : nat :=
  S (max_list ((λ p, length (parts p)) <$> (map_to_list f).*1)).

Definition get_files_in_directory (f : filesystem) (directory : string) : list string :=
  flat_map
    (λ entry,
       os_path_join entry.1.1
         <$> List.filter (λ file, negb (str_startswith file "._") && is_video_file file)
               entry.2)
    (os_walk (walk_fuel f) f directory).

(** The catalog has one entry for each category whose folder exists;
    [CATEGORIES] names no category twice. *)
Definition collect_media_files : M (list (string * list string)) :=
  f ← get_fs;
  mret (flat_map
          (λ category,
             let category_path := path_div (path_of_str SHARED_MEDIA_PATH) category in
             if fs_exists f category_path && fs_is_dir f category_path
             then [(category, get_files_in_directory f (path_str category_path))]
             else [])
          CATEGORIES).

Definition reorganize_shared_media (G : grouping_service) (dry_run : bool) : M unit :=
  logging INFO "Starting reorganization of Shared Media...";;
  media_catalog ← collect_media_files;
  reorganize_catalog G media_catalog dry_run;;
  logging INFO "Reorganization of Shared Media completed.".

(** [main], for the four flags of the command line. *)
Definition main (A : adapters) (G : grouping_service)
    (rescue_arg reorganize_arg no_cache dry_run : bool) : M unit :=
  if rescue_arg then
    f ← get_fs;
    rescue A (get_files_in_directory f ORPHANED_PATH) no_cache dry_run
  else if reorganize_arg then reorganize_shared_media G dry_run
  else logging ERROR "Specify one, or both, of --rescue and --reorganize args.".

(** A name a directory entry can have. *)
Definition proper_name (x : string) : bool :=
  proper_segment x && negb (str_mem Chars.slash x).

(** A volume as a file system has it: every component of every path is a
    name, and every entry lies in a directory. *)
Definition is_tree (f : filesystem) : bool :=
  forallb
    (λ p, forallb proper_name (parts p)
          && match parts (path_parent p) with
             | [] => true
             | _ => is_dir_entry f (path_parent p)
             end)
    (map_to_list f).*1.

(** A file the scan is after. *)
Definition wanted (name : string) : bool :=
  negb (str_startswith name "._") && is_video_file name.

Module Walked.
(** Orphans in two directories, with a resource fork and a subtitle. *)
Definition volume : filesystem :=
  list_to_map
    (Scenario.volume ++ Scenario.dirs ["/Volumes/HDD_RAID/Orphaned/Shows"] ++
     [(path_of_str "/Volumes/HDD_RAID/Orphaned/Film.MKV", File "film");
      (path_of_str "/Volumes/HDD_RAID/Orphaned/._Film.MKV", File "fork");
      (path_of_str "/Volumes/HDD_RAID/Orphaned/Film.srt", File "subtitles");
      (path_of_str "/Volumes/HDD_RAID/Orphaned/Shows/Episode.mp4", File "episode")]).
End Walked.

(** Where [move_file_and_sidecars] sends an entry of the source
    directory: the directory of the destination, under the entry's name. *)
Definition sibling_target (dest_file item : Path) : Path :=
  path_div (path_parent dest_file) (path_name item).

(** The entries a move is about: those with the stem of the file. *)
Definition is_sibling (src_file : string) (item : Path) : bool :=
  String.eqb (path_stem item) (path_stem (path_of_str src_file)).

(** What the loop over the siblings needs of the entries that are left and
    of the file system they are moved in: the destination directory is
    there, the entries are entries of the source directory, and those with
    the stem are regular files whose place in the destination directory is
    not taken by a directory. *)
Definition siblings_ready (stem : string) (dest_file src_dir : Path)
    (items : list Path) (f : filesystem) : Prop :=
  fs_is_dir f (path_parent dest_file) = true
  ∧ ∀ i, i ∈ items →
      parts i ≠ [] ∧ path_parent i = src_dir ∧ proper_name (path_name i) = true
      ∧ (path_stem i = stem →
         (∃ c, f !! i = Some (File c)) ∧ is_dir_entry f (sibling_target dest_file i) = false).

Module Moved.
(** A film with its subtitles and another film, and the folder for films. *)
Definition volume : filesystem :=
  list_to_map
    (Scenario.volume ++
     Scenario.dirs ["/Volumes/HDD_RAID/Shared Media"; "/Volumes/HDD_RAID/Shared Media/Movies"] ++
     [(path_of_str "/Volumes/HDD_RAID/Orphaned/Test.Movie.2020.mkv", File "video");
      (path_of_str "/Volumes/HDD_RAID/Orphaned/Test.Movie.2020.srt", File "subtitles");
      (path_of_str "/Volumes/HDD_RAID/Orphaned/Other.mkv", File "other")]).

Definition dest_file : Path :=
  path_of_str "/Volumes/HDD_RAID/Shared Media/Movies/2020 - Test Movie.mkv".
End Moved.

(** * Properties *)

(** ** Strings *)

Lemma ascii_eqb_true a b : ascii_eqb a b = true ↔ a = b.
Proof. apply Ascii.eqb_eq. Qed.

Lemma ascii_eqb_false a b : ascii_eqb a b = false ↔ a ≠ b.
Proof. apply Ascii.eqb_neq. Qed.

Lemma ascii_eqb_refl a : ascii_eqb a a = true.
Proof. by apply ascii_eqb_true. Qed.

Lemma str_app_cons a (s t : string) : String a s +:+ t = String a (s +:+ t).
Proof. reflexivity. Qed.

Lemma str_app_empty_l (s : string) : EmptyString +:+ s = s.
Proof. reflexivity. Qed.

Lemma str_app_assoc (s t u : string) : (s +:+ t) +:+ u = s +:+ (t +:+ u).
Proof.
  induction s as [|a s IH]; [done|].
  by rewrite !str_app_cons, IH.
Qed.

Lemma str_app_empty_r (s : string) : s +:+ EmptyString = s.
Proof.
  induction s as [|a s IH]; [done|].
  by rewrite str_app_cons, IH.
Qed.

Lemma str_mem_app c (s t : string) : str_mem c (s +:+ t) = str_mem c s || str_mem c t.
Proof.
  induction s as [|a s IH]; [done|].
  rewrite str_app_cons. simpl. rewrite IH. by rewrite orb_assoc.
Qed.

Lemma str_mem_list c (s : string) :
  str_mem c s = true ↔ c ∈ list_ascii_of_string s.
Proof.
  induction s as [|a s IH]; simpl.
  - split; [done | by intros ?%elem_of_nil].
  - rewrite orb_true_iff, IH, elem_of_cons, ascii_eqb_true. done.
Qed.

Lemma str_split_absent c (s : string) : str_mem c s = false → str_split c s = [s].
Proof.
  induction s as [|a s IH]; simpl; [done|].
  intros [Ha Hs]%orb_false_iff.
  assert (ascii_eqb a c = false) as ->.
  { apply ascii_eqb_false. apply ascii_eqb_false in Ha. congruence. }
  by rewrite (IH Hs).
Qed.

(** ** The sanitizer *)

Lemma forbidden_spec a : forbidden a = true ↔ a ∈ forbidden_chars.
Proof.
  unfold forbidden. rewrite existsb_exists. split.
  - intros (b & Hin & Hb). apply ascii_eqb_true in Hb. subst. by apply list_elem_of_In.
  - intros Hin. exists a. split; [by apply list_elem_of_In | apply ascii_eqb_refl].
Qed.

Lemma re_sub_class_delete cls (s : string) :
  list_ascii_of_string (re_sub_class cls EmptyString s)
  = List.filter (λ a, negb (cls a)) (list_ascii_of_string s).
Proof.
  induction s as [|a s IH]; simpl; [done|].
  destruct (cls a); rewrite ?str_app_empty_l; simpl; by rewrite IH.
Qed.

Lemma re_sub_class_clean cls (s : string) :
  str_forallb (λ a, negb (cls a)) s = true → re_sub_class cls EmptyString s = s.
Proof.
  induction s as [|a s IH]; simpl; [done|].
  intros [Ha Hs]%andb_true_iff. apply negb_true_iff in Ha. rewrite Ha.
  by rewrite (IH Hs).
Qed.

Lemma sanitize_no_forbidden v c :
  c ∈ forbidden_chars → str_mem c (sanitize_filename v) = false.
Proof.
  intros Hc. apply not_true_is_false. rewrite str_mem_list.
  destruct v as [|z|s|l]; simpl; try by intros ?%elem_of_nil.
  rewrite re_sub_class_delete. intros Hin%list_elem_of_In.
  apply filter_In in Hin as [_ Hneg]. apply negb_true_iff in Hneg.
  apply forbidden_spec in Hc. congruence.
Qed.

(** C9. [sanitize_filename] returns a string without any of the nine
    forbidden characters; on a string it returns the string with exactly
    these characters deleted, the others kept in order; on [None] and every
    other value that is not a string it returns the empty string; and a
    string without forbidden characters is returned unchanged. *)
Theorem sanitize_filename_spec (v : pyval) :
  (∀ c, c ∈ forbidden_chars → str_mem c (sanitize_filename v) = false)
  ∧ (∀ s, v = VStr s →
       list_ascii_of_string (sanitize_filename v)
       = List.filter (λ a, negb (bool_decide (a ∈ forbidden_chars))) (list_ascii_of_string s))
  ∧ ((∀ s, v ≠ VStr s) → sanitize_filename v = EmptyString)
  ∧ (∀ s, v = VStr s → (∀ c, c ∈ forbidden_chars → str_mem c s = false) →
       sanitize_filename v = s).
Proof.
  split; [|split; [|split]].
  - intros c Hc. by apply sanitize_no_forbidden.
  - intros s ->. simpl. rewrite re_sub_class_delete.
    apply filter_ext. intros a. f_equal.
    apply eq_true_iff_eq. rewrite forbidden_spec, bool_decide_eq_true. done.
  - intros Hv. destruct v as [|z|s|l]; try done. by destruct (Hv s).
  - intros s -> Hclean. simpl. apply re_sub_class_clean.
    induction s as [|a s IH]; simpl; [done|].
    apply andb_true_iff. split.
    + apply negb_true_iff, not_true_is_false. intros Ha%forbidden_spec.
      specialize (Hclean a Ha). simpl in Hclean. by rewrite ascii_eqb_refl in Hclean.
    + apply IH. intros c Hc. specialize (Hclean c Hc). simpl in Hclean.
      by apply orb_false_iff in Hclean as [_ ?].
Qed.

Lemma sanitize_filename_spec_witness :
  sanitize_filename (VStr "Test Movie") = "Test Movie"
  ∧ sanitize_filename VNone = EmptyString.
Proof.
  split.
  - apply (proj2 (proj2 (proj2 (sanitize_filename_spec (VStr "Test Movie")))) "Test Movie").
    + reflexivity.
    + intros c Hc. unfold forbidden_chars in Hc.
      repeat (apply elem_of_cons in Hc as [-> | Hc]; [reflexivity|]).
      by apply elem_of_nil in Hc.
  - apply (proj1 (proj2 (proj2 (sanitize_filename_spec VNone)))). intros s. discriminate.
Defined.

(** ** Integers and their text *)

Lemma decimal_is_digit a : is_decimal_char a = true → is_digit_char a = true.
Proof. unfold is_digit_char. by intros ->. Qed.

Lemma digit_char_cases a :
  is_digit_char a = true →
  is_decimal_char a = true
  ∨ (is_decimal_char a = false
     ∧ (nat_of_ascii a = 178 ∨ nat_of_ascii a = 179 ∨ nat_of_ascii a = 185)).
Proof.
  unfold is_digit_char. destruct (is_decimal_char a) eqn:Hd; [by left|].
  cbn [orb]. intros H. right. split; [done|].
  repeat (apply orb_true_iff in H as [H|H]); apply Nat.eqb_eq in H; tauto.
Qed.

Lemma decimal_char_range a : is_decimal_char a = true → 48 ≤ nat_of_ascii a ≤ 57.
Proof.
  unfold is_decimal_char. intros [H1 H2]%andb_true_iff.
  apply Nat.leb_le in H1. apply Nat.leb_le in H2. done.
Qed.

Lemma digit_not_space a : is_digit_char a = true → is_space_char a = false.
Proof.
  intros H. unfold is_space_char.
  assert (48 ≤ nat_of_ascii a ≤ 57 ∨ nat_of_ascii a = 178 ∨ nat_of_ascii a = 179
          ∨ nat_of_ascii a = 185) as Hr.
  { destruct (digit_char_cases a H) as [Hd%decimal_char_range|[_ Hs]]; tauto. }
  repeat (apply orb_false_iff; split);
    try (apply Nat.eqb_neq; lia).
  apply andb_false_iff. destruct (decide (nat_of_ascii a < 9)); [left|right];
    apply Nat.leb_gt; lia.
Qed.

Lemma digit_not_char a c : is_digit_char c = false → is_digit_char a = true → ascii_eqb a c = false.
Proof.
  intros Hc Ha. apply ascii_eqb_false. intros ->. congruence.
Qed.

Lemma str_lstrip_digits (s : string) :
  str_forallb is_digit_char s = true → str_lstrip s = s.
Proof.
  destruct s as [|a s]; simpl; [done|].
  intros [Ha _]%andb_true_iff. by rewrite (digit_not_space a Ha).
Qed.

(** The scan of a text of decimal digits reads all of it. *)
Lemma scan_decimal (s : string) acc digits :
  str_forallb is_decimal_char s = true →
  scan_literal false acc digits s
  = Some (digits_value acc s, (digits + Z.of_nat (String.length s))%Z, EmptyString).
Proof.
  revert acc digits. induction s as [|a s IH]; intros acc digits Hs; simpl.
  - by rewrite Z.add_0_r.
  - simpl in Hs. apply andb_true_iff in Hs as [Ha Hs]. rewrite Ha.
    rewrite (IH _ _ Hs). do 2 f_equal. f_equal. lia.
Qed.

(** The scan of a text of digits that are not all decimal stops at a
    character that is no white space. *)
Lemma scan_digits (s : string) acc digits :
  str_forallb is_digit_char s = true →
  str_forallb is_decimal_char s = false →
  ∃ value k a rest,
    scan_literal false acc digits s = Some (value, k, String a rest)
    ∧ is_space_char a = false.
Proof.
  revert acc digits. induction s as [|a s IH]; intros acc digits Hs Hd; [done|].
  simpl in Hs, Hd. apply andb_true_iff in Hs as [Ha Hs]. simpl.
  destruct (is_decimal_char a) eqn:Hda.
  - cbn [andb] in Hd. by apply IH.
  - rewrite (digit_not_char a "_" eq_refl Ha).
    eexists _, _, _, _. split; [reflexivity|]. by apply digit_not_space.
Qed.

(** [int()] on a text that starts with a digit: there is no white space and
    no sign to skip. *)
Lemma int_of_str_digit_first a (t : string) :
  is_digit_char a = true →
  int_of_str (String a t)
  = match scan_literal false 0 0 (String a t) with
    | None => IntInvalid
    | Some (value, digits, rest) =>
        if (int_max_str_digits <? digits)%Z then IntTooLong digits
        else if (digits =? 0)%Z then IntInvalid
        else if negb (str_is_empty (str_lstrip rest)) then IntInvalid
        else IntValue value
    end.
Proof.
  intros Ha. unfold int_of_str. cbn [str_lstrip].
  rewrite (digit_not_space a Ha).
  rewrite (digit_not_char a "-" eq_refl Ha), (digit_not_char a "+" eq_refl Ha).
  rewrite (digit_not_char a "_" eq_refl Ha). reflexivity.
Qed.

Lemma int_of_str_decimal (s : string) :
  str_isdecimal s = true →
  int_of_str s
  = if (int_max_str_digits <? Z.of_nat (String.length s))%Z
    then IntTooLong (Z.of_nat (String.length s))
    else IntValue (digits_value 0 s).
Proof.
  unfold str_isdecimal. intros [Hne Hs]%andb_true_iff.
  destruct s as [|a t]; [done|].
  pose proof Hs as Hs'. simpl in Hs'. apply andb_true_iff in Hs' as [Ha _].
  rewrite (int_of_str_digit_first a t (decimal_is_digit a Ha)).
  rewrite (scan_decimal _ 0 0 Hs). rewrite Z.add_0_l.
  destruct (_ <? _)%Z; [done|].
  assert ((Z.of_nat (String.length (String a t)) =? 0)%Z = false) as ->
    by (apply Z.eqb_neq; simpl; lia).
  reflexivity.
Qed.

Lemma int_of_str_superscript (s : string) z :
  str_isdigit s = true → str_isdecimal s = false → int_of_str s ≠ IntValue z.
Proof.
  unfold str_isdigit, str_isdecimal. intros [Hne Hs]%andb_true_iff Hd.
  rewrite Hne in Hd. cbn [andb] in Hd.
  destruct s as [|a t]; [done|].
  pose proof Hs as Hs'. simpl in Hs'. apply andb_true_iff in Hs' as [Ha _].
  rewrite (int_of_str_digit_first a t Ha).
  destruct (scan_digits _ 0 0 Hs Hd) as (value & k & b & rest & -> & Hb).
  cbn [str_lstrip]. rewrite Hb. cbn [str_is_empty negb].
  by destruct (int_max_str_digits <? k)%Z, (k =? 0)%Z.
Qed.

Lemma py_int_str_raises (s : string) :
  (∀ z, int_of_str s ≠ IntValue z) → ∃ msg, py_int (VStr s) = Raise (ValueError msg).
Proof.
  intros H. unfold py_int. destruct (int_of_str s) as [z| |k]; [by destruct (H z)| |];
    by eexists.
Qed.

Lemma uint_chars_digits (d : Decimal.uint) :
  str_forallb is_decimal_char (NilEmpty.string_of_uint d) = true.
Proof. induction d; simpl; done. Qed.

Lemma uint_nonempty (d : Decimal.uint) :
  d ≠ Decimal.Nil → str_is_empty (NilEmpty.string_of_uint d) = false.
Proof. destruct d; done. Qed.

Lemma pos_decimal (p : positive) :
  decimal (Z.pos p) = NilEmpty.string_of_uint (Pos.to_uint p).
Proof.
  unfold decimal. simpl. pose proof (Unsigned.to_uint_nonnil p).
  by destruct (Pos.to_uint p).
Qed.

Lemma str_forallb_impl (p q : ascii → bool) (s : string) :
  (∀ a, p a = true → q a = true) → str_forallb p s = true → str_forallb q s = true.
Proof.
  intros H. induction s as [|a s IH]; simpl; [done|].
  intros [Ha Hs]%andb_true_iff. by rewrite (H a Ha), IH.
Qed.

Lemma decimal_isdigit (z : Z) : str_isdigit (decimal z) = (0 <=? z)%Z.
Proof.
  destruct z as [|p|p].
  - reflexivity.
  - rewrite pos_decimal. unfold str_isdigit.
    rewrite (str_forallb_impl _ _ _ decimal_is_digit (uint_chars_digits _)).
    rewrite uint_nonempty; [done | apply Unsigned.to_uint_nonnil].
  - reflexivity.
Qed.

Lemma decimal_chars (z : Z) c :
  is_decimal_char c = false → c ≠ "-"%char → str_mem c (decimal z) = false.
Proof.
  intros Hc Hm.
  assert (∀ d, str_mem c (NilEmpty.string_of_uint d) = false) as Hu.
  { induction d; simpl; try done;
      rewrite IHd, orb_false_r; apply ascii_eqb_false; by intros ->. }
  assert (∀ d, str_mem c (NilZero.string_of_uint d) = false) as Hz.
  { intros d. destruct d; try apply Hu. simpl. rewrite orb_false_r.
    apply ascii_eqb_false. by intros ->. }
  destruct z as [|p|p]; unfold decimal; simpl.
  - rewrite orb_false_r. apply ascii_eqb_false. by intros ->.
  - apply Hz.
  - rewrite Hz, orb_false_r. by apply ascii_eqb_false.
Qed.

Lemma format_02d_chars (n : Z) c :
  is_decimal_char c = false → c ≠ "-"%char → str_mem c (format_02d n) = false.
Proof.
  intros Hc Hm. unfold format_02d.
  destruct (_ && _); [rewrite str_mem_app|]; rewrite ?decimal_chars by done; [|done].
  simpl. rewrite orb_false_r. apply orb_false_iff. split; [|done].
  apply ascii_eqb_false. by intros ->.
Qed.

(** The program's test on a season or episode value and its conversion,
    against [integer_of]: a value that passes the test is such an integer,
    or the conversion raises [ValueError]. *)
Lemma list_repr_not_digits (l : list pyval) : str_isdigit (py_str (VList l)) = false.
Proof. reflexivity. Qed.

Lemma tag_applies_integer_of (v : pyval) :
  season_tag_applies v = true →
  (∃ n, integer_of v = Some n ∧ py_int v = Ok n)
  ∨ (integer_of v = None ∧ ∃ msg, py_int v = Raise (ValueError msg)).
Proof.
  unfold season_tag_applies. destruct v as [|z|s|l]; simpl; try done.
  - intros H. change (py_repr (VInt z)) with (decimal z) in H.
    rewrite decimal_isdigit in H. rewrite H. left. eauto.
  - intros H. destruct (str_isdecimal s) eqn:Hd; cbn [andb].
    + unfold py_int. rewrite (int_of_str_decimal s Hd).
      rewrite Z.leb_antisym. destruct (_ <? _)%Z; cbn [negb]; [right|left]; eauto.
    + right. split; [done|]. apply py_int_str_raises.
      intros z. by apply int_of_str_superscript.
Qed.

Lemma tag_not_applies_integer_of (v : pyval) :
  season_tag_applies v = false → integer_of v = None.
Proof.
  unfold season_tag_applies. destruct v as [|z|s|l]; simpl; try done.
  - intros H. change (py_repr (VInt z)) with (decimal z) in H.
    rewrite decimal_isdigit in H. by rewrite H.
  - intros H. destruct (str_isdecimal s) eqn:Hd; [|done].
    unfold str_isdecimal in Hd. apply andb_true_iff in Hd as [Hne Hd].
    unfold str_isdigit in H.
    by rewrite Hne, (str_forallb_impl _ _ _ decimal_is_digit Hd) in H.
Qed.

(** What the guarded conversion of a season or episode value comes to. *)
Lemma guarded_int (v : pyval) :
  if digits_rejected v
  then season_tag_applies v = true ∧ ∃ msg, py_int v = Raise (ValueError msg)
  else match integer_of v with
       | Some n => season_tag_applies v = true ∧ py_int v = Ok n
       | None => season_tag_applies v = false
       end.
Proof.
  unfold digits_rejected. destruct (season_tag_applies v) eqn:Hv.
  - destruct (tag_applies_integer_of v Hv) as [(n & -> & Hn)|[-> Hmsg]]; done.
  - by rewrite (tag_not_applies_integer_of v Hv).
Qed.

(** ** Paths *)

Lemma path_of_str_segment (s : string) :
  str_mem Chars.slash s = false →
  path_of_str s = mkPath false (if proper_segment s then [s] else []).
Proof.
  intros Hs. unfold path_of_str. rewrite (str_split_absent _ _ Hs). simpl.
  f_equal. destruct s as [|a s]; [done|]. simpl in *.
  apply orb_false_iff in Hs as [Ha _].
  apply ascii_eqb_false in Ha. apply ascii_eqb_false. congruence.
Qed.

Lemma path_div_segment (p : Path) (s : string) :
  str_mem Chars.slash s = false →
  path_div p s = mkPath (absolute p) (parts p ++ (if proper_segment s then [s] else [])).
Proof.
  intros Hs. unfold path_div. by rewrite (path_of_str_segment s Hs).
Qed.

Lemma path_div_segments (p : Path) (segs : list string) :
  Forall (λ s, str_mem Chars.slash s = false) segs →
  fold_left path_div segs p
  = mkPath (absolute p) (parts p ++ List.filter proper_segment segs).
Proof.
  revert p. induction segs as [|s segs IH]; intros p Hsegs; simpl.
  - rewrite app_nil_r. by destruct p.
  - apply Forall_cons in Hsegs as [Hs Hsegs].
    rewrite (path_div_segment p s Hs), (IH _ Hsegs). simpl.
    rewrite <- app_assoc. by destruct (proper_segment s).
Qed.

Lemma slash_forbidden : Chars.slash ∈ forbidden_chars.
Proof. apply list_elem_of_In. simpl. tauto. Qed.

Lemma sanitize_no_slash (v : pyval) : str_mem Chars.slash (sanitize_filename v) = false.
Proof. apply sanitize_no_forbidden, slash_forbidden. Qed.

Lemma season_folder_no_slash (n : Z) :
  str_mem Chars.slash ("Season " +:+ format_02d n) = false.
Proof.
  rewrite str_mem_app. rewrite format_02d_chars; done.
Qed.

Lemma root_path : path_of_str SHARED_MEDIA_PATH = mkPath true root_parts.
Proof. reflexivity. Qed.

(** ** Sequential dedupe *)

Lemma dedupe_fold (x : pyval) (rest acc : list pyval) (p : pyval) :
  fold_left (dedupe_step x) rest (acc ++ [p]) = acc ++ p :: collapse_from p rest.
Proof.
  revert acc p. induction rest as [|y rest IH]; intros acc p; simpl; [done|].
  unfold dedupe_step at 2. rewrite last_last.
  destruct (py_eqb y p); simpl.
  - apply IH.
  - rewrite (IH (acc ++ [p]) y). by rewrite <- app_assoc.
Qed.

Lemma dedupe_sequential_list (l : list pyval) :
  dedupe_sequential (VList l) = Ok (collapse_adjacent l).
Proof.
  destruct l as [|x rest]; [done|].
  pose proof (dedupe_fold x rest [] x) as H. simpl in H.
  unfold dedupe_sequential. simpl. by rewrite H.
Qed.

Lemma dedupe_sequential_supplied (supplied : pyval) (l : list pyval) :
  subfolder_list supplied = Some l →
  dedupe_sequential supplied = Ok (collapse_adjacent l).
Proof.
  destruct supplied; intros [= <-]; [done|]. apply dedupe_sequential_list.
Qed.

Lemma py_eqb_refl (v : pyval) : py_eqb v v = true.
Proof.
  revert v. fix IH 1. intros [|z|s|l]; simpl.
  - done.
  - apply Z.eqb_refl.
  - apply String.eqb_refl.
  - induction l as [|x l IHl]; [done|]. by rewrite IH, IHl.
Qed.

Lemma py_eqb_eq (a b : pyval) : py_eqb a b = true → a = b.
Proof.
  revert a b. fix IH 1. intros [|x|s|l] [|y|t|m]; simpl; try done.
  - by intros ->%Z.eqb_eq.
  - by intros ->%String.eqb_eq.
  - intros H. f_equal. revert m H.
    induction l as [|a l IHl]; intros [|b m]; try done.
    intros [Hab Hlm]%andb_true_iff. f_equal; [by apply IH | by apply IHl].
Qed.

Lemma collapse_from_no_dup (p : pyval) (l : list pyval) :
  no_adjacent_dup (p :: collapse_from p l).
Proof.
  revert p. induction l as [|y l IH]; intros p; simpl; [constructor|].
  destruct (py_eqb y p) eqn:E; [apply IH|].
  constructor; [|apply IH].
  intros ->. by rewrite py_eqb_refl in E.
Qed.

Lemma collapse_adjacent_no_dup (l : list pyval) : no_adjacent_dup (collapse_adjacent l).
Proof. destruct l; [constructor | apply collapse_from_no_dup]. Qed.

(** A list without adjacent duplicates is left as it is. *)
Lemma collapse_adjacent_fixed (l : list pyval) :
  no_adjacent_dup l → collapse_adjacent l = l.
Proof.
  intros H. destruct l as [|x l]; [done|]. simpl. f_equal.
  revert x H. induction l as [|y l IH]; intros x H; simpl; [done|].
  inversion H as [| |? ? ? Hne Hrest]; subst.
  destruct (py_eqb y x) eqn:E.
  - apply py_eqb_eq in E. congruence.
  - f_equal. by apply IH.
Qed.

Example dedupe_adjacent :
  dedupe_sequential (VList [VStr "A"; VStr "B"; VStr "B"]) = Ok [VStr "A"; VStr "B"].
Proof. reflexivity. Qed.

Example dedupe_non_adjacent :
  dedupe_sequential (VList [VStr "A"; VStr "B"; VStr "A"])
  = Ok [VStr "A"; VStr "B"; VStr "A"].
Proof. reflexivity. Qed.

(** ** The directory rule *)

Lemma fold_path_div_sanitize (l : list pyval) (p : Path) :
  fold_left (λ p subfolder, path_div p (sanitize_filename subfolder)) l p
  = mkPath (absolute p) (parts p ++ List.filter proper_segment (sanitize_filename <$> l)).
Proof.
  rewrite <- (path_div_segments p (sanitize_filename <$> l)).
  - revert p. induction l as [|x l IH]; intros p; simpl; [done | apply IH].
  - apply Forall_fmap, Forall_forall. intros x _. apply sanitize_no_slash.
Qed.

Lemma filter_cons_if {A} (P : A → bool) (x : A) (l : list A) :
  List.filter P (x :: l) = (if P x then [x] else []) ++ List.filter P l.
Proof. simpl. by destruct (P x). Qed.

Lemma title_segment (subfolders : list pyval) (title : pyval) (p : Path) :
  (if match subfolders with [] => true | _ => false end
   then path_div p (sanitize_filename title) else p)
  = mkPath (absolute p)
      (parts p ++ List.filter proper_segment
         (match subfolders with [] => [sanitize_filename title] | _ => [] end)).
Proof.
  destruct subfolders.
  - by rewrite (path_div_segment _ _ (sanitize_no_slash title)).
  - cbn [List.filter]. rewrite app_nil_r. by destruct p.
Qed.

Lemma M_bind_unfold {A B} (f : A → M B) (m : M A) (w : world) :
  (m ≫= f) w = match m w with (Ok a, w') => f a w' | (Raise e, w') => (Raise e, w') end.
Proof. reflexivity. Qed.

Lemma fs_op_unfold (op : filesystem → res filesystem) (w : world) :
  fs_op op w = match op (fs w) with
               | Ok f => (Ok tt, with_fs f w)
               | Raise e => (Raise e, w)
               end.
Proof. unfold fs_op. rewrite !M_bind_unfold. simpl. unfold lift_res. by destruct (op (fs w)). Qed.

Lemma int_exception_rejected (v : pyval) :
  digits_rejected v = true →
  season_tag_applies v = true ∧ py_int v = Raise (int_exception v)
  ∧ ∃ msg, int_exception v = ValueError msg.
Proof.
  intros H. pose proof (guarded_int v) as Hg. rewrite H in Hg.
  destruct Hg as [Hv [msg Hmsg]]. unfold int_exception. rewrite Hmsg. eauto.
Qed.

Lemma int_accepted (v : pyval) :
  digits_rejected v = false →
  match integer_of v with
  | Some n => season_tag_applies v = true ∧ py_int v = Ok n
  | None => season_tag_applies v = false
  end.
Proof. intros H. pose proof (guarded_int v) as Hg. by rewrite H in Hg. Qed.

(** The directory [build_destination_path] computes, and the exception it
    raises when the season of an episode with a title passes the guard and
    is no integer. *)
Lemma destination_follows_rule
    (category supplied : pyval) (subfolders : list pyval) (title season : pyval)
    (dry_run : bool) (w : world) :
  subfolder_list supplied = Some subfolders →
  (category = VNone →
     build_destination_path category supplied title season dry_run w
     = (Raise (ValueError "Category cannot be None."), w))
  ∧ (category ≠ VNone →
     build_destination_path category supplied title season dry_run w
     = if episodic category && py_truthy title && digits_rejected season
       then (Raise (int_exception season), w)
       else
         let d := spec_directory category subfolders title season in
         if dry_run then (Ok d, w)
         else match makedirs (fs w) d with
              | Ok f => (Ok d, with_fs f w)
              | Raise e => (Raise e, w)
              end).
Proof.
  intros Hsupplied. split; [by intros -> |].
  intros Hcat. unfold build_destination_path.
  assert (is_none category = false) as -> by by destruct category.
  rewrite M_bind_unfold. unfold lift_res at 1.
  rewrite (dedupe_sequential_supplied _ _ Hsupplied), fold_path_div_sanitize.
  rewrite (path_div_segment _ _ (sanitize_no_slash category)), root_path.
  cbn [absolute parts]. fold (episodic category).
  assert (negb (py_truthy supplied) = match subfolders with [] => true | _ => false end)
    as ->.
  { destruct supplied; simplify_eq/=; [done|]. by destruct subfolders. }
  rewrite title_segment. cbn [absolute parts].
  destruct (episodic category && py_truthy title && digits_rejected season) eqn:Hrej.
  { apply andb_true_iff in Hrej as [-> Hrej].
    destruct (int_exception_rejected season Hrej) as (-> & Hint & _).
    rewrite !M_bind_unfold. unfold lift_res at 1. by rewrite Hint. }
  assert (∃ d, d = spec_directory category subfolders title season) as [d Hd] by eauto.
  match goal with
  | |- (?m ≫= ?k) w = _ => assert (m w = (Ok d, w)) as Hm
  end.
  { subst d. unfold spec_directory, directory_segments.
    rewrite filter_cons_if, List.filter_app.
    destruct (episodic category && py_truthy title) eqn:Hep.
    2: { unfold mret, M_ret. cbn [List.filter]. by rewrite app_nil_r, <- !app_assoc. }
    cbn [andb] in Hrej. pose proof (int_accepted season Hrej) as Hs.
    rewrite List.filter_app.
    destruct (integer_of season) as [n|].
    - destruct Hs as [-> Hint]. rewrite M_bind_unfold. unfold lift_res, mret, M_ret.
      rewrite Hint.
      rewrite (path_div_segment _ _ (season_folder_no_slash n)). cbn [absolute parts].
      cbn [List.filter]. by rewrite <- !app_assoc.
    - rewrite Hs. unfold mret, M_ret.
      cbn [List.filter]. by rewrite app_nil_r, <- !app_assoc. }
  rewrite M_bind_unfold, Hm. rewrite M_bind_unfold.
  clear Hm. subst d. destruct dry_run; cbn [negb].
  - reflexivity.
  - rewrite fs_op_unfold. by destruct (makedirs (fs w) _).
Qed.

(** C6. The guard on the season, [str(season).isdigit()], lets through a
    text that [int()] does not take. For the show [Test Show] of the
    category TV Shows with no subfolders and the superscript two as its
    season, the rule gives the directory of the show, without a season
    folder, as the season is no integer; [build_destination_path] raises
    [ValueError] instead, in a dry run and otherwise, and leaves everything
    as it is. *)
Theorem superscript_season_raises (dry_run : bool) (w : world) :
  spec_directory (VStr "TV Shows") [] (VStr "Test Show") (VStr Superscript.two)
  = mkPath true ["Volumes"; "HDD_RAID"; "Shared Media"; "TV Shows"; "Test Show"]
  ∧ build_destination_path (VStr "TV Shows") (VList []) (VStr "Test Show")
      (VStr Superscript.two) dry_run w
    = (Raise (ValueError ("invalid literal for int() with base 10: '"
                          +:+ Superscript.two +:+ "'")), w).
Proof. split; reflexivity. Qed.

(** The same for a season of more than 4300 decimal digits. *)
Example long_season_raises (dry_run : bool) (w : world) :
  integer_of (VStr Superscript.long_season) = None
  ∧ build_destination_path (VStr "TV Shows") (VList []) (VStr "Test Show")
      (VStr Superscript.long_season) dry_run w
    = (Raise (ValueError
                ("Exceeds the limit (4300 digits) for integer string conversion: "
                 +:+ "value has 4301 digits; "
                 +:+ "use sys.set_int_max_str_digits() to increase the limit")), w).
Proof.
  assert (digits_rejected (VStr Superscript.long_season) = true) as Hrej
    by (vm_compute; reflexivity).
  assert (int_exception (VStr Superscript.long_season)
          = ValueError
              ("Exceeds the limit (4300 digits) for integer string conversion: "
               +:+ "value has 4301 digits; "
               +:+ "use sys.set_int_max_str_digits() to increase the limit")) as Hexn
    by (vm_compute; reflexivity).
  split; [by vm_compute|].
  rewrite (proj2 (destination_follows_rule (VStr "TV Shows") (VList []) []
                    (VStr "Test Show") _ dry_run w eq_refl)) by discriminate.
  rewrite Hrej, Hexn. reflexivity.
Qed.

(** X29. For a category that is not [None] and a subfolder list (an array,
    or [null] for none) the synthesized directory is the root, then the
    sanitized category, then the sanitized subfolders of the sequentially
    deduplicated list in order (adjacent duplicates collapsed, others kept),
    then, for an episodic category with a title, the sanitized
    title when no subfolder was supplied, then [Season NN] with the season
    padded to two digits when the season is an integer. A dry run
    returns it and changes nothing; otherwise the directory chain is created
    and the same path returned, unless the creation itself fails. The one
    exception: when the season of an episodic category with a title passes
    the guard of digits and is no integer (it holds a superscript digit, or
    more than 4300 digits), [int()] raises [ValueError] and nothing is
    created. A [None] category raises [ValueError] and no path is
    produced. *)
Theorem build_destination_path_spec
    (category supplied : pyval) (subfolders : list pyval) (title season : pyval)
    (dry_run : bool) (w : world) :
  subfolder_list supplied = Some subfolders →
  (category = VNone →
     build_destination_path category supplied title season dry_run w
     = (Raise (ValueError "Category cannot be None."), w))
  ∧ (category ≠ VNone →
     build_destination_path category supplied title season dry_run w
     = if episodic category && py_truthy title && digits_rejected season
       then (Raise (int_exception season), w)
       else
         let d := spec_directory category subfolders title season in
         if dry_run then (Ok d, w)
         else match makedirs (fs w) d with
              | Ok f => (Ok d, with_fs f w)
              | Raise e => (Raise e, w)
              end)
  ∧ (digits_rejected season = true → ∃ msg, int_exception season = ValueError msg).
Proof.
  intros Hsupplied.
  destruct (destination_follows_rule category supplied subfolders title season dry_run w
              Hsupplied) as [Hnone Hsome].
  split; [done|]. split; [done|].
  intros Hrej. by destruct (int_exception_rejected season Hrej) as (_ & _ & ?).
Qed.

Lemma build_destination_path_spec_witness :
  (build_destination_path (VStr "TV Shows")
     (VList [VStr "FooBar"; VStr "BazBoo"; VStr "BazBoo"]) (VStr "Test Show") (VStr "1")
     true empty_world).1
  = Ok (mkPath true
          ["Volumes"; "HDD_RAID"; "Shared Media"; "TV Shows"; "FooBar"; "BazBoo"; "Season 01"])
  ∧ (build_destination_path VNone (VList []) (VStr "Test Show") (VStr "1") true empty_world).1
    = Raise (ValueError "Category cannot be None.").
Proof.
  split.
  - rewrite (proj1 (proj2 (build_destination_path_spec (VStr "TV Shows")
               (VList [VStr "FooBar"; VStr "BazBoo"; VStr "BazBoo"])
               [VStr "FooBar"; VStr "BazBoo"; VStr "BazBoo"] (VStr "Test Show") (VStr "1")
               true empty_world eq_refl))); [reflexivity | discriminate].
  - rewrite (proj1 (build_destination_path_spec VNone (VList []) [] (VStr "Test Show")
               (VStr "1") true empty_world eq_refl)); reflexivity.
Defined.

(** ** The filename rule *)

Lemma tag_string (letter : string) (v : pyval) :
  (if season_tag_applies v then n ← py_int v; Ok (letter +:+ format_02d n) else Ok EmptyString)
  = if digits_rejected v then Raise (int_exception v) else Ok (tag letter v).
Proof.
  unfold tag. destruct (digits_rejected v) eqn:Hv.
  - destruct (int_exception_rejected v Hv) as (-> & -> & _). reflexivity.
  - pose proof (int_accepted v Hv) as H.
    destruct (integer_of v) as [n|]; [destruct H as [-> ->]|rewrite H]; reflexivity.
Qed.

Lemma episodic_not_movie_like (category : pyval) :
  episodic category = true → movie_like category = false.
Proof.
  unfold episodic, movie_like, py_in_strs. destruct category as [|z|s|l]; try done.
  cbn [existsb py_eqb]. rewrite !orb_false_r.
  intros H. repeat (apply orb_true_iff in H as [H|H]);
    apply String.eqb_eq in H; by subst s.
Qed.

(** The name [generate_new_filename] computes, and the exception it raises
    when the season or the episode of an episodic category passes the guard
    and is no integer. *)
Lemma filename_follows_rule
    (file_path : string) (category title year season episode : pyval) :
  generate_new_filename file_path category title year season episode
  = (if episodic category && digits_rejected season then Raise (int_exception season)
     else if episodic category && digits_rejected episode then Raise (int_exception episode)
     else Ok (spec_filename file_path category title year season episode))
  ∧ (movie_like category || episodic category = true →
     ∃ stem, spec_filename file_path category title year season episode
             = stem +:+ path_suffix (path_of_str file_path))
  ∧ (movie_like category || episodic category = false →
     spec_filename file_path category title year season episode
     = path_name (path_of_str file_path)).
Proof.
  split; [|split].
  - unfold generate_new_filename, spec_filename.
    fold (movie_like category). fold (episodic category).
    destruct (episodic category) eqn:He; cbn [andb].
    2: { by destruct (movie_like category). }
    rewrite (episodic_not_movie_like category He).
    rewrite !tag_string. unfold tag.
    destruct (digits_rejected season); [done|].
    destruct (digits_rejected episode); [done|].
    destruct (integer_of season), (integer_of episode); reflexivity.
  - unfold spec_filename.
    destruct (movie_like category); simpl.
    + intros _. destruct (py_truthy year); eexists; rewrite <- ?str_app_assoc; reflexivity.
    + intros ->. destruct (integer_of season), (integer_of episode);
        eexists; rewrite <- ?str_app_assoc; reflexivity.
  - unfold spec_filename. intros [-> ->]%orb_false_iff. reflexivity.
Qed.

Lemma tags_accepted (category season episode : pyval) :
  tags_rejected category season episode = false →
  episodic category && digits_rejected season = false
  ∧ episodic category && digits_rejected episode = false.
Proof.
  unfold tags_rejected. destruct (episodic category); [|done]. cbn [andb].
  by intros [-> ->]%orb_false_iff.
Qed.

(** C7. The guards on the season and the episode let through a text that
    [int()] does not take. For an episode of the category Anime with the
    season 1 and the superscript three as its episode, the rule gives the
    sanitized title with the suffix, as the episode is no integer;
    [generate_new_filename] raises [ValueError] instead. *)
Theorem superscript_episode_raises :
  spec_filename "/path/to/Show.S01E03.mkv" (VStr "Anime") (VStr "T") VNone (VStr "1")
    (VStr Superscript.three) = "T.mkv"
  ∧ generate_new_filename "/path/to/Show.S01E03.mkv" (VStr "Anime") (VStr "T") VNone
      (VStr "1") (VStr Superscript.three)
    = Raise (ValueError ("invalid literal for int() with base 10: '"
                         +:+ Superscript.three +:+ "'")).
Proof. split; reflexivity. Qed.

(** X30. [generate_new_filename] follows the rule by category: for Movies
    and Kids Movies the year, a dash and the sanitized title when the year
    is known, the sanitized title alone otherwise; for the episodic
    categories the season tag and the episode tag, each built on its own
    from a value that is an integer, then a dash and the sanitized title
    when both are there, the episode tag alone with the title when only the
    episode is, and the title alone when the episode is not; for any other
    category the base name of the file. In the renaming branches the name
    ends with the suffix of the original file. The one exception: when the
    season or the episode of an episodic category passes the guard of
    digits and is no integer, [int()] raises [ValueError], for the season
    first. *)
Theorem generate_new_filename_spec
    (file_path : string) (category title year season episode : pyval) :
  generate_new_filename file_path category title year season episode
  = (if episodic category && digits_rejected season then Raise (int_exception season)
     else if episodic category && digits_rejected episode then Raise (int_exception episode)
     else Ok (spec_filename file_path category title year season episode))
  ∧ (movie_like category || episodic category = true →
     ∃ stem, spec_filename file_path category title year season episode
             = stem +:+ path_suffix (path_of_str file_path))
  ∧ (movie_like category || episodic category = false →
     spec_filename file_path category title year season episode
     = path_name (path_of_str file_path))
  ∧ (∀ v, digits_rejected v = true → ∃ msg, int_exception v = ValueError msg).
Proof.
  destruct (filename_follows_rule file_path category title year season episode)
    as (Hname & Hstem & Hother).
  repeat split; try done.
  intros v Hrej. by destruct (int_exception_rejected v Hrej) as (_ & _ & ?).
Qed.

Lemma generate_new_filename_spec_witness :
  spec_filename "/path/to/Test.Show.S01E01.mkv" (VStr "TV Shows") (VStr "Test Show")
    (VStr EmptyString) (VStr "1") (VStr "1") = "S01E01 - Test Show.mkv"
  ∧ spec_filename "/path/to/clip.mkv" (VStr "Home Video") (VStr "Clip")
      (VStr EmptyString) (VStr "1") (VStr "1") = "clip.mkv".
Proof.
  split.
  - destruct (proj1 (proj2 (generate_new_filename_spec "/path/to/Test.Show.S01E01.mkv"
        (VStr "TV Shows") (VStr "Test Show") (VStr EmptyString) (VStr "1") (VStr "1")))
        eq_refl) as [stem _].
    reflexivity.
  - rewrite (proj1 (proj2 (proj2 (generate_new_filename_spec "/path/to/clip.mkv"
        (VStr "Home Video") (VStr "Clip") (VStr EmptyString) (VStr "1") (VStr "1"))))
        eq_refl).
    reflexivity.
Defined.

Example filename_movie :
  generate_new_filename "/path/to/Test.Movie.2020.mkv" (VStr "Movies") (VStr "Test Movie")
    (VStr "2020") (VStr EmptyString) (VStr EmptyString) = Ok "2020 - Test Movie.mkv".
Proof. reflexivity. Qed.

Example filename_season_only :
  generate_new_filename "/path/to/x.mkv" (VStr "Anime") (VStr "T")
    (VNone) (VStr "2") (VNone) = Ok "T.mkv".
Proof. reflexivity. Qed.

(** ** The move executor *)

(** C1. The move executor sends every file whose stem matches to the
    destination directory under the file's own name, the primary included:
    for the movie [Test.Movie.2020.mkv], classified as Movies, Test Movie,
    2020, a run that is not dry returns the path
    [.../Movies/2020 - Test Movie.mkv], at which no file exists afterwards; the
    movie lies at [.../Movies/Test.Movie.2020.mkv]. *)
Theorem rename_and_move_keeps_original_name :
  let r := rename_and_move_file Scenario.movie_file Scenario.movie_metadata false
             (mkWorld Scenario.movie_fs [] []) in
  r.1 = Ok (Scenario.movie_file, "/Volumes/HDD_RAID/Shared Media/Movies/2020 - Test Movie.mkv")
  ∧ fs r.2 !! path_of_str "/Volumes/HDD_RAID/Shared Media/Movies/2020 - Test Movie.mkv" = None
  ∧ fs r.2 !! path_of_str "/Volumes/HDD_RAID/Shared Media/Movies/Test.Movie.2020.mkv"
    = Some (File "video")
  ∧ fs r.2 !! path_of_str Scenario.movie_file = None
  ∧ log r.2 = [(INFO, "Moved " +:+ Scenario.movie_file
                       +:+ " to /Volumes/HDD_RAID/Shared Media/Movies/2020 - Test Movie.mkv")].
Proof. vm_compute. done. Qed.

(** C3. One [try] encloses the whole loop over the siblings: the first
    move that fails ends the loop. In the clip scenario the directory
    listing yields the subtitle file before the video; its move fails, one
    error is logged, and the move of the video is never attempted: the video
    stays where it was, while the function returns normally. *)
Theorem failed_sidecar_blocks_primary :
  iterdir Scenario.clip_fs (path_of_str "/Volumes/HDD_RAID/Orphaned")
  = Ok [path_of_str "/Volumes/HDD_RAID/Orphaned/Clip.srt";
        path_of_str "/Volumes/HDD_RAID/Orphaned/Clip.mp4"]
  ∧ (∃ f, shutil_move Scenario.clip_fs (path_of_str "/Volumes/HDD_RAID/Orphaned/Clip.mp4")
            (path_of_str "/Volumes/HDD_RAID/Shared Media/Movies/Clip.mp4") = Ok f
          ∧ f !! path_of_str "/Volumes/HDD_RAID/Shared Media/Movies/Clip.mp4"
            = Some (File "video"))
  ∧ let r := move_file_and_sidecars Scenario.clip_file
               (path_of_str "/Volumes/HDD_RAID/Shared Media/Movies/Clip.mp4")
               (mkWorld Scenario.clip_fs [] []) in
    r.1 = Ok tt
    ∧ map_to_list (fs r.2) = map_to_list Scenario.clip_fs
    ∧ fs r.2 !! path_of_str "/Volumes/HDD_RAID/Orphaned/Clip.mp4" = Some (File "video")
    ∧ fs r.2 !! path_of_str "/Volumes/HDD_RAID/Shared Media/Movies/Clip.mp4" = None
    ∧ log r.2 = [(ERROR, "Error moving file /Volumes/HDD_RAID/Orphaned/Clip.mp4 to "
                          +:+ "/Volumes/HDD_RAID/Shared Media/Movies/Clip.mp4: "
                          +:+ "Destination path already exists")].
Proof.
  split; [by vm_compute|]. split.
  - eexists. split; [reflexivity|]. by vm_compute.
  - vm_compute. done.
Qed.

(** ** Errors in the batch *)

(** C5. Exceptions other than [ValueError] are not caught in the loop of
    [process_files], and the look-ups of the category and the title, like
    the enrichment, happen outside its [try]. Of two files, the first
    classified without a category, without a title, or enriched by a result
    whose release date is null: the run ends with [KeyError], [KeyError] and
    [TypeError], and the second file is never classified. *)
Theorem per_file_errors_abort_batch :
  (raised (Batch.run Batch.no_category []).1 = Some (KeyError "category")
   ∧ queries (Batch.run Batch.no_category []).2 = [QClassify "First.mkv"])
  ∧ (raised (Batch.run Batch.no_title []).1 = Some (KeyError "title")
     ∧ queries (Batch.run Batch.no_title []).2 = [QClassify "First.mkv"])
  ∧ (raised (Batch.run Batch.complete [Batch.undated]).1
       = Some (TypeError "'NoneType' object is not subscriptable")
     ∧ queries (Batch.run Batch.complete [Batch.undated]).2
       = [QClassify "First.mkv"; QEnrich "movie" (VStr "First") None]).
Proof. vm_compute. done. Qed.

Example complete_batch_runs :
  queries (Batch.run Batch.complete []).2
  = [QClassify "First.mkv"; QEnrich "movie" (VStr "First") None;
     QClassify "Second.mkv"; QEnrich "movie" (VStr "Second") None].
Proof. by vm_compute. Qed.

(** ** Computations *)

Lemma try_except_unfold {A} (m : M A) (h : exn → M A) (w : world) :
  try_except m h w
  = match m w with (Ok a, w') => (Ok a, w') | (Raise e, w') => h e w' end.
Proof. reflexivity. Qed.

Lemma for_each_raise {A} (body : A → M unit) (pre : list A) (x : A) (post : list A)
    (w w1 w2 : world) (e : exn) :
  for_each pre body w = (Ok tt, w1) →
  body x w1 = (Raise e, w2) →
  for_each (pre ++ x :: post) body w = (Raise e, w2).
Proof.
  revert w. induction pre as [|y pre IH]; intros w Hpre Hx; simpl in *.
  - injection Hpre as <-. by rewrite M_bind_unfold, Hx.
  - rewrite M_bind_unfold in *. destruct (body y w) as [[[]|e'] w'] eqn:Hy; [|done].
    by apply IH.
Qed.

Lemma kept_ret {A} (a : A) : queries_kept (mret a).
Proof. by intros w. Qed.

Lemma kept_raise {A} (e : exn) : queries_kept (@raise A e).
Proof. by intros w. Qed.

Lemma kept_lift_res {A} (r : res A) : queries_kept (lift_res r).
Proof. by intros w. Qed.

Lemma kept_logging l msg : queries_kept (logging l msg).
Proof. by intros w. Qed.

Lemma kept_get_fs : queries_kept get_fs.
Proof. by intros w. Qed.

Lemma kept_put_fs f : queries_kept (put_fs f).
Proof. by intros w. Qed.

Lemma kept_bind {A B} (m : M A) (f : A → M B) :
  queries_kept m → (∀ a, queries_kept (f a)) → queries_kept (m ≫= f).
Proof.
  intros Hm Hf w. rewrite M_bind_unfold. specialize (Hm w).
  destruct (m w) as [[a|e] w']; simpl in *; [|done].
  by rewrite Hf.
Qed.

Lemma kept_try_except {A} (m : M A) (h : exn → M A) :
  queries_kept m → (∀ e, queries_kept (h e)) → queries_kept (try_except m h).
Proof.
  intros Hm Hh w. rewrite try_except_unfold. specialize (Hm w).
  destruct (m w) as [[a|e] w']; simpl in *; [done|].
  by rewrite Hh.
Qed.

Lemma kept_fs_op op : queries_kept (fs_op op).
Proof.
  unfold fs_op. apply kept_bind; [apply kept_get_fs|]. intros f.
  apply kept_bind; [apply kept_lift_res|]. intros f'. apply kept_put_fs.
Qed.

Lemma kept_for_each {A} (l : list A) (body : A → M unit) :
  (∀ a, queries_kept (body a)) → queries_kept (for_each l body).
Proof.
  intros Hb. induction l as [|x l IH]; simpl; [apply kept_ret|].
  apply kept_bind; [apply Hb | by intros _].
Qed.

Create HintDb kept discriminated.

Ltac kept :=
  repeat match goal with
    | |- queries_kept (mret _) => apply kept_ret
    | |- queries_kept (raise _) => apply kept_raise
    | |- queries_kept (lift_res _) => apply kept_lift_res
    | |- queries_kept (logging _ _) => apply kept_logging
    | |- queries_kept get_fs => apply kept_get_fs
    | |- queries_kept (put_fs _) => apply kept_put_fs
    | |- queries_kept (fs_op _) => apply kept_fs_op
    | |- queries_kept (for_each _ _) => apply kept_for_each; intros ?
    | |- queries_kept (try_except _ _) => apply kept_try_except; [|intros ?]
    | |- queries_kept (mbind _ _) => apply kept_bind; [|intros ?]
    | |- queries_kept (if ?b then _ else _) => destruct b
    | |- queries_kept (match ?x with _ => _ end) => destruct x
    | |- queries_kept _ => solve [auto with kept nocore]
    end.

Lemma kept_build_destination_path category subfolders title season dry_run :
  queries_kept (build_destination_path category subfolders title season dry_run).
Proof. unfold build_destination_path. kept. Qed.
#[global] Hint Resolve kept_build_destination_path : kept.

Lemma kept_move_sibling src_stem dest_file item :
  queries_kept (move_sibling src_stem dest_file item).
Proof. unfold move_sibling. kept. Qed.
#[global] Hint Resolve kept_move_sibling : kept.

Lemma kept_move_file_and_sidecars src_file dest_file :
  queries_kept (move_file_and_sidecars src_file dest_file).
Proof. unfold move_file_and_sidecars. kept. Qed.
#[global] Hint Resolve kept_move_file_and_sidecars : kept.

Lemma kept_rename_and_move_file file_path metadata dry_run :
  queries_kept (rename_and_move_file file_path metadata dry_run).
Proof. unfold rename_and_move_file. kept. Qed.
#[global] Hint Resolve kept_rename_and_move_file : kept.

Lemma kept_write_cache_entry cache_entry : queries_kept (write_cache_entry cache_entry).
Proof. unfold write_cache_entry. kept. Qed.
#[global] Hint Resolve kept_write_cache_entry : kept.

Lemma kept_try_except_ValueError {A} (m : M A) (h : exn → M A) :
  queries_kept m → (∀ e, queries_kept (h e)) → queries_kept (try_except_ValueError m h).
Proof.
  intros Hm Hh. unfold try_except_ValueError. apply kept_try_except; [done|].
  intros e. destruct (is_ValueError e); [apply Hh | apply kept_raise].
Qed.

(** The queries of one pass of the loop are those made to obtain the
    metadata. *)
Lemma process_file_queries A dry_run cache file_path w :
  queries (process_file A dry_run cache file_path w).2
  = queries (obtain_metadata A cache file_path
               (mkWorld (fs w) (log w ++ [(INFO, "Processing " +:+ file_path)]) (queries w))).2.
Proof.
  unfold process_file. rewrite M_bind_unfold. unfold logging at 1.
  rewrite M_bind_unfold.
  destruct (obtain_metadata _ _ _ _) as [[[metadata|]|e] w2]; try done.
  cbn [snd].
  assert (queries_kept
    (try_except_ValueError
       (moved ← rename_and_move_file file_path metadata dry_run;
        let cache_entry := make_cache_entry moved.1 moved.2 metadata in
        let cache0 := <[KStr moved.1 := cache_entry]> cache in
        try_except_ValueError
          (write_cache_entry cache_entry;; mret cache0)
          (λ e, logging WARNING ("Error moving file at original path " +:+ file_path
                                  +:+ ": " +:+ exn_str e);;
                mret cache0))
       (λ e, logging WARNING ("Error moving file at original path " +:+ file_path
                               +:+ ": " +:+ exn_str e);;
             mret cache))) as Hk.
  { apply kept_try_except_ValueError; [|intros e; kept].
    apply kept_bind; [apply kept_rename_and_move_file|]. intros moved.
    apply kept_try_except_ValueError; [|intros e; kept].
    kept. }
  apply Hk.
Qed.

(** ** Which files are enriched *)

Lemma fetch_metadata_tmdb_queries A title year is_tv w :
  queries (fetch_metadata_tmdb A title year is_tv w).2
  = queries w ++ [QEnrich (if is_tv then "tv" else "movie") title
                    (if negb (is_none year) && str_isdigit (py_str year)
                     then Some year else None)].
Proof.
  unfold fetch_metadata_tmdb. rewrite M_bind_unfold. unfold record_query at 1.
  destruct (tmdb_get A _ _ _) as [[|r results]|e]; reflexivity.
Qed.

Lemma obtain_metadata_queries A cache file_path metadata category w :
  cache !! KStr file_path = None →
  chat_completion A (path_name (path_of_str file_path)) = ReplyObject metadata →
  metadata !! KStr "category" = Some category →
  queries (obtain_metadata A cache file_path w).2
  = queries w ++ QClassify (path_name (path_of_str file_path)) ::
      (if py_in_strs category ["TV Shows"; "Kids TV"] then []
       else match metadata !! KStr "title" with
            | Some title => [QEnrich "movie" title (year_param metadata)]
            | None => []
            end).
Proof.
  intros Hmiss Hreply Hcat. unfold obtain_metadata. rewrite Hmiss.
  rewrite M_bind_unfold. unfold categorize_file.
  rewrite M_bind_unfold. unfold record_query at 1. rewrite Hreply.
  unfold mret at 1, M_ret at 1.
  rewrite M_bind_unfold. unfold lift_res at 1, dict_getitem at 1. rewrite Hcat.
  destruct (py_in_strs category ["TV Shows"; "Kids TV"]); cbn [negb]; [done|].
  rewrite M_bind_unfold. unfold lift_res at 1, dict_getitem at 1.
  destruct (metadata !! KStr "title") as [title|]; [|done].
  rewrite M_bind_unfold.
  pose proof (fetch_metadata_tmdb_queries A title (dict_get metadata "year" VNone) false
                (mkWorld (fs w) (log w)
                   (queries w ++ [QClassify (path_name (path_of_str file_path))]))) as Hq.
  destruct (fetch_metadata_tmdb _ _ _ _ _) as [[found|e] w2]; cbn [snd] in *.
  - assert (queries w2 = queries w ++ QClassify (path_name (path_of_str file_path))
                          :: [QEnrich "movie" title (year_param metadata)]) as <-.
    { rewrite Hq. cbn [queries]. by rewrite <- app_assoc. }
    assert (queries_kept
      (match found with
       | Some d =>
           if bool_decide (d = ∅) then
             logging WARNING ("No TMDb data for " +:+ py_str title);;
             mret (Some metadata)
           else
             metadata0 ← lift_res (update_metadata_with_tmdb metadata d false);
             mret (Some metadata0)
       | None =>
           logging WARNING ("No TMDb data for " +:+ py_str title);;
           mret (Some metadata)
       end)) as Hk by kept.
    apply Hk.
  - rewrite Hq. cbn [queries]. by rewrite <- app_assoc.
Qed.

(** C4, as the program has it. For a file that is not in the cache and
    whose classification is an object with a category, the Enrichment
    Adapter is not queried exactly when the category is TV Shows or Kids TV.
    For every other category, Anime included, it is queried once, as a movie
    search for the classified title (when the classification has a title). *)
Theorem enrichment_skipped_for_tv_only
    (A : adapters) (dry_run : bool) (cache : cache_table) (file_path : string)
    (metadata : dict) (category : pyval) (w : world) :
  cache !! KStr file_path = None →
  chat_completion A (path_name (path_of_str file_path)) = ReplyObject metadata →
  metadata !! KStr "category" = Some category →
  queries (process_file A dry_run cache file_path w).2
  = queries w ++ QClassify (path_name (path_of_str file_path)) ::
      (if py_in_strs category ["TV Shows"; "Kids TV"] then []
       else match metadata !! KStr "title" with
            | Some title => [QEnrich "movie" title (year_param metadata)]
            | None => []
            end).
Proof.
  intros Hmiss Hreply Hcat. rewrite process_file_queries.
  by rewrite (obtain_metadata_queries A cache file_path metadata category _ Hmiss Hreply Hcat).
Qed.

Lemma enrichment_skipped_for_tv_only_witness :
  queries (process_file Batch.anime_services true ∅ Batch.anime_file empty_world).2
  = [QClassify "Show.S01E05.mkv"; QEnrich "movie" (VStr "Show") None].
Proof.
  rewrite (enrichment_skipped_for_tv_only Batch.anime_services true ∅ Batch.anime_file
             Batch.anime_reply (VStr "Anime") empty_world);
    [reflexivity | reflexivity | reflexivity | reflexivity].
Defined.

(** C4 as stated fails: Anime is an episodic category, and the episode of
    the scenario is enriched. *)
Lemma anime_is_enriched :
  episodic (VStr "Anime") = true
  ∧ match Batch.anime_services.(chat_completion) "Show.S01E05.mkv" with
    | ReplyObject d => d !! KStr "category" = Some (VStr "Anime")
    | _ => False
    end
  ∧ queries (process_file Batch.anime_services true ∅ Batch.anime_file empty_world).2
    = [QClassify "Show.S01E05.mkv"; QEnrich "movie" (VStr "Show") None].
Proof. vm_compute. done. Qed.

(** ** Loading the cache *)

Lemma cache_path_parts : cache_path = mkPath false ["media_cache.csv"].
Proof. reflexivity. Qed.

Lemma cache_file_exists (f : filesystem) (n : node) :
  f !! cache_path = Some n → fs_exists f cache_path = true.
Proof. intros H. unfold fs_exists. rewrite H. by rewrite cache_path_parts. Qed.

Lemma read_cache_rows_mismatch (text : string) :
  (∀ rows, (csv_reader text).1 ≠ expected_headers :: rows) →
  ∃ e, read_cache_rows text = (∅, Some e).
Proof.
  intros Hne. unfold read_cache_rows.
  destruct (csv_reader text) as [[|fieldnames rows] [e|]]; eauto.
  - rewrite bool_decide_eq_false_2; [eauto|]. intros ->. by apply (Hne rows).
  - rewrite bool_decide_eq_false_2; [eauto|]. intros ->. by apply (Hne rows).
Qed.

(** C2, as the program has it. A cache file whose first record is not the
    expected header row raises [ValueError] inside the [try] of
    [read_cache], whose handler logs it as an error: the loader returns an
    empty table and raises nothing, and the rescue run goes on to process
    every file against the empty table. *)
Theorem header_mismatch_logged_not_fatal (w : world) (text : string) :
  fs w !! cache_path = Some (File text) →
  (∀ rows, (csv_reader text).1 ≠ expected_headers :: rows) →
  ∃ msg,
    let w' := mkWorld (fs w) (log w ++ [(ERROR, msg)]) (queries w) in
    read_cache w = (Ok ∅, w')
    ∧ ∀ A file media_files dry_run,
        rescue A (file :: media_files) false dry_run w
        = (process_files A (file :: media_files) ∅ dry_run;; mret tt) w'.
Proof.
  intros Hfile Hne.
  destruct (read_cache_rows_mismatch text Hne) as [e He].
  exists ("Error reading cache file " +:+ CACHE_FILE +:+ ": " +:+ exn_str e).
  assert (read_cache w
          = (Ok ∅, mkWorld (fs w)
               (log w ++ [(ERROR, "Error reading cache file " +:+ CACHE_FILE +:+ ": "
                                   +:+ exn_str e)]) (queries w))) as Hread.
  { unfold read_cache. rewrite M_bind_unfold. unfold get_fs at 1.
    rewrite (cache_file_exists _ _ Hfile). unfold file_read. rewrite Hfile, He.
    reflexivity. }
  split; [done|].
  intros A file media_files dry_run. unfold rescue. cbn [negb].
  by rewrite (M_bind_unfold _ read_cache), Hread.
Qed.

Lemma header_mismatch_logged_not_fatal_witness :
  ∃ msg, (read_cache (mkWorld Batch.foreign_cache [] [])).2
         = mkWorld Batch.foreign_cache [(ERROR, msg)] [].
Proof.
  destruct (header_mismatch_logged_not_fatal (mkWorld Batch.foreign_cache [] [])
              Batch.foreign_text) as [msg [Hread _]].
  - reflexivity.
  - intros rows. vm_compute. discriminate.
  - exists msg. by rewrite Hread.
Defined.

(** C2 as stated fails: with the foreign cache file in place the loader
    returns normally with an empty table, and the run classifies and caches
    both files. *)
Lemma foreign_cache_is_not_fatal :
  let w := mkWorld Batch.foreign_cache [] [] in
  (csv_reader Batch.foreign_text).1
    = [["path"; "title"]; ["/Volumes/HDD_RAID/Orphaned/First.mkv"; "First"]]
  ∧ raised (read_cache w).1 = None
  ∧ match (read_cache w).1 with Ok cache => map_to_list cache = [] | Raise _ => False end
  ∧ log (read_cache w).2
    = [(ERROR, "Error reading cache file media_cache.csv: "
               +:+ "Unexpected headers in media_cache.csv. "
               +:+ "Expected: ['original_path', 'new_path', 'category', 'title', "
               +:+ "'show_name', 'year', 'season', 'episode'], Got: ['path', 'title']")]
  ∧ let r := rescue (Batch.services Batch.complete []) [Batch.first_file; Batch.second_file]
               false true w in
    raised r.1 = None
    ∧ queries r.2 = [QClassify "First.mkv"; QEnrich "movie" (VStr "First") None;
                     QClassify "Second.mkv"; QEnrich "movie" (VStr "Second") None].
Proof. vm_compute. done. Qed.

(** ** Cached records *)

Lemma fold_insert_str_other (kvs : list (string * string)) (d : dict) (k : pykey) :
  k ∉ (KStr <$> kvs.*1) →
  fold_left (λ (d : dict) kv, <[KStr kv.1 := VStr kv.2]> d) kvs d !! k = d !! k.
Proof.
  revert d. induction kvs as [|[k' v] kvs IH]; intros d Hk; simpl; [done|].
  rewrite fmap_cons in Hk. apply not_elem_of_cons in Hk as [Hne Hk].
  rewrite (IH _ Hk). by apply lookup_insert_ne.
Qed.

Lemma fold_insert_none_other (keys : list string) (d : dict) (k : pykey) :
  k ∉ (KStr <$> keys) →
  fold_left (λ (d : dict) key, <[KStr key := VNone]> d) keys d !! k = d !! k.
Proof.
  revert d. induction keys as [|k' keys IH]; intros d Hk; simpl; [done|].
  apply not_elem_of_cons in Hk as [Hne Hk].
  rewrite (IH _ Hk). by apply lookup_insert_ne.
Qed.

Lemma subfolders_not_header : KStr "subfolders" ∉ (KStr <$> expected_headers).
Proof. intros H%list_elem_of_In. simpl in H. intuition discriminate. Qed.

Lemma DictReader_row_no_subfolders (row : list string) :
  DictReader_row expected_headers row !! KStr "subfolders" = None.
Proof.
  assert (∀ keys : list string, (∀ x, x ∈ keys → x ∈ expected_headers) →
          KStr "subfolders" ∉ (KStr <$> keys)) as Hsub.
  { intros keys Hk Hin. apply list_elem_of_fmap in Hin as (x & Hx & Hin).
    apply subfolders_not_header. apply list_elem_of_fmap. exists x. split; [done|].
    by apply Hk. }
  assert (fold_left (λ (d : dict) kv, <[KStr kv.1 := VStr kv.2]> d)
            (zip expected_headers row) ∅ !! KStr "subfolders" = None) as Hd.
  { rewrite fold_insert_str_other; [done|]. apply Hsub.
    intros x Hx. apply list_elem_of_fmap in Hx as ([k v] & -> & Hkv).
    apply list_elem_of_In in Hkv. apply in_combine_l in Hkv. by apply list_elem_of_In. }
  unfold DictReader_row.
  destruct (length expected_headers <? length row).
  - by rewrite lookup_insert_ne.
  - destruct (length row <? length expected_headers); [|done].
    rewrite fold_insert_none_other; [done|]. apply Hsub.
    intros x Hx. by apply (subseteq_drop (length row) expected_headers x).
Qed.

Lemma no_subfolders_empty : no_subfolders ∅.
Proof. intros k metadata H. by rewrite lookup_empty in H. Qed.

Lemma no_subfolders_insert (cache : cache_table) (k : pykey) (metadata : dict) :
  no_subfolders cache → metadata !! KStr "subfolders" = None →
  no_subfolders (<[k := metadata]> cache).
Proof.
  intros Hc Hm k' metadata' H. destruct (decide (k = k')) as [->|Hne].
  - rewrite lookup_insert_eq in H. by injection H as <-.
  - rewrite lookup_insert_ne in H by done. by apply (Hc k').
Qed.

Lemma load_rows_no_subfolders (rows : list (list string)) (cache : cache_table) :
  no_subfolders cache → no_subfolders (load_rows cache rows).1.
Proof.
  revert cache. induction rows as [|row rows IH]; intros cache Hc; simpl; [done|].
  destruct row as [|x row]; [by apply IH|].
  destruct (_ ≫= _) as [k|e]; [|done].
  apply IH. apply no_subfolders_insert; [done|]. apply DictReader_row_no_subfolders.
Qed.

Lemma read_cache_rows_no_subfolders (text : string) :
  no_subfolders (read_cache_rows text).1.
Proof.
  unfold read_cache_rows.
  destruct (csv_reader text) as [[|fieldnames rows] [e|]]; try apply no_subfolders_empty.
  - case_bool_decide; [|apply no_subfolders_empty].
    pose proof (load_rows_no_subfolders rows ∅ no_subfolders_empty).
    by destruct (load_rows ∅ rows) as [cache [e'|]].
  - case_bool_decide; [|apply no_subfolders_empty].
    pose proof (load_rows_no_subfolders rows ∅ no_subfolders_empty).
    by destruct (load_rows ∅ rows) as [cache [e'|]].
Qed.

Lemma read_cache_no_subfolders (w : world) :
  match (read_cache w).1 with
  | Ok cache => no_subfolders cache
  | Raise _ => True
  end.
Proof.
  unfold read_cache. rewrite M_bind_unfold. unfold get_fs at 1.
  destruct (fs_exists (fs w) cache_path); [|apply no_subfolders_empty].
  destruct (file_read (fs w) cache_path) as [text|e]; [|apply no_subfolders_empty].
  pose proof (read_cache_rows_no_subfolders text).
  by destruct (read_cache_rows text) as [cache [e|]].
Qed.

Lemma make_cache_entry_no_subfolders original_path new_path metadata :
  make_cache_entry original_path new_path metadata !! KStr "subfolders" = None.
Proof.
  unfold make_cache_entry. cbn [list_to_map foldr uncurry fst snd].
  by repeat (rewrite lookup_insert_ne by discriminate).
Qed.

Lemma process_file_result A dry_run cache file_path w cache' :
  (process_file A dry_run cache file_path w).1 = Ok cache' →
  cache' = cache
  ∨ ∃ original_path new_path metadata,
      cache' = <[KStr original_path := make_cache_entry original_path new_path metadata]> cache.
Proof.
  unfold process_file. rewrite M_bind_unfold. unfold logging at 1.
  rewrite M_bind_unfold.
  destruct (obtain_metadata _ _ _ _) as [[[metadata|]|e] w2]; cbn [fst]; try done.
  2: { intros [= <-]. by left. }
  unfold try_except_ValueError. rewrite try_except_unfold, M_bind_unfold.
  destruct (rename_and_move_file _ _ _ _) as [[moved|e] w3].
  - rewrite try_except_unfold, M_bind_unfold.
    destruct (write_cache_entry _ _) as [[[]|e] w4].
    + intros [= <-]. right. eauto.
    + destruct (is_ValueError e); cbn.
      * intros [= <-]. right. eauto.
      * unfold raise. cbn. destruct (is_ValueError e) eqn:E; cbn; [|done].
        intros [= <-]. by left.
  - destruct (is_ValueError e); cbn; [|done]. intros [= <-]. by left.
Qed.

Lemma process_file_no_subfolders A dry_run cache file_path w :
  no_subfolders cache →
  match (process_file A dry_run cache file_path w).1 with
  | Ok cache' => no_subfolders cache'
  | Raise _ => True
  end.
Proof.
  intros Hc. destruct (process_file _ _ _ _ _).1 as [cache'|e] eqn:E; [|done].
  apply process_file_result in E as [-> | (p & n & m & ->)]; [done|].
  apply no_subfolders_insert; [done | apply make_cache_entry_no_subfolders].
Qed.

Lemma process_loop_no_subfolders A dry_run media_files cache w :
  no_subfolders cache →
  match (process_loop A dry_run cache media_files w).1 with
  | Ok cache' => no_subfolders cache'
  | Raise _ => True
  end.
Proof.
  revert cache w. induction media_files as [|f rest IH]; intros cache w Hc; simpl; [done|].
  rewrite M_bind_unfold.
  pose proof (process_file_no_subfolders A dry_run cache f w Hc) as Hf.
  destruct (process_file _ _ _ _ _) as [[cache1|e] w1]; [|done].
  by apply IH.
Qed.

Lemma obtain_metadata_hit A cache file_path metadata w :
  cache !! KStr file_path = Some metadata →
  (obtain_metadata A cache file_path w).1 = Ok (Some metadata)
  ∧ queries (obtain_metadata A cache file_path w).2 = queries w.
Proof. intros H. unfold obtain_metadata. by rewrite H. Qed.

Lemma move_file_and_sidecars_returns src_file dest_file w :
  (move_file_and_sidecars src_file dest_file w).1 = Ok tt.
Proof.
  unfold move_file_and_sidecars. rewrite try_except_unfold.
  match goal with
  | |- (match ?x with _ => _ end).1 = _ => destruct x as [[[]|e] w']
  end; reflexivity.
Qed.

(** What [rename_and_move_file] returns for a record whose season and
    episode, where they are read, are integers when they pass the guard. *)
Lemma rename_and_move_result file_path metadata category title subfolders dry_run w :
  subfolder_list (dict_get metadata "subfolders" (VList [])) = Some subfolders →
  metadata !! KStr "category" = Some category →
  category ≠ VNone →
  metadata !! KStr "title" = Some title →
  tags_rejected category (dict_get metadata "season" (VStr EmptyString))
    (dict_get metadata "episode" (VStr EmptyString)) = false →
  (rename_and_move_file file_path metadata dry_run w).1
  = if dry_run then Ok (file_path, routed_target file_path metadata category title subfolders)
    else match makedirs (fs w)
                 (spec_directory category subfolders title
                    (dict_get metadata "season" (VStr EmptyString))) with
         | Ok _ => Ok (file_path, routed_target file_path metadata category title subfolders)
         | Raise e => Raise e
         end.
Proof.
  intros Hsub Hcat Hnone Htitle Htags.
  destruct (tags_accepted _ _ _ Htags) as [Hseason Hepisode].
  assert (∀ w', (lift_res (generate_new_filename file_path category title
                   (dict_get metadata "year" (VStr EmptyString))
                   (dict_get metadata "season" (VStr EmptyString))
                   (dict_get metadata "episode" (VStr EmptyString))) : M string) w'
                = (Ok (spec_filename file_path category title
                         (dict_get metadata "year" (VStr EmptyString))
                         (dict_get metadata "season" (VStr EmptyString))
                         (dict_get metadata "episode" (VStr EmptyString))), w')) as Hname.
  { intros w'. unfold lift_res.
    by rewrite (proj1 (filename_follows_rule _ _ _ _ _ _)), Hseason, Hepisode. }
  unfold rename_and_move_file.
  rewrite M_bind_unfold. unfold lift_res at 1, dict_getitem at 1. rewrite Hcat.
  rewrite M_bind_unfold. unfold lift_res at 1, dict_getitem at 1. rewrite Htitle.
  rewrite M_bind_unfold.
  rewrite (proj2 (destination_follows_rule category _ subfolders title _ dry_run w Hsub)
             Hnone).
  assert (episodic category && py_truthy title
          && digits_rejected (dict_get metadata "season" (VStr EmptyString)) = false) as ->.
  { rewrite <- andb_assoc, (andb_comm (py_truthy title)), andb_assoc, Hseason. done. }
  cbv zeta. unfold routed_target.
  destruct dry_run.
  - by rewrite M_bind_unfold, Hname.
  - destruct (makedirs (fs w) _) as [f|e]; [|done].
    rewrite M_bind_unfold, Hname. rewrite M_bind_unfold.
    pose proof (move_file_and_sidecars_returns file_path
      (path_div (spec_directory category subfolders title
                   (dict_get metadata "season" (VStr EmptyString)))
         (spec_filename file_path category title
            (dict_get metadata "year" (VStr EmptyString))
            (dict_get metadata "season" (VStr EmptyString))
            (dict_get metadata "episode" (VStr EmptyString)))) (with_fs f w)) as Hmove.
    by destruct (move_file_and_sidecars _ _ _) as [[[]|e] w3].
Qed.

(** No path is returned for the other records. *)
Lemma rename_and_move_rejected file_path metadata category title subfolders dry_run w :
  subfolder_list (dict_get metadata "subfolders" (VList [])) = Some subfolders →
  metadata !! KStr "category" = Some category →
  category ≠ VNone →
  metadata !! KStr "title" = Some title →
  tags_rejected category (dict_get metadata "season" (VStr EmptyString))
    (dict_get metadata "episode" (VStr EmptyString)) = true →
  ∃ e, (rename_and_move_file file_path metadata dry_run w).1 = Raise e
       ∧ (dry_run = true → ∃ msg, e = ValueError msg).
Proof.
  intros Hsub Hcat Hnone Htitle Htags.
  unfold tags_rejected in Htags. apply andb_true_iff in Htags as [Hep Htags].
  unfold rename_and_move_file.
  rewrite M_bind_unfold. unfold lift_res at 1, dict_getitem at 1. rewrite Hcat.
  rewrite M_bind_unfold. unfold lift_res at 1, dict_getitem at 1. rewrite Htitle.
  rewrite M_bind_unfold.
  rewrite (proj2 (destination_follows_rule category _ subfolders title _ dry_run w Hsub)
             Hnone).
  rewrite Hep. cbn [andb].
  set (season := dict_get metadata "season" (VStr EmptyString)) in *.
  set (episode := dict_get metadata "episode" (VStr EmptyString)) in *.
  assert (∃ e, generate_new_filename file_path category title
                 (dict_get metadata "year" (VStr EmptyString)) season episode = Raise e
               ∧ ∃ msg, e = ValueError msg) as (e & Hname & Hmsg).
  { rewrite (proj1 (filename_follows_rule _ _ _ _ _ _)), Hep. cbn [andb].
    destruct (digits_rejected season) eqn:Hs.
    - eexists. split; [done|]. by destruct (int_exception_rejected season Hs) as (_ & _ & ?).
    - cbn [orb] in Htags. rewrite Htags. eexists. split; [done|].
      by destruct (int_exception_rejected episode Htags) as (_ & _ & ?). }
  destruct (py_truthy title && digits_rejected season) eqn:Hrej.
  { apply andb_true_iff in Hrej as [_ Hrej]. eexists. split; [done|]. intros _.
    by destruct (int_exception_rejected season Hrej) as (_ & _ & ?). }
  cbv zeta. destruct dry_run.
  - rewrite M_bind_unfold. unfold lift_res at 1. rewrite Hname. by exists e.
  - destruct (makedirs (fs w) _) as [f|e']; [|by eexists].
    rewrite M_bind_unfold. unfold lift_res at 1. rewrite Hname. by exists e.
Qed.

(** A record without subfolders is routed as one with none. *)
Lemma cached_is_routed file_path metadata category title :
  metadata !! KStr "subfolders" = None →
  subfolder_list (dict_get metadata "subfolders" (VList [])) = Some []
  ∧ cached_target file_path metadata category title
    = routed_target file_path metadata category title [].
Proof. intros H. unfold dict_get. by rewrite H. Qed.

Lemma rename_and_move_cached file_path metadata category title dry_run w :
  metadata !! KStr "subfolders" = None →
  metadata !! KStr "category" = Some category →
  category ≠ VNone →
  metadata !! KStr "title" = Some title →
  (dry_run = true →
   tags_rejected category (dict_get metadata "season" (VStr EmptyString))
     (dict_get metadata "episode" (VStr EmptyString)) = false →
     (rename_and_move_file file_path metadata dry_run w).1
     = Ok (file_path, cached_target file_path metadata category title))
  ∧ (∀ r, (rename_and_move_file file_path metadata dry_run w).1 = Ok r →
       r = (file_path, cached_target file_path metadata category title)
       ∧ tags_rejected category (dict_get metadata "season" (VStr EmptyString))
           (dict_get metadata "episode" (VStr EmptyString)) = false).
Proof.
  intros Hsub Hcat Hnone Htitle.
  destruct (cached_is_routed file_path metadata category title Hsub) as [Hlist ->].
  split.
  - intros -> Htags.
    by rewrite (rename_and_move_result _ _ _ _ _ _ _ Hlist Hcat Hnone Htitle Htags).
  - intros r.
    destruct (tags_rejected category _ _) eqn:Htags.
    + destruct (rename_and_move_rejected file_path _ _ _ _ dry_run w
                  Hlist Hcat Hnone Htitle Htags) as (e & -> & _). done.
    + rewrite (rename_and_move_result _ _ _ _ _ _ _ Hlist Hcat Hnone Htitle Htags).
      destruct dry_run; [by intros [= <-]|].
      destruct (makedirs _ _); [by intros [= <-] | done].
Qed.

(** C10. The records [read_cache] loads have no [subfolders] key, and one
    pass of the loop of [process_files] keeps a table of such records so;
    a cache hit hands the cached record to [rename_and_move_file] as it is;
    and for a record without [subfolders] the destination is built from the
    empty subfolder list: the root, the category and, for an episodic
    category, the title and season folders, whatever subfolders the
    classification had supplied when the record was made. Every path that
    is returned for such a record is this one, and a dry run returns it
    unless the season or the episode of an episodic record passes the guard
    of digits and is no integer, in which case no path is returned. The
    text of the path is stated for a year that does not start with two
    slashes; the directory that is synthesised, whatever the year, has the
    root, the category and for an episodic category the title and the
    season folder as its components, and no other. *)
Theorem cache_hit_has_no_subfolders :
  (∀ w, match (read_cache w).1 with
        | Ok cache => no_subfolders cache
        | Raise _ => True
        end)
  ∧ (∀ A dry_run cache file_path w,
       no_subfolders cache →
       match (process_file A dry_run cache file_path w).1 with
       | Ok cache' => no_subfolders cache'
       | Raise _ => True
       end)
  ∧ (∀ A cache file_path metadata w,
       cache !! KStr file_path = Some metadata →
       (obtain_metadata A cache file_path w).1 = Ok (Some metadata))
  ∧ (∀ file_path metadata category title dry_run w,
       metadata !! KStr "subfolders" = None →
       metadata !! KStr "category" = Some category →
       category ≠ VNone →
       metadata !! KStr "title" = Some title →
       year_keeps_root category (dict_get metadata "year" (VStr EmptyString)) →
       let rejected :=
         tags_rejected category (dict_get metadata "season" (VStr EmptyString))
           (dict_get metadata "episode" (VStr EmptyString)) in
       (dry_run = true → rejected = false →
          (rename_and_move_file file_path metadata dry_run w).1
          = Ok (file_path, cached_target file_path metadata category title))
       ∧ (∀ r, (rename_and_move_file file_path metadata dry_run w).1 = Ok r →
            r = (file_path, cached_target file_path metadata category title))
       ∧ (rejected = true →
          ∃ e, (rename_and_move_file file_path metadata dry_run w).1 = Raise e))
  ∧ (∀ metadata category title season dry_run w d,
       metadata !! KStr "subfolders" = None →
       (build_destination_path category (dict_get metadata "subfolders" (VList []))
          title season dry_run w).1 = Ok d →
       d = mkPath true
             (root_parts
              ++ List.filter proper_segment
                   (sanitize_filename category
                    :: if episodic category && py_truthy title
                       then sanitize_filename title
                            :: match integer_of season with
                               | Some n => ["Season " +:+ format_02d n]
                               | None => []
                               end
                       else []))).
Proof.
  split; [apply read_cache_no_subfolders|].
  split; [apply process_file_no_subfolders|].
  split; [intros; by apply obtain_metadata_hit|].
  split.
  - intros file_path metadata category title dry_run w Hsub Hcat Hnone Htitle _ rejected.
    destruct (rename_and_move_cached file_path metadata category title dry_run w
                Hsub Hcat Hnone Htitle) as [Hdry Hret].
    split; [done|]. split; [intros r Hr; by destruct (Hret r Hr)|].
    intros Hrej.
    destruct (cached_is_routed file_path metadata category title Hsub) as [Hlist _].
    destruct (rename_and_move_rejected file_path metadata category title [] dry_run w
                Hlist Hcat Hnone Htitle Hrej) as (e & He & _).
    by exists e.
  - intros metadata category title season dry_run w d Hsub.
    unfold dict_get. rewrite Hsub.
    destruct (destination_follows_rule category (VList []) [] title season dry_run w eq_refl)
      as [Hnone Hsome].
    destruct category as [|z|c|l];
      [by rewrite Hnone|rewrite Hsome by done..];
      (destruct (_ && _ && digits_rejected season); [done|]);
      cbv zeta; (destruct dry_run; [|destruct (makedirs _ _); [|done]]);
      intros [= <-]; unfold spec_directory, directory_segments;
      by destruct (_ && _).
Qed.

Lemma cache_hit_has_no_subfolders_witness :
  (rename_and_move_file Rerun.up_file Rerun.up_metadata true empty_world).1
  = Ok (Rerun.up_file, "/Volumes/HDD_RAID/Shared Media/Movies/Pixar/2009 - Up.mkv")
  ∧ (rename_and_move_file Rerun.up_file Rerun.up_entry true empty_world).1
    = Ok (Rerun.up_file, "/Volumes/HDD_RAID/Shared Media/Movies/2009 - Up.mkv").
Proof.
  split; [reflexivity|].
  rewrite (proj1 (proj1 (proj2 (proj2 (proj2 cache_hit_has_no_subfolders))) Rerun.up_file
                   Rerun.up_entry (VStr "Movies") (VStr "Up") true empty_world
                   eq_refl eq_refl ltac:(discriminate) eq_refl ltac:(by intros _ _))
             eq_refl eq_refl).
  reflexivity.
Defined.

(** The same through the file: the first run caches the film, the cache is
    read back, and the hit of the second run is routed without the studio
    folder. *)
Example rerun_drops_subfolder :
  let w1 := (process_file Rerun.services true ∅ Rerun.up_file empty_world).2 in
  match (read_cache w1).1 with
  | Ok cache =>
      match cache !! KStr Rerun.up_file with
      | Some metadata =>
          metadata !! KStr "subfolders" = None
          ∧ metadata !! KStr "new_path"
            = Some (VStr "/Volumes/HDD_RAID/Shared Media/Movies/Pixar/2009 - Up.mkv")
          ∧ (rename_and_move_file Rerun.up_file metadata true w1).1
            = Ok (Rerun.up_file, "/Volumes/HDD_RAID/Shared Media/Movies/2009 - Up.mkv")
      | None => False
      end
  | Raise _ => False
  end.
Proof. vm_compute. done. Qed.

(** ** The csv reader reads what the csv writer wrote *)

Module CsvFacts.
Import Chars Csv.

Lemma special_false c :
  special c = false →
  ascii_eqb c comma = false ∧ ascii_eqb c dquote = false ∧ is_newline c = false.
Proof.
  unfold special, is_newline. intros H.
  repeat (apply orb_false_iff in H as [H ?]). repeat split; try done.
  apply orb_false_iff. by split.
Qed.

Lemma ends_line_plain c d rest : is_newline c = false → ends_line c (d :: rest) = false.
Proof.
  unfold is_newline, ends_line. intros [-> ->]%orb_false_iff. done.
Qed.

Lemma double_quotes_cons c f :
  double_quotes (c :: f)
  = (if ascii_eqb c dquote then [dquote; dquote] else [c]) ++ double_quotes f.
Proof. reflexivity. Qed.

Lemma parse_add_char_ok s fld flds c :
  (N.of_nat (length fld) < field_limit)%N →
  parse_add_char (mkParser s fld flds) c = Ok (mkParser s (fld ++ [c]) flds).
Proof.
  intros H. unfold parse_add_char. cbn [st field fields].
  by rewrite (proj2 (N.leb_gt _ _) H).
Qed.

Lemma within_limit_snoc fld c f :
  within_limit (fld ++ c :: f) →
  (N.of_nat (length fld) < field_limit)%N ∧ within_limit ((fld ++ [c]) ++ f).
Proof.
  unfold within_limit. rewrite <- app_assoc. cbn [app].
  rewrite length_app. cbn [length]. lia.
Qed.

(** An unquoted field is read character by character. *)
Lemma read_unquoted f k fld flds :
  existsb special f = false → k ≠ [] → within_limit (fld ++ f) →
  read_from (mkParser IN_FIELD fld flds) (f ++ k)
  = read_from (mkParser IN_FIELD (fld ++ f) flds) k.
Proof.
  revert fld. induction f as [|c f IH]; intros fld Hf Hk Hlim; simpl.
  - by rewrite app_nil_r.
  - simpl in Hf. apply orb_false_iff in Hf as [Hc Hf].
    destruct (special_false c Hc) as (Hcomma & Hquote & Hnl).
    destruct (within_limit_snoc fld c f Hlim) as [Hlt Hlim'].
    unfold parse_process_char. cbn [st]. rewrite Hnl, Hcomma.
    rewrite (parse_add_char_ok _ _ _ _ Hlt).
    assert (ends_line c (f ++ k) = false) as ->.
    { destruct (f ++ k) eqn:E; [|by apply ends_line_plain].
      apply app_eq_nil in E as [_ ?]. done. }
    rewrite (IH _ Hf Hk Hlim'). by rewrite <- app_assoc.
Qed.

(** Inside quotes every character is kept, a doubled quote as one quote;
    line ends inside the field do not end the record. *)
Lemma read_quoted f k fld flds :
  k ≠ [] → within_limit (fld ++ f) →
  read_from (mkParser IN_QUOTED_FIELD fld flds) (double_quotes f ++ dquote :: k)
  = read_from (mkParser QUOTE_IN_QUOTED_FIELD (fld ++ f) flds) k.
Proof.
  intros Hk. revert fld. induction f as [|c f IH]; intros fld Hlim.
  - simpl. rewrite app_nil_r. destruct k as [|d k]; [done|].
    rewrite ends_line_plain by done. done.
  - destruct (within_limit_snoc fld c f Hlim) as [Hlt Hlim'].
    rewrite double_quotes_cons.
    destruct (ascii_eqb c dquote) eqn:Hc.
    + apply ascii_eqb_true in Hc. subst c.
      change (([dquote; dquote] ++ double_quotes f) ++ dquote :: k)
        with (dquote :: dquote :: double_quotes f ++ dquote :: k).
      cbn [read_from]. unfold parse_process_char at 1. cbn [st].
      rewrite ascii_eqb_refl. rewrite ends_line_plain by done.
      unfold set_state at 1. cbn [st field fields].
      unfold parse_process_char at 1. cbn [st]. rewrite ascii_eqb_refl.
      rewrite (parse_add_char_ok _ _ _ _ Hlt). cbn [mbind res_bind].
      assert (ends_line dquote (double_quotes f ++ dquote :: k) = false) as ->.
      { destruct (double_quotes f ++ dquote :: k) eqn:E; [|by apply ends_line_plain].
        by apply app_eq_nil in E as [_ ?]. }
      unfold set_state. cbn [st field fields].
      rewrite (IH _ Hlim'). by rewrite <- app_assoc.
    + change (([c] ++ double_quotes f) ++ dquote :: k)
        with (c :: double_quotes f ++ dquote :: k).
      cbn [read_from]. unfold parse_process_char at 1. cbn [st]. rewrite Hc.
      rewrite (parse_add_char_ok _ _ _ _ Hlt).
      assert (read_from (mkParser IN_QUOTED_FIELD (fld ++ [c]) flds)
                (double_quotes f ++ dquote :: k)
              = read_from (mkParser QUOTE_IN_QUOTED_FIELD (fld ++ c :: f) flds) k) as Hrest.
      { rewrite (IH _ Hlim'). by rewrite <- app_assoc. }
      destruct (ends_line c (double_quotes f ++ dquote :: k)); [|done].
      unfold parse_process_char. cbn [st is_START_RECORD]. done.
Qed.

Lemma read_field p f k :
  at_field_start p → k ≠ [] → within_limit f →
  read_from p (join_field f ++ k) = read_from (after_field p f) k.
Proof.
  intros [Hfld Hst] Hk Hlim. destruct p as [s fld flds]. cbn [field st fields] in *. subst fld.
  unfold join_field, after_field. cbn [fields].
  destruct (existsb special f) eqn:Hsp.
  - change ((dquote :: double_quotes f ++ [dquote]) ++ k)
      with (dquote :: (double_quotes f ++ [dquote]) ++ k).
    rewrite <- app_assoc. cbn [app read_from].
    assert (parse_process_char (mkParser s [] flds) (Ch dquote)
            = Ok (mkParser IN_QUOTED_FIELD [] flds)) as ->.
    { destruct Hst as [-> | [-> ->]]; reflexivity. }
    assert (ends_line dquote (double_quotes f ++ dquote :: k) = false) as ->.
    { destruct (double_quotes f ++ dquote :: k) eqn:E; [|by apply ends_line_plain].
      by apply app_eq_nil in E as [_ ?]. }
    by rewrite read_quoted.
  - destruct f as [|c f]; [done|].
    simpl in Hsp. apply orb_false_iff in Hsp as [Hc Hf].
    destruct (special_false c Hc) as (Hcomma & Hquote & Hnl).
    cbn [app read_from].
    assert (parse_process_char (mkParser s [] flds) (Ch c)
            = Ok (mkParser IN_FIELD [c] flds)) as ->.
    { destruct Hst as [-> | [-> ->]]; unfold parse_process_char, start_field; cbn [st];
        by rewrite Hnl, ?Hquote, ?Hcomma. }
    assert (ends_line c (f ++ k) = false) as ->.
    { destruct (f ++ k) eqn:E; [|by apply ends_line_plain].
      by apply app_eq_nil in E as [_ ?]. }
    by rewrite (read_unquoted f k [c] flds Hf Hk Hlim).
Qed.

Lemma comma_not_newline : is_newline comma = false.
Proof. reflexivity. Qed.

Lemma read_field_comma p f k :
  at_field_start p → k ≠ [] → within_limit f →
  read_from p (join_field f ++ comma :: k)
  = read_from (mkParser START_FIELD [] (fields p ++ [f])) k.
Proof.
  intros Hp Hk Hlim. rewrite (read_field p f (comma :: k) Hp) by done.
  destruct k as [|d k]; [done|].
  cbn [read_from]. rewrite (ends_line_plain comma d k comma_not_newline).
  unfold after_field. destruct (existsb special f).
  - reflexivity.
  - destruct f; [|reflexivity].
    destruct Hp as [Hfld Hst]. destruct p as [s fld flds]. cbn [field st fields] in *.
    subst fld. destruct Hst as [-> | [-> ->]]; reflexivity.
Qed.

Lemma read_crlf p rest :
  (st p = QUOTE_IN_QUOTED_FIELD ∨ st p = IN_FIELD ∨ st p = START_FIELD) →
  read_from p (cr :: lf :: rest)
  = let '(rows, err) := read_from parse_reset rest in
    ((fields p ++ [field p]) :: rows, err).
Proof.
  intros Hst. destruct p as [s fld flds]. cbn [st field fields] in *.
  cbn [read_from].
  assert (parse_process_char (mkParser s fld flds) (Ch cr)
          = Ok (mkParser EAT_CRNL [] (flds ++ [fld]))) as ->.
  { destruct Hst as [-> | [-> | ->]]; reflexivity. }
  assert (ends_line cr (lf :: rest) = false) as -> by reflexivity.
  assert (ends_line lf rest = true) as -> by by destruct rest.
  reflexivity.
Qed.

Lemma read_field_crlf p f rest :
  at_field_start p → (st p = START_RECORD → join_field f ≠ []) → within_limit f →
  read_from p (join_field f ++ cr :: lf :: rest)
  = let '(rows, err) := read_from parse_reset rest in
    ((fields p ++ [f]) :: rows, err).
Proof.
  intros Hp Hne Hlim. rewrite (read_field p f (cr :: lf :: rest) Hp) by done.
  unfold after_field. destruct (existsb special f) eqn:Hsp.
  - rewrite read_crlf by (cbn; tauto). done.
  - destruct f as [|c f].
    + destruct Hp as [Hfld Hst]. destruct Hst as [Hst | [Hst _]].
      * rewrite read_crlf by tauto. by rewrite Hfld.
      * destruct (Hne Hst). unfold join_field. by rewrite Hsp.
    + rewrite read_crlf by (cbn; tauto). done.
Qed.

(** A whole record, from the start of a field on. *)
Lemma read_fields p f fs rest :
  at_field_start p → (st p = START_RECORD → f :: fs ≠ [[]]) →
  Forall within_limit (f :: fs) →
  read_from p (join_fields (f :: fs) ++ cr :: lf :: rest)
  = let '(rows, err) := read_from parse_reset rest in
    ((fields p ++ f :: fs) :: rows, err).
Proof.
  revert p f. induction fs as [|g fs IH]; intros p f Hp Hne Hlim;
    apply Forall_cons in Hlim as [Hf Hfs].
  - cbn [join_fields]. apply read_field_crlf; [done| |done].
    intros Hst Hj. apply (Hne Hst). f_equal.
    unfold join_field in Hj. destruct (existsb special f); [done|]. done.
  - change (join_fields (f :: g :: fs)) with (join_field f ++ comma :: join_fields (g :: fs)).
    rewrite <- app_assoc. cbn [app].
    rewrite read_field_comma; [|done| |done].
    2: { destruct (join_fields (g :: fs) ++ cr :: lf :: rest) eqn:E; [|done].
         by apply app_eq_nil in E as [_ ?]. }
    rewrite IH.
    + cbn [fields]. by rewrite <- app_assoc.
    + split; [done | by left].
    + cbn [st]. done.
    + done.
Qed.

Lemma read_row row rest :
  Forall within_limit row →
  read_from parse_reset (writerow row ++ rest)
  = let '(rows, err) := read_from parse_reset rest in (row :: rows, err).
Proof.
  intros Hlim. destruct row as [|f fs].
  - destruct rest; reflexivity.
  - destruct (decide (f :: fs = [[]])) as [E|Hne].
    + injection E as -> ->. destruct rest; reflexivity.
    + assert (writerow (f :: fs) = join_fields (f :: fs) ++ [cr; lf]) as ->.
      { unfold writerow. destruct f; [destruct fs|]; done. }
      rewrite <- app_assoc. cbn [app].
      rewrite read_fields; [done | | done | done].
      split; [done | by right].
Qed.
End CsvFacts.

(** ** Text written and read back *)

Import CsvFacts.

Lemma list_ascii_app (s t : string) :
  list_ascii_of_string (s +:+ t) = list_ascii_of_string s ++ list_ascii_of_string t.
Proof.
  induction s as [|a s IH]; [done|].
  rewrite str_app_cons. simpl. by rewrite IH.
Qed.

Lemma read_rows (rows : list (list (list ascii))) :
  Forall (Forall Csv.within_limit) rows →
  Csv.reader (concat (Csv.writerow <$> rows)) = (rows, None).
Proof.
  unfold Csv.reader. induction rows as [|row rows IH]; intros Hlim; [done|].
  apply Forall_cons in Hlim as [Hrow Hrows].
  rewrite fmap_cons. cbn [concat]. rewrite read_row by done. by rewrite IH.
Qed.

Lemma length_list_ascii (s : string) : length (list_ascii_of_string s) = String.length s.
Proof. induction s as [|a s IH]; [done|]. simpl. by rewrite IH. Qed.

Lemma cells_within_limit (rows : list (list string)) :
  Forall (Forall cell_fits) rows →
  Forall (Forall Csv.within_limit)
    ((λ row : list string, list_ascii_of_string <$> row) <$> rows).
Proof.
  intros H. apply Forall_fmap. eapply Forall_impl; [exact H|].
  intros row Hrow. apply Forall_fmap. eapply Forall_impl; [exact Hrow|].
  intros s Hs. unfold Csv.within_limit. cbn. by rewrite length_list_ascii.
Qed.

Lemma cells_back (rows : list (list string)) :
  map (map string_of_list_ascii) ((λ row : list string, list_ascii_of_string <$> row) <$> rows) = rows.
Proof.
  induction rows as [|row rows IH]; [done|].
  rewrite fmap_cons. cbn [map]. rewrite IH. f_equal.
  induction row as [|c row IHr]; [done|].
  rewrite fmap_cons. cbn [map]. by rewrite IHr, string_of_list_ascii_of_string.
Qed.

Lemma rows_text_ascii (rows : list (list string)) :
  list_ascii_of_string (str_concat (row_text <$> rows))
  = concat (Csv.writerow <$> ((λ row : list string, list_ascii_of_string <$> row) <$> rows)).
Proof.
  induction rows as [|row rows IH]; [done|].
  rewrite !fmap_cons. cbn [str_concat concat]. rewrite list_ascii_app, IH.
  unfold row_text. by rewrite list_ascii_of_string_of_list_ascii.
Qed.

Lemma csv_reader_rows (rows : list (list string)) :
  Forall (Forall cell_fits) rows →
  csv_reader (str_concat (row_text <$> rows)) = (rows, None).
Proof.
  intros Hlim. unfold csv_reader.
  rewrite rows_text_ascii, read_rows by by apply cells_within_limit.
  by rewrite cells_back.
Qed.

Lemma cache_text_rows (entries : list dict) :
  cache_text entries
  = str_concat (row_text <$> (expected_headers :: (entry_cells <$> entries))).
Proof. reflexivity. Qed.

Lemma str_concat_app (l k : list string) :
  str_concat (l ++ k) = str_concat l +:+ str_concat k.
Proof.
  induction l as [|s l IH]; [done|].
  cbn [app str_concat]. by rewrite IH, str_app_assoc.
Qed.

Lemma cache_text_snoc (entries : list dict) (e : dict) :
  cache_text entries +:+ row_text (entry_cells e) = cache_text (entries ++ [e]).
Proof.
  unfold cache_text. rewrite !fmap_app, str_concat_app, str_app_assoc.
  cbn [fmap list_fmap str_concat]. by rewrite str_app_empty_r.
Qed.

(** ** Entries written and reloaded *)

Lemma fold_insert_str_lookup (kvs : list (string * string)) (d : dict) (k v : string) :
  NoDup kvs.*1 → (k, v) ∈ kvs →
  fold_left (λ (d : dict) kv, <[KStr kv.1 := VStr kv.2]> d) kvs d !! KStr k = Some (VStr v).
Proof.
  revert d. induction kvs as [|[k' v'] kvs IH]; intros d Hnd Hin.
  - by apply elem_of_nil in Hin.
  - rewrite fmap_cons in Hnd. apply NoDup_cons in Hnd as [Hfresh Hnd].
    apply elem_of_cons in Hin as [[= -> ->] | Hin]; cbn [fold_left fst snd].
    + rewrite fold_insert_str_other; [apply lookup_insert_eq|].
      intros (x & [= ->] & Hx)%list_elem_of_fmap. done.
    + by apply IH.
Qed.

Lemma expected_headers_NoDup : NoDup expected_headers.
Proof. apply (bool_decide_unpack _). by vm_compute. Qed.

Lemma zip_fmap_same {A B} (f : A → B) (l : list A) :
  zip l (f <$> l) = (λ x, (x, f x)) <$> l.
Proof. induction l as [|x l IH]; [done|]. cbn. by rewrite IH. Qed.

Lemma fst_pair_fmap {A B} (f : A → B) (l : list A) : ((λ x, (x, f x)) <$> l).*1 = l.
Proof. induction l as [|x l IH]; [done|]. cbn. by rewrite IH. Qed.

Lemma length_entry_cells e : length (entry_cells e) = length expected_headers.
Proof. unfold entry_cells. by rewrite length_fmap. Qed.

(** Every column of a reloaded record holds the text of the cell. *)
Lemma reloaded_lookup (e : dict) (k : string) :
  k ∈ expected_headers →
  reloaded e !! KStr k = Some (VStr (csv_cell (dict_get e k (VStr EmptyString)))).
Proof.
  intros Hk. unfold reloaded, DictReader_row.
  rewrite length_entry_cells, Nat.ltb_irrefl.
  apply fold_insert_str_lookup.
  - unfold entry_cells. rewrite zip_fmap_same, fst_pair_fmap.
    apply expected_headers_NoDup.
  - unfold entry_cells. rewrite zip_fmap_same. apply list_elem_of_fmap. eauto.
Qed.

Lemma reloaded_no_surplus (e : dict) : reloaded e !! KNone = None.
Proof.
  unfold reloaded, DictReader_row. rewrite length_entry_cells, Nat.ltb_irrefl.
  rewrite fold_insert_str_other; [done|].
  intros (x & [=] & _)%list_elem_of_fmap.
Qed.

Lemma load_rows_entries (entries : list dict) (cache : cache_table) :
  load_rows cache (entry_cells <$> entries)
  = (fold_left (λ (c : cache_table) e,
        <[KStr (csv_cell (dict_get e "original_path" (VStr EmptyString))) := reloaded e]> c)
       entries cache, None).
Proof.
  revert cache. induction entries as [|e entries IH]; intros cache; [done|].
  rewrite fmap_cons. cbn [load_rows fold_left].
  assert (entry_cells e
          = csv_cell (dict_get e "original_path" (VStr EmptyString)) :: tail (entry_cells e))
    as Hcells by reflexivity.
  rewrite Hcells at 1. fold (reloaded e).
  unfold dict_getitem.
  rewrite (reloaded_lookup e "original_path") by (apply list_elem_of_In; simpl; tauto).
  cbn [mbind res_bind py_key]. apply IH.
Qed.

Lemma make_cache_entry_keys original_path new_path metadata (k : pykey) (v : pyval) :
  make_cache_entry original_path new_path metadata !! k = Some v →
  ∃ key, k = KStr key ∧ key ∈ expected_headers.
Proof.
  intros H. unfold make_cache_entry in H. apply elem_of_list_to_map_2 in H.
  apply list_elem_of_In in H. simpl in H.
  repeat (destruct H as [[= <- <-] | H];
          [eexists; split; [reflexivity | apply list_elem_of_In; simpl; tauto]|]).
  done.
Qed.

Lemma dict_to_list_entry original_path new_path metadata :
  dict_to_list expected_headers (make_cache_entry original_path new_path metadata)
  = Ok ((λ key, dict_get (make_cache_entry original_path new_path metadata) key
                  (VStr EmptyString)) <$> expected_headers).
Proof.
  unfold dict_to_list.
  assert (forallb (λ k, bool_decide (k ∈ KStr <$> expected_headers))
            (map_to_list (make_cache_entry original_path new_path metadata)).*1 = true) as ->;
    [|done].
  apply forallb_forall. intros k Hk%list_elem_of_In.
  apply list_elem_of_fmap in Hk as ([k' v] & -> & Hkv).
  apply elem_of_map_to_list in Hkv.
  apply make_cache_entry_keys in Hkv as (key & -> & Hkey).
  apply bool_decide_eq_true. apply list_elem_of_fmap. eauto.
Qed.

Lemma DictWriter_writerow_entry original_path new_path metadata :
  DictWriter_writerow expected_headers (make_cache_entry original_path new_path metadata)
  = Ok (row_text (entry_cells (make_cache_entry original_path new_path metadata))).
Proof.
  unfold DictWriter_writerow. rewrite dict_to_list_entry. cbn [mbind res_bind].
  unfold row_text, entry_cells. by rewrite <- !list_fmap_compose.
Qed.

Lemma DictWriter_writerow_header :
  DictWriter_writerow expected_headers (header_dict expected_headers)
  = Ok (row_text expected_headers).
Proof. by vm_compute. Qed.

Lemma cache_path_parent_is_dir (f : filesystem) : fs_is_dir f (path_parent cache_path) = true.
Proof. reflexivity. Qed.

Lemma cache_file_absent (f : filesystem) : f !! cache_path = None → fs_exists f cache_path = false.
Proof. intros H. unfold fs_exists. rewrite H. by rewrite cache_path_parts. Qed.

Lemma fs_op_ok (op : filesystem → res filesystem) (w : world) (f : filesystem) :
  op (fs w) = Ok f → fs_op op w = (Ok tt, with_fs f w).
Proof. intros H. by rewrite fs_op_unfold, H. Qed.

Lemma entry_original_path original_path new_path metadata :
  dict_getitem (make_cache_entry original_path new_path metadata) "original_path"
  = Ok (VStr original_path).
Proof. reflexivity. Qed.

(** The file after the entry of a routed file has been written: the header
    and the line of the entry for a new file, the old text and the line
    otherwise. *)
Lemma write_cache_entry_file original_path new_path metadata (w : world) :
  let e := make_cache_entry original_path new_path metadata in
  let line := row_text (entry_cells e) in
  (fs w !! cache_path = None →
     fs (write_cache_entry e w).2 !! cache_path
     = Some (File (row_text expected_headers +:+ line)))
  ∧ (∀ t, fs w !! cache_path = Some (File t) →
       fs (write_cache_entry e w).2 !! cache_path = Some (File (t +:+ line))).
Proof.
  intros e line.
  assert (∀ w1 t, fs w1 !! cache_path = Some (File t) →
    ∃ w2,
      (fs_op (λ f, open_append f cache_path);;
       row ← lift_res (DictWriter_writerow expected_headers e);
       fs_op (λ f, file_write row f cache_path);;
       original_path ← lift_res (dict_getitem e "original_path");
       logging INFO ("Cache entry written to " +:+ CACHE_FILE +:+ " for "
                     +:+ py_str original_path)) w1 = (Ok tt, w2)
      ∧ fs w2 !! cache_path = Some (File (t +:+ line))) as Htail.
  { intros w1 t Ht.
    rewrite M_bind_unfold, (fs_op_ok _ w1 (fs w1)) by (unfold open_append; by rewrite Ht).
    rewrite M_bind_unfold. unfold lift_res at 1. subst e.
    rewrite DictWriter_writerow_entry.
    rewrite M_bind_unfold.
    erewrite fs_op_ok by (unfold file_write; cbn [fs with_fs]; by rewrite Ht).
    rewrite M_bind_unfold. unfold lift_res at 1. rewrite entry_original_path.
    unfold logging. eexists. split; [reflexivity|].
    cbn [fs with_fs]. by rewrite lookup_insert_eq. }
  split.
  - intros Hnone. unfold write_cache_entry. rewrite try_except_unfold.
    rewrite M_bind_unfold. unfold get_fs at 1.
    rewrite (cache_file_absent _ Hnone). cbn [negb].
    rewrite M_bind_unfold.
    rewrite (M_bind_unfold _ (fs_op (λ f, open_truncate f cache_path))).
    erewrite fs_op_ok
      by (unfold open_truncate; rewrite Hnone; by rewrite cache_path_parent_is_dir).
    rewrite M_bind_unfold. unfold lift_res at 1. rewrite DictWriter_writerow_header.
    erewrite fs_op_ok
      by (unfold file_write; cbn [fs with_fs]; by rewrite lookup_insert_eq).
    match goal with
    | |- context [match ?m ?w1 with _ => _ end] =>
        destruct (Htail w1 (EmptyString +:+ row_text expected_headers)) as (w2 & -> & Hf)
    end.
    { cbn [fs with_fs]. by rewrite lookup_insert_eq. }
    cbn [fst snd]. by rewrite Hf.
  - intros t Ht. unfold write_cache_entry. rewrite try_except_unfold.
    rewrite M_bind_unfold. unfold get_fs at 1.
    rewrite (cache_file_exists _ _ Ht). cbn [negb].
    rewrite M_bind_unfold. unfold mret at 1, M_ret at 1.
    destruct (Htail w t Ht) as (w2 & -> & Hf).
    cbn [fst snd]. by rewrite Hf.
Qed.

Lemma headers_fit : Forall cell_fits expected_headers.
Proof. repeat constructor; by vm_compute. Qed.

Lemma read_cache_of_text (w : world) (entries : list dict) :
  Forall entry_fits entries →
  fs w !! cache_path = Some (File (cache_text entries)) →
  (read_cache w).1
  = Ok (fold_left (λ (c : cache_table) e,
          <[KStr (csv_cell (dict_get e "original_path" (VStr EmptyString))) := reloaded e]> c)
        entries ∅).
Proof.
  intros Hfit Hfile. unfold read_cache. rewrite M_bind_unfold. unfold get_fs at 1.
  rewrite (cache_file_exists _ _ Hfile). unfold file_read. rewrite Hfile.
  unfold read_cache_rows. rewrite cache_text_rows, csv_reader_rows.
  - rewrite bool_decide_eq_true_2 by done. by rewrite load_rows_entries.
  - apply Forall_cons. split; [apply headers_fit|]. by apply Forall_fmap.
Qed.

Lemma make_cache_entry_lookup original_path new_path metadata (key : string) :
  key ∈ expected_headers →
  make_cache_entry original_path new_path metadata !! KStr key
  = Some (dict_get (make_cache_entry original_path new_path metadata) key (VStr EmptyString)).
Proof.
  intros Hk. apply list_elem_of_In in Hk. simpl in Hk.
  repeat (destruct Hk as [<- | Hk]; [reflexivity|]). done.
Qed.

Lemma reloaded_entry original_path new_path metadata :
  let e := make_cache_entry original_path new_path metadata in
  (∀ k v, e !! k = Some v → reloaded e !! k = Some (VStr (csv_cell v)))
  ∧ (∀ k, e !! k = None → reloaded e !! k = None).
Proof.
  intros e. split.
  - intros k v Hkv. destruct (make_cache_entry_keys _ _ _ _ _ Hkv) as (key & -> & Hkey).
    rewrite (reloaded_lookup e key Hkey). do 2 f_equal.
    unfold dict_get. by rewrite Hkv.
  - intros k Hnone. unfold reloaded, DictReader_row.
    rewrite length_entry_cells, Nat.ltb_irrefl.
    rewrite fold_insert_str_other; [done|].
    unfold entry_cells. rewrite zip_fmap_same, fst_pair_fmap.
    intros (key & -> & Hkey)%list_elem_of_fmap.
    subst e. by rewrite (make_cache_entry_lookup _ _ _ key Hkey) in Hnone.
Qed.

(** C8, as the program has it. For a cache file this program wrote (or
    none yet), the entry of a routed file appended by [write_cache_entry] is
    found again by [read_cache] under its original path, with the same keys,
    every field holding the text the csv writer wrote for it: a string field
    is reloaded as the same string, [None] as the empty string, any other
    value as its [str()]. No cell of the file is longer than the field size
    limit of the csv reader. *)
Theorem appended_record_reloads_as_text
    (w : world) (routed : list (string * string * dict))
    (original_path new_path : string) (metadata : dict) :
  (fs w !! cache_path = None ∧ routed = [])
  ∨ fs w !! cache_path = Some (File (cache_text (routed_entries routed))) →
  Forall entry_fits (routed_entries routed) →
  entry_fits (make_cache_entry original_path new_path metadata) →
  let e := make_cache_entry original_path new_path metadata in
  ∃ cache row,
    (read_cache (write_cache_entry e w).2).1 = Ok cache
    ∧ cache !! KStr original_path = Some row
    ∧ (∀ k v, e !! k = Some v → row !! k = Some (VStr (csv_cell v)))
    ∧ (∀ k, e !! k = None → row !! k = None)
    ∧ (∀ k s, e !! k = Some (VStr s) → row !! k = e !! k).
Proof.
  intros Hfile Hfits Hfit e.
  assert (fs (write_cache_entry e w).2 !! cache_path
          = Some (File (cache_text (routed_entries routed ++ [e])))) as Hwritten.
  { destruct (write_cache_entry_file original_path new_path metadata w) as [Hnew Hold].
    unfold e. destruct Hfile as [[Hnone ->] | Hsome].
    - rewrite (Hnew Hnone). do 2 f_equal. unfold cache_text. cbn [routed_entries fmap list_fmap app str_concat].
      by rewrite str_app_empty_r.
    - rewrite (Hold _ Hsome). by rewrite cache_text_snoc. }
  eexists _, (reloaded e).
  split.
  { apply (read_cache_of_text _ (routed_entries routed ++ [e])); [|exact Hwritten].
    apply Forall_app. split; [done|]. by apply Forall_singleton. }
  split.
  { rewrite fold_left_app. cbn [fold_left].
    assert (csv_cell (dict_get e "original_path" (VStr EmptyString)) = original_path)
      as -> by reflexivity.
    apply lookup_insert_eq. }
  destruct (reloaded_entry original_path new_path metadata) as [Hsome Hnone].
  split; [exact Hsome|]. split; [exact Hnone|].
  intros k s Hk. rewrite Hk. apply (Hsome k (VStr s) Hk).
Qed.

Lemma appended_record_reloads_as_text_witness :
  ∃ cache row,
    (read_cache (write_cache_entry
                   (make_cache_entry Scenario.movie_file
                      "/Volumes/HDD_RAID/Shared Media/Movies/2020 - Test Movie.mkv"
                      Scenario.movie_metadata) empty_world).2).1 = Ok cache
    ∧ cache !! KStr Scenario.movie_file = Some row
    ∧ row !! KStr "title" = Some (VStr "Test Movie")
    ∧ row !! KStr "show_name" = Some (VStr EmptyString).
Proof.
  destruct (appended_record_reloads_as_text empty_world [] Scenario.movie_file
              "/Volumes/HDD_RAID/Shared Media/Movies/2020 - Test Movie.mkv"
              Scenario.movie_metadata (or_introl (conj eq_refl eq_refl)))
    as (cache & row & Hread & Hrow & Hsome & _ & _).
  { constructor. }
  { repeat constructor; by vm_compute. }
  exists cache, row. split; [exact Hread|]. split; [exact Hrow|]. split.
  - apply (Hsome (KStr "title") (VStr "Test Movie")). reflexivity.
  - apply (Hsome (KStr "show_name") VNone). reflexivity.
Defined.

(** C8 as stated fails: the classification of the movie has no show name
    ([null]), which the cache entry carries as [None]; the reloaded record
    has the empty string there. *)
Lemma null_field_reloads_as_empty_string :
  let e := make_cache_entry Scenario.movie_file
             "/Volumes/HDD_RAID/Shared Media/Movies/2020 - Test Movie.mkv"
             Scenario.movie_metadata in
  e !! KStr "show_name" = Some VNone
  ∧ match (read_cache (write_cache_entry e empty_world).2).1 with
    | Ok cache =>
        match cache !! KStr Scenario.movie_file with
        | Some row => row !! KStr "show_name" = Some (VStr EmptyString)
                      ∧ row !! KStr "show_name" ≠ e !! KStr "show_name"
        | None => False
        end
    | Raise _ => False
    end.
Proof. vm_compute. split; [done|]. split; [done | discriminate]. Qed.

(** ** Where the loops stop *)

(** The loop over the siblings ends at the first move that fails: the
    entries listed after it are left as they are, whatever they are, and the
    failure is logged once. *)
Lemma sidecar_loop_stops_at_failure
    (src_file : string) (dest_file : Path) (w w1 : world)
    (pre : list Path) (item : Path) (post : list Path) (e : exn) :
  iterdir (fs w) (path_parent (path_of_str src_file)) = Ok (pre ++ item :: post) →
  for_each pre (move_sibling (path_stem (path_of_str src_file)) dest_file) w = (Ok tt, w1) →
  path_stem item = path_stem (path_of_str src_file) →
  shutil_move (fs w1) item (path_div (path_parent dest_file) (path_name item)) = Raise e →
  move_file_and_sidecars src_file dest_file w
  = (Ok tt,
     mkWorld (fs w1)
       (log w1 ++ [(ERROR, "Error moving file " +:+ src_file +:+ " to "
                            +:+ path_str dest_file +:+ ": " +:+ exn_str e)])
       (queries w1)).
Proof.
  intros Hlist Hpre Hstem Hmove.
  unfold move_file_and_sidecars. rewrite try_except_unfold.
  rewrite M_bind_unfold. unfold get_fs at 1.
  rewrite M_bind_unfold. unfold lift_res at 1. rewrite Hlist.
  rewrite M_bind_unfold.
  rewrite (for_each_raise _ pre item post w w1 w1 e Hpre); [done|].
  unfold move_sibling. rewrite Hstem, String.eqb_refl.
  by rewrite fs_op_unfold, Hmove.
Qed.

Example sidecar_loop_stops_at_failure_clip :
  log (move_file_and_sidecars Scenario.clip_file
         (path_of_str "/Volumes/HDD_RAID/Shared Media/Movies/Clip.mp4")
         (mkWorld Scenario.clip_fs [] [])).2
  = [(ERROR, "Error moving file /Volumes/HDD_RAID/Orphaned/Clip.mp4 to "
              +:+ "/Volumes/HDD_RAID/Shared Media/Movies/Clip.mp4: "
              +:+ "Destination path already exists")].
Proof.
  rewrite (sidecar_loop_stops_at_failure Scenario.clip_file
             (path_of_str "/Volumes/HDD_RAID/Shared Media/Movies/Clip.mp4")
             (mkWorld Scenario.clip_fs [] []) (mkWorld Scenario.clip_fs [] [])
             [] (path_of_str "/Volumes/HDD_RAID/Orphaned/Clip.srt")
             [path_of_str "/Volumes/HDD_RAID/Orphaned/Clip.mp4"]
             (OSError "Destination path already exists")).
  - reflexivity.
  - by vm_compute.
  - reflexivity.
  - reflexivity.
  - reflexivity.
Qed.

(** A classification without a category, or without a title outside the
    two TV categories, ends the pass with [KeyError]. *)
Lemma process_file_missing_key A dry_run cache file_path metadata w :
  cache !! KStr file_path = None →
  chat_completion A (path_name (path_of_str file_path)) = ReplyObject metadata →
  (metadata !! KStr "category" = None →
     raised (process_file A dry_run cache file_path w).1 = Some (KeyError "category"))
  ∧ (∀ category, metadata !! KStr "category" = Some category →
       py_in_strs category ["TV Shows"; "Kids TV"] = false →
       metadata !! KStr "title" = None →
       raised (process_file A dry_run cache file_path w).1 = Some (KeyError "title")).
Proof.
  intros Hmiss Hreply.
  assert (∀ w0, (categorize_file A (path_name (path_of_str file_path))) w0
                = (Ok (Some metadata),
                   mkWorld (fs w0) (log w0)
                     (queries w0 ++ [QClassify (path_name (path_of_str file_path))])))
    as Hcat.
  { intros w0. unfold categorize_file. rewrite M_bind_unfold. unfold record_query at 1.
    by rewrite Hreply. }
  split.
  - intros Hnone. unfold process_file. rewrite M_bind_unfold. unfold logging at 1.
    rewrite M_bind_unfold. unfold obtain_metadata. rewrite Hmiss.
    rewrite M_bind_unfold, Hcat. rewrite M_bind_unfold.
    unfold lift_res at 1, dict_getitem at 1. by rewrite Hnone.
  - intros category Hsome Htv Hnone. unfold process_file.
    rewrite M_bind_unfold. unfold logging at 1.
    rewrite M_bind_unfold. unfold obtain_metadata. rewrite Hmiss.
    rewrite M_bind_unfold, Hcat. rewrite M_bind_unfold.
    unfold lift_res at 1, dict_getitem at 1. rewrite Hsome, Htv. cbn [negb].
    rewrite M_bind_unfold. unfold lift_res at 1, dict_getitem at 1. by rewrite Hnone.
Qed.

(** An exception that leaves one pass leaves the whole loop: the files
    after it are not processed. *)
Lemma process_loop_aborts A dry_run cache file_path rest w e :
  (process_file A dry_run cache file_path w).1 = Raise e →
  process_loop A dry_run cache (file_path :: rest) w
  = (Raise e, (process_file A dry_run cache file_path w).2)
  ∧ process_files A (file_path :: rest) cache dry_run w
    = (Raise e, (process_file A dry_run cache file_path w).2).
Proof.
  intros H.
  assert (process_loop A dry_run cache (file_path :: rest) w
          = (Raise e, (process_file A dry_run cache file_path w).2)) as Hloop.
  { cbn [process_loop]. rewrite M_bind_unfold.
    destruct (process_file A dry_run cache file_path w) as [r w1]. cbn in *. by subst r. }
  split; [done|].
  unfold process_files. by rewrite M_bind_unfold, Hloop.
Qed.

(** * Further properties *)

(** ** Frames *)

Section frames.
Context (R : relation world) `{!Reflexive R, !Transitive R}.

Lemma preserves_ret {A} (a : A) : preserves R (mret a).
Proof. intros w. reflexivity. Qed.

Lemma preserves_raise {A} (e : exn) : preserves R (@raise A e).
Proof. intros w. reflexivity. Qed.

Lemma preserves_lift_res {A} (r : res A) : preserves R (lift_res r).
Proof. intros w. reflexivity. Qed.

Lemma preserves_get_fs : preserves R get_fs.
Proof. intros w. reflexivity. Qed.

Lemma preserves_bind {A B} (m : M A) (f : A → M B) :
  preserves R m → (∀ a, preserves R (f a)) → preserves R (m ≫= f).
Proof.
  intros Hm Hf w. rewrite M_bind_unfold. specialize (Hm w).
  destruct (m w) as [[a|e] w1]; cbn [snd] in *; [|done].
  etrans; [exact Hm|apply Hf].
Qed.

Lemma preserves_try_except {A} (m : M A) (h : exn → M A) :
  preserves R m → (∀ e, preserves R (h e)) → preserves R (try_except m h).
Proof.
  intros Hm Hh w. rewrite try_except_unfold. specialize (Hm w).
  destruct (m w) as [[a|e] w1]; cbn [snd] in *; [done|].
  etrans; [exact Hm|apply Hh].
Qed.

Lemma preserves_try_except_ValueError {A} (m : M A) (h : exn → M A) :
  preserves R m → (∀ e, preserves R (h e)) → preserves R (try_except_ValueError m h).
Proof.
  intros Hm Hh. apply preserves_try_except; [done|].
  intros e. destruct (is_ValueError e); [apply Hh|apply preserves_raise].
Qed.

Lemma preserves_for_each {A} (l : list A) (body : A → M unit) :
  (∀ a, preserves R (body a)) → preserves R (for_each l body).
Proof.
  intros Hb. induction l as [|x l IH]; simpl.
  - apply preserves_ret.
  - apply preserves_bind; [apply Hb|done].
Qed.
End frames.

Global Instance same_fs_refl : Reflexive same_fs.
Proof. by intros w. Qed.
Global Instance same_fs_trans : Transitive same_fs.
Proof. unfold same_fs. intros w1 w2 w3 H1 H2. congruence. Qed.

Global Instance same_fs_but_refl p : Reflexive (same_fs_but p).
Proof. by intros w q. Qed.
Global Instance same_fs_but_trans p : Transitive (same_fs_but p).
Proof. intros w1 w2 w3 H1 H2 q Hq. rewrite H2, H1; done. Qed.

Lemma same_fs_same_but p w w' : same_fs w w' → same_fs_but p w w'.
Proof. intros H q _. by rewrite H. Qed.

Lemma preserves_same_fs_but {A} p (m : M A) :
  preserves same_fs m → preserves (same_fs_but p) m.
Proof. intros H w. apply same_fs_same_but, H. Qed.

Lemma same_fs_logging l msg : preserves same_fs (logging l msg).
Proof. by intros w. Qed.

Lemma same_fs_record_query q : preserves same_fs (record_query q).
Proof. by intros w. Qed.

(** A loop that only logs: one line for each item, in their order. *)
Lemma for_each_logging {A} (l : list A) (line : A → level * string) (w : world) :
  for_each l (λ x, logging (line x).1 (line x).2) w = (Ok tt, logged (line <$> l) w).
Proof.
  revert w. induction l as [|x l IH]; intros w; simpl.
  - unfold logged. rewrite app_nil_r. by destruct w.
  - rewrite M_bind_unfold. unfold logging at 1. rewrite IH.
    unfold logged. cbn [fs log queries]. destruct (line x). by rewrite <- app_assoc.
Qed.

(** ** Purging *)

Lemma fold_delete_lookup (ks : list pykey) (c : cache_table) (k : pykey) :
  fold_left (λ (c : cache_table) k, delete k c) ks c !! k
  = if bool_decide (k ∈ ks) then None else c !! k.
Proof.
  revert c. induction ks as [|x ks IH]; intros c; simpl; [done|].
  rewrite IH. destruct (decide (k = x)) as [->|Hne].
  - rewrite lookup_delete_eq. rewrite (bool_decide_eq_true_2 (x ∈ x :: ks)) by left.
    by destruct (bool_decide _).
  - rewrite lookup_delete_ne by done.
    destruct (decide (k ∈ ks)) as [Hin|Hin].
    + rewrite !bool_decide_eq_true_2; [done|by right|done].
    + rewrite !bool_decide_eq_false_2; [done| |done].
      intros [?|?]%elem_of_cons; done.
Qed.

Lemma fold_delete_size (ks : list pykey) (c : cache_table) :
  NoDup ks → (∀ k, k ∈ ks → is_Some (c !! k)) →
  length ks + size (fold_left (λ (c : cache_table) k, delete k c) ks c) = size c.
Proof.
  revert c. induction ks as [|x ks IH]; intros c Hnd Hin; simpl; [done|].
  apply NoDup_cons in Hnd as [Hx Hnd].
  destruct (Hin x) as [v Hv]; [left|].
  rewrite <- (insert_delete_id c x v Hv) at 2.
  rewrite map_size_insert_None by apply lookup_delete_eq.
  rewrite <- (IH (delete x c) Hnd); [lia|].
  intros k Hk. rewrite lookup_delete_ne; [apply Hin; by right|].
  intros ->. done.
Qed.

Lemma purge_result (cache : cache_table) (media_files : list string) (w : world) :
  let removed_files :=
    List.filter (λ k, negb (bool_decide (k ∈ KStr <$> media_files))) (map_to_list cache).*1 in
  purge_removed_files_from_cache cache media_files w
  = (Ok (fold_left (λ (c : cache_table) k, delete k c) removed_files cache),
     logged (removal_line <$> removed_files) w).
Proof.
  intros removed. unfold purge_removed_files_from_cache. fold removed.
  rewrite M_bind_unfold.
  by rewrite (for_each_logging removed removal_line).
Qed.

Lemma removed_files_spec (cache : cache_table) (media_files : list string) (k : pykey) :
  k ∈ List.filter (λ k, negb (bool_decide (k ∈ KStr <$> media_files))) (map_to_list cache).*1
  ↔ is_Some (cache !! k) ∧ k ∉ KStr <$> media_files.
Proof.
  rewrite list_elem_of_In, filter_In, <- list_elem_of_In.
  rewrite negb_true_iff, bool_decide_eq_false.
  rewrite list_elem_of_fmap. split.
  - intros [[[k' v] [-> Hkv]] Hn]. split; [|done].
    apply elem_of_map_to_list in Hkv. by exists v.
  - intros [[v Hv] Hn]. split; [|done].
    exists (k, v). split; [done|]. by apply elem_of_map_to_list.
Qed.

(** X1. Purging keeps the records of the files of the scan, drops every
    other record of the table, logs one line for each record dropped, and
    leaves the file system, the cache file included, and the record of
    remote queries as they are. *)
Theorem purge_keeps_scanned_files
    (cache : cache_table) (media_files : list string) (w : world) :
  ∃ cache' lines,
    purge_removed_files_from_cache cache media_files w = (Ok cache', logged lines w)
    ∧ (∀ f, f ∈ media_files → cache' !! KStr f = cache !! KStr f)
    ∧ (∀ k, k ∉ KStr <$> media_files → cache' !! k = None)
    ∧ (∀ k, is_Some (cache !! k) → k ∉ KStr <$> media_files → removal_line k ∈ lines)
    ∧ length lines + size cache' = size cache.
Proof.
  eexists _, _. split; [apply purge_result|].
  split; [|split; [|split]].
  - intros f Hf. rewrite fold_delete_lookup.
    rewrite bool_decide_eq_false_2; [done|].
    rewrite removed_files_spec. intros [_ Hn]. apply Hn.
    apply list_elem_of_fmap. by exists f.
  - intros k Hk. rewrite fold_delete_lookup.
    destruct (decide (is_Some (cache !! k))) as [Hs|Hs].
    + rewrite bool_decide_eq_true_2; [done|]. by apply removed_files_spec.
    + rewrite bool_decide_eq_false_2.
      * by apply eq_None_not_Some.
      * rewrite removed_files_spec. tauto.
  - intros k Hs Hk. apply list_elem_of_fmap. exists k. split; [done|].
    by apply removed_files_spec.
  - rewrite length_fmap. apply fold_delete_size.
    + apply NoDup_ListNoDup, List.NoDup_filter, NoDup_ListNoDup, NoDup_fst_map_to_list.
    + intros k Hk. by apply removed_files_spec in Hk as [? _].
Qed.

(** ** The loop over the files *)

Lemma process_file_unfold A dry_run cache file_path w :
  process_file A dry_run cache file_path w
  = match obtain_metadata A cache file_path (logged [processing_line file_path] w) with
    | (Ok (Some metadata), w1) => route_file dry_run cache file_path metadata w1
    | (Ok None, w1) => (Ok cache, w1)
    | (Raise e, w1) => (Raise e, w1)
    end.
Proof.
  unfold process_file. rewrite M_bind_unfold. unfold logging at 1.
  rewrite M_bind_unfold. fold (logged [processing_line file_path] w).
  by destruct (obtain_metadata _ _ _ _) as [[[metadata|]|e] w1].
Qed.

Lemma process_loop_cons A dry_run cache file_path rest w :
  process_loop A dry_run cache (file_path :: rest) w
  = match process_file A dry_run cache file_path w with
    | (Ok cache1, w1) => process_loop A dry_run cache1 rest w1
    | (Raise e, w1) => (Raise e, w1)
    end.
Proof. simpl. by rewrite M_bind_unfold. Qed.

Lemma process_files_unfold A media_files cache dry_run w :
  process_files A media_files cache dry_run w
  = match process_loop A dry_run cache media_files w with
    | (Ok cache1, w1) => purge_removed_files_from_cache cache1 media_files w1
    | (Raise e, w1) => (Raise e, w1)
    end.
Proof. unfold process_files. by rewrite M_bind_unfold. Qed.

(** X2. The table [process_files] ends with holds records of files of the
    scan only. *)
Theorem process_files_table_within_scan
    (A : adapters) (media_files : list string) (cache cache' : cache_table)
    (dry_run : bool) (w : world) :
  (process_files A media_files cache dry_run w).1 = Ok cache' →
  ∀ k, is_Some (cache' !! k) → k ∈ KStr <$> media_files.
Proof.
  rewrite process_files_unfold.
  destruct (process_loop _ _ _ _ _) as [[cache1|e] w1]; [|done].
  rewrite purge_result. cbn [fst]. intros [= <-] k Hk.
  rewrite fold_delete_lookup in Hk.
  destruct (decide (k ∈ KStr <$> media_files)) as [|Hn]; [done|].
  rewrite bool_decide_eq_true_2 in Hk; [by destruct Hk|].
  apply removed_files_spec. split; [|done].
  destruct (decide (is_Some (cache1 !! k))) as [|Hs]; [done|].
  rewrite bool_decide_eq_false_2 in Hk; [done|].
  rewrite removed_files_spec. tauto.
Qed.

Lemma process_files_table_within_scan_witness :
  ∃ cache',
    (process_files Rerun.services [Rerun.up_file]
       (<[KStr "gone.mkv" := Skipped.uncategorized]> {[ KStr Rerun.up_file := Rerun.up_entry ]})
       true empty_world).1 = Ok cache'
    ∧ ∀ k, is_Some (cache' !! k) → k ∈ KStr <$> [Rerun.up_file].
Proof.
  assert (raised (process_files Rerun.services [Rerun.up_file]
       (<[KStr "gone.mkv" := Skipped.uncategorized]> {[ KStr Rerun.up_file := Rerun.up_entry ]})
       true empty_world).1 = None) as H by (vm_compute; reflexivity).
  destruct (process_files _ _ _ _ _).1 as [cache'|e] eqn:Hrun; [|discriminate H].
  exists cache'. split; [reflexivity|].
  exact (process_files_table_within_scan _ _ _ _ _ _ Hrun).
Defined.

(** A file of the cache costs no query, and the table keeps its keys. *)
Lemma process_file_hit A dry_run cache file_path w :
  is_Some (cache !! KStr file_path) →
  queries (process_file A dry_run cache file_path w).2 = queries w
  ∧ ∀ cache', (process_file A dry_run cache file_path w).1 = Ok cache' →
      ∀ k, is_Some (cache !! k) → is_Some (cache' !! k).
Proof.
  intros [metadata Hm]. split.
  - rewrite process_file_queries.
    by destruct (obtain_metadata_hit A cache file_path metadata
                   (mkWorld (fs w) (log w ++ [(INFO, "Processing " +:+ file_path)]) (queries w)) Hm)
      as [_ ->].
  - intros cache' Hr k Hk.
    destruct (process_file_result A dry_run cache file_path w cache' Hr)
      as [->|(o & n & m & ->)]; [done|].
    destruct (decide (k = KStr o)) as [->|Hne].
    + rewrite lookup_insert_eq. by eexists.
    + by rewrite lookup_insert_ne.
Qed.

Lemma process_loop_hits A dry_run media_files cache w :
  (∀ f, f ∈ media_files → is_Some (cache !! KStr f)) →
  queries (process_loop A dry_run cache media_files w).2 = queries w.
Proof.
  revert cache w. induction media_files as [|f rest IH]; intros cache w Hall; [done|].
  rewrite process_loop_cons.
  destruct (process_file_hit A dry_run cache f w) as [Hq Hkeys]; [apply Hall; left|].
  destruct (process_file _ _ _ _ _) as [[cache1|e] w1]; cbn [fst snd] in *; [|done].
  rewrite IH; [done|].
  intros g Hg. apply (Hkeys cache1 eq_refl). apply Hall. by right.
Qed.

(** X3. A batch of files that all have a record in the cache asks neither
    remote service anything, whatever the records hold. *)
Theorem cached_batch_asks_nothing
    (A : adapters) (media_files : list string) (cache : cache_table)
    (dry_run : bool) (w : world) :
  (∀ f, f ∈ media_files → is_Some (cache !! KStr f)) →
  queries (process_files A media_files cache dry_run w).2 = queries w.
Proof.
  intros Hall. rewrite process_files_unfold.
  pose proof (process_loop_hits A dry_run media_files cache w Hall) as Hq.
  destruct (process_loop _ _ _ _ _) as [[cache1|e] w1]; cbn [snd] in *; [|done].
  by rewrite purge_result.
Qed.

Lemma cached_batch_asks_nothing_witness :
  queries (process_files Rerun.services [Rerun.up_file]
             {[ KStr Rerun.up_file := Rerun.up_entry ]} true empty_world).2 = [].
Proof.
  apply (cached_batch_asks_nothing Rerun.services [Rerun.up_file]
           {[ KStr Rerun.up_file := Rerun.up_entry ]} true empty_world).
  intros f ->%list_elem_of_singleton. rewrite lookup_singleton_eq. by eexists.
Defined.

(** ** Files that are skipped *)

(** The lines [categorize_file] logs for a reply that is not an object. *)
Lemma categorize_file_failed A filename w :
  (∀ d, chat_completion A filename ≠ ReplyObject d) →
  ∃ lines,
    categorize_file A filename w
    = (Ok None, mkWorld (fs w) (log w ++ lines) (queries w ++ [QClassify filename]))
    ∧ Forall (λ l, l.1 = ERROR) lines ∧ lines ≠ [].
Proof.
  intros Hno. unfold categorize_file. rewrite M_bind_unfold. unfold record_query at 1.
  destruct (chat_completion A filename) as [d| | |e].
  - by destruct (Hno d).
  - eexists [_]. split; [reflexivity|]. split; [by repeat constructor|done].
  - eexists [_; _]. rewrite M_bind_unfold. unfold logging at 1.
    rewrite M_bind_unfold. unfold logging at 1. cbn [fs log queries].
    rewrite <- app_assoc. split; [reflexivity|]. split; [by repeat constructor|done].
  - eexists [_]. split; [reflexivity|]. split; [by repeat constructor|done].
Qed.

(** X4. A file that is not in the cache and whose classification does not
    give a JSON object is skipped: one query is made, the table and the file
    system stay as they are, the last line logged is the warning, and the
    loop goes on with the next file. *)
Theorem unclassified_file_is_skipped
    (A : adapters) (dry_run : bool) (cache : cache_table) (file_path : string)
    (rest : list string) (w : world) :
  cache !! KStr file_path = None →
  (∀ d, chat_completion A (path_name (path_of_str file_path)) ≠ ReplyObject d) →
  ∃ lines,
    let w' := mkWorld (fs w) (log w ++ lines)
                (queries w ++ [QClassify (path_name (path_of_str file_path))]) in
    process_file A dry_run cache file_path w = (Ok cache, w')
    ∧ last lines = Some (WARNING, "Skipping " +:+ file_path +:+ " due to missing metadata.")
    ∧ process_loop A dry_run cache (file_path :: rest) w
      = process_loop A dry_run cache rest w'.
Proof.
  intros Hmiss Hno.
  destruct (categorize_file_failed A (path_name (path_of_str file_path))
              (logged [processing_line file_path] w) Hno) as (lines & Hc & _ & _).
  exists (processing_line file_path :: lines
          ++ [(WARNING, "Skipping " +:+ file_path +:+ " due to missing metadata.")]).
  cbn zeta.
  assert (process_file A dry_run cache file_path w
          = (Ok cache,
             mkWorld (fs w)
               (log w ++ processing_line file_path :: lines
                ++ [(WARNING, "Skipping " +:+ file_path +:+ " due to missing metadata.")])
               (queries w ++ [QClassify (path_name (path_of_str file_path))]))) as Hp.
  { rewrite process_file_unfold. unfold obtain_metadata. rewrite Hmiss.
    rewrite M_bind_unfold, Hc. rewrite M_bind_unfold. unfold logging at 1.
    cbn [fs log queries logged]. by rewrite <- !app_assoc. }
  split; [exact Hp|]. split.
  - by rewrite app_comm_cons, last_snoc.
  - by rewrite process_loop_cons, Hp.
Qed.

Lemma unclassified_file_is_skipped_witness :
  ∃ lines,
    process_loop Skipped.services true ∅ [Batch.first_file; Batch.second_file] empty_world
    = process_loop Skipped.services true ∅ [Batch.second_file]
        (mkWorld ∅ lines [QClassify "First.mkv"]).
Proof.
  destruct (unclassified_file_is_skipped Skipped.services true ∅ Batch.first_file
              [Batch.second_file] empty_world) as (lines & _ & _ & H).
  - apply lookup_empty.
  - intros d. discriminate.
  - exists lines. exact H.
Defined.

(** X5. A record whose category is null is not routed: path synthesis
    raises [ValueError], which the loop catches; the table and the file
    system stay as they are, nothing is written to the cache file, and the
    warning is logged. *)
Theorem null_category_is_skipped
    (A : adapters) (dry_run : bool) (cache : cache_table) (file_path : string)
    (metadata : dict) (title : pyval) (w w1 : world) :
  obtain_metadata A cache file_path (logged [processing_line file_path] w)
  = (Ok (Some metadata), w1) →
  metadata !! KStr "category" = Some VNone →
  metadata !! KStr "title" = Some title →
  process_file A dry_run cache file_path w
  = (Ok cache,
     logged [(WARNING, "Error moving file at original path " +:+ file_path
                       +:+ ": Category cannot be None.")] w1).
Proof.
  intros Hm Hc Ht. rewrite process_file_unfold, Hm.
  unfold route_file, try_except_ValueError. rewrite try_except_unfold.
  rewrite M_bind_unfold. unfold rename_and_move_file.
  rewrite M_bind_unfold. unfold lift_res at 1, dict_getitem at 1. rewrite Hc.
  rewrite M_bind_unfold. unfold lift_res at 1, dict_getitem at 1. rewrite Ht.
  rewrite M_bind_unfold. unfold build_destination_path. cbn [is_none].
  unfold raise. cbn [is_ValueError]. rewrite M_bind_unfold. reflexivity.
Qed.

Lemma null_category_is_skipped_witness :
  log (process_file Skipped.services true {[ KStr Batch.first_file := Skipped.uncategorized ]}
         Batch.first_file empty_world).2
  = [processing_line Batch.first_file;
     (INFO, "Using cached metadata for " +:+ Batch.first_file);
     (WARNING, "Error moving file at original path " +:+ Batch.first_file
               +:+ ": Category cannot be None.")].
Proof.
  rewrite (null_category_is_skipped Skipped.services true
             {[ KStr Batch.first_file := Skipped.uncategorized ]} Batch.first_file
             Skipped.uncategorized (VStr "First") empty_world
             (logged [processing_line Batch.first_file;
                      (INFO, "Using cached metadata for " +:+ Batch.first_file)] empty_world)).
  - reflexivity.
  - unfold obtain_metadata. rewrite lookup_singleton_eq. reflexivity.
  - reflexivity.
  - reflexivity.
Defined.

(** ** What a dry run leaves as it is *)

Create HintDb frame discriminated.

Ltac frame :=
  repeat match goal with
    | |- preserves _ (mret _) => apply preserves_ret; exact _
    | |- preserves _ (raise _) => apply preserves_raise; exact _
    | |- preserves _ (lift_res _) => apply preserves_lift_res; exact _
    | |- preserves _ get_fs => apply preserves_get_fs; exact _
    | |- preserves _ (for_each _ _) =>
        apply preserves_for_each; try exact _; intros ?
    | |- preserves _ (try_except_ValueError _ _) =>
        apply preserves_try_except_ValueError; try exact _; [|intros ?]
    | |- preserves _ (try_except _ _) =>
        apply preserves_try_except; try exact _; [|intros ?]
    | |- preserves _ (mbind _ _) => apply preserves_bind; try exact _; [|intros ?]
    | |- preserves _ (if ?b then _ else _) => destruct b
    | |- preserves _ (match ?x with _ => _ end) => destruct x
    | |- preserves _ _ => solve [auto with frame nocore]
    end.

Lemma same_fs_but_logging p l msg : preserves (same_fs_but p) (logging l msg).
Proof. by intros w q. Qed.

Lemma same_fs_but_record_query p q : preserves (same_fs_but p) (record_query q).
Proof. by intros w q'. Qed.

#[global] Hint Resolve same_fs_logging same_fs_record_query
  same_fs_but_logging same_fs_but_record_query : frame.

Lemma same_fs_categorize_file A filename : preserves same_fs (categorize_file A filename).
Proof. unfold categorize_file. frame. Qed.

Lemma same_fs_fetch_metadata_tmdb A title year is_tv :
  preserves same_fs (fetch_metadata_tmdb A title year is_tv).
Proof. unfold fetch_metadata_tmdb. frame. Qed.

#[global] Hint Resolve same_fs_categorize_file same_fs_fetch_metadata_tmdb : frame.

Lemma same_fs_obtain_metadata A cache file_path :
  preserves same_fs (obtain_metadata A cache file_path).
Proof. unfold obtain_metadata. frame. Qed.

Lemma same_fs_read_cache : preserves same_fs read_cache.
Proof. unfold read_cache. frame. Qed.

Lemma same_fs_purge cache media_files :
  preserves same_fs (purge_removed_files_from_cache cache media_files).
Proof. intros w. by rewrite purge_result. Qed.

Lemma same_fs_build_destination_path category subfolders title season :
  preserves same_fs (build_destination_path category subfolders title season true).
Proof. unfold build_destination_path. cbn [negb]. frame. Qed.

#[global] Hint Resolve same_fs_obtain_metadata same_fs_read_cache same_fs_purge
  same_fs_build_destination_path : frame.

Lemma same_fs_rename_and_move_file file_path metadata :
  preserves same_fs (rename_and_move_file file_path metadata true).
Proof. unfold rename_and_move_file. frame. Qed.

#[global] Hint Resolve same_fs_rename_and_move_file : frame.

(** A file system operation that changes one path only. *)
Lemma same_fs_but_fs_op p (op : filesystem → res filesystem) :
  (∀ f f', op f = Ok f' → ∀ q, q ≠ p → f' !! q = f !! q) →
  preserves (same_fs_but p) (fs_op op).
Proof.
  intros Hop w q Hq. rewrite fs_op_unfold.
  destruct (op (fs w)) as [f'|e] eqn:Ho; [|done].
  cbn [snd with_fs fs]. by apply (Hop _ _ Ho).
Qed.

Lemma open_truncate_other p f f' :
  open_truncate f p = Ok f' → ∀ q, q ≠ p → f' !! q = f !! q.
Proof.
  unfold open_truncate. intros H q Hq.
  destruct (f !! p) as [[c|]|]; try done;
    destruct (fs_is_dir f (path_parent p)); try done;
    injection H as <-; by rewrite lookup_insert_ne.
Qed.

Lemma open_append_other p f f' :
  open_append f p = Ok f' → ∀ q, q ≠ p → f' !! q = f !! q.
Proof.
  unfold open_append. intros H q Hq.
  destruct (f !! p) as [[c|]|]; try done.
  - by injection H as <-.
  - destruct (fs_is_dir f (path_parent p)); try done.
    injection H as <-; by rewrite lookup_insert_ne.
Qed.

Lemma file_write_other data p f f' :
  file_write data f p = Ok f' → ∀ q, q ≠ p → f' !! q = f !! q.
Proof.
  unfold file_write. intros H q Hq.
  destruct (f !! p) as [[c|]|]; try done.
  injection H as <-; by rewrite lookup_insert_ne.
Qed.

Lemma same_fs_but_write_cache_entry cache_entry :
  preserves (same_fs_but cache_path) (write_cache_entry cache_entry).
Proof.
  unfold write_cache_entry. frame;
    apply same_fs_but_fs_op; intros f1 f2 Hf;
    eauto using open_truncate_other, open_append_other, file_write_other.
Qed.

#[global] Hint Resolve same_fs_but_write_cache_entry : frame.

Lemma same_fs_but_of_same_fs {A} (m : M A) p :
  preserves same_fs m → preserves (same_fs_but p) m.
Proof. apply preserves_same_fs_but. Qed.

Lemma same_fs_but_route_file cache file_path metadata :
  preserves (same_fs_but cache_path) (route_file true cache file_path metadata).
Proof.
  unfold route_file. frame.
  apply same_fs_but_of_same_fs, same_fs_rename_and_move_file.
Qed.

Lemma same_fs_but_process_file A cache file_path :
  preserves (same_fs_but cache_path) (process_file A true cache file_path).
Proof.
  intros w. rewrite process_file_unfold.
  pose proof (same_fs_obtain_metadata A cache file_path
                (logged [processing_line file_path] w)) as Ho.
  destruct (obtain_metadata _ _ _ _) as [[[metadata|]|e] w1]; cbn [snd] in *.
  - etrans; [|apply same_fs_but_route_file]. by apply same_fs_same_but.
  - by apply same_fs_same_but.
  - by apply same_fs_same_but.
Qed.

Lemma same_fs_but_process_loop A media_files cache :
  preserves (same_fs_but cache_path) (process_loop A true cache media_files).
Proof.
  revert cache. induction media_files as [|f rest IH]; intros cache w; [done|].
  rewrite process_loop_cons.
  pose proof (same_fs_but_process_file A cache f w) as Hf.
  destruct (process_file _ _ _ _ _) as [[cache1|e] w1]; cbn [snd] in *; [|done].
  etrans; [exact Hf|apply IH].
Qed.

Lemma same_fs_but_process_files A media_files cache :
  preserves (same_fs_but cache_path) (process_files A media_files cache true).
Proof.
  intros w. rewrite process_files_unfold.
  pose proof (same_fs_but_process_loop A media_files cache w) as Hl.
  destruct (process_loop _ _ _ _ _) as [[cache1|e] w1]; cbn [snd] in *; [|done].
  etrans; [exact Hl|]. apply same_fs_same_but, same_fs_purge.
Qed.

(** A dry rescue leaves every path other than the cache file as it is. *)
Lemma dry_rescue_touches_only_cache_file
    (A : adapters) (media_files : list string) (no_cache : bool) (w : world) (p : Path) :
  p ≠ cache_path →
  fs (rescue A media_files no_cache true w).2 !! p = fs w !! p.
Proof.
  intros Hp. revert p Hp. change (same_fs_but cache_path w (rescue A media_files no_cache true w).2).
  revert w. change (preserves (same_fs_but cache_path) (rescue A media_files no_cache true)).
  unfold rescue. destruct media_files as [|f rest]; [frame|].
  apply preserves_bind; try exact _; [|intros cache].
  - destruct no_cache; [frame|].
    apply same_fs_but_of_same_fs, same_fs_read_cache.
  - apply preserves_bind; try exact _; [|intros ?; frame].
    apply same_fs_but_process_files.
Qed.

(** ** Writing a record *)

Global Instance cache_file_grows_refl : Reflexive cache_file_grows.
Proof. intros w t Ht. exists EmptyString. by rewrite str_app_empty_r. Qed.

Global Instance cache_file_grows_trans : Transitive cache_file_grows.
Proof.
  intros w1 w2 w3 H1 H2 t Ht.
  destruct (H1 t Ht) as [s1 Hs1]. destruct (H2 _ Hs1) as [s2 Hs2].
  exists (s1 +:+ s2). by rewrite <- str_app_assoc.
Qed.

Lemma cache_file_grows_same_fs w w' : same_fs w w' → cache_file_grows w w'.
Proof. intros H t Ht. exists EmptyString. by rewrite H, str_app_empty_r. Qed.

Lemma cache_file_grows_logging l msg : preserves cache_file_grows (logging l msg).
Proof. intros w. by apply cache_file_grows_same_fs. Qed.

#[global] Hint Resolve cache_file_grows_logging : frame.

Lemma cache_file_grows_fs_op (op : filesystem → res filesystem) :
  (∀ f f' t, op f = Ok f' → f !! cache_path = Some (File t) →
             ∃ s, f' !! cache_path = Some (File (t +:+ s))) →
  preserves cache_file_grows (fs_op op).
Proof.
  intros Hop w t Ht. rewrite fs_op_unfold.
  destruct (op (fs w)) as [f'|e] eqn:Ho.
  - cbn [snd with_fs fs]. by apply (Hop _ _ _ Ho).
  - exists EmptyString. by rewrite str_app_empty_r.
Qed.

Lemma cache_file_grows_open_append :
  preserves cache_file_grows (fs_op (λ f, open_append f cache_path)).
Proof.
  apply cache_file_grows_fs_op. intros f f' t H Ht. unfold open_append in H.
  rewrite Ht in H. injection H as <-. exists EmptyString. by rewrite str_app_empty_r.
Qed.

Lemma cache_file_grows_file_write data :
  preserves cache_file_grows (fs_op (λ f, file_write data f cache_path)).
Proof.
  apply cache_file_grows_fs_op. intros f f' t H Ht. unfold file_write in H.
  rewrite Ht in H. injection H as <-. exists data. by rewrite lookup_insert_eq.
Qed.

#[global] Hint Resolve cache_file_grows_open_append cache_file_grows_file_write : frame.

Lemma cache_file_grows_write_cache_entry cache_entry :
  preserves cache_file_grows (write_cache_entry cache_entry).
Proof.
  intros w t Ht. revert t Ht. fold (cache_file_grows w (write_cache_entry cache_entry w).2).
  unfold write_cache_entry. rewrite try_except_unfold.
  rewrite M_bind_unfold. unfold get_fs at 1.
  destruct (fs_exists (fs w) cache_path) eqn:Hex.
  - cbn [negb]. rewrite M_bind_unfold. unfold mret at 1, M_ret at 1.
    match goal with
    | |- cache_file_grows w (match ?m w with _ => _ end).2 =>
        assert (preserves cache_file_grows m) as Hm by frame;
        specialize (Hm w); destruct (m w) as [[[]|e] w1]
    end; cbn [snd] in *; [done|].
    etrans; [exact Hm|].
    match goal with
    | |- cache_file_grows w1 (?h w1).2 =>
        assert (preserves cache_file_grows h) as Hh by frame; apply Hh
    end.
  - intros t Ht. apply cache_file_exists in Ht. congruence.
Qed.

(** X6. Writing a record never rewrites the cache file: the text the file
    held stays, as the beginning of the text it holds afterwards, and no
    other path changes. *)
Theorem write_cache_entry_is_append_only (cache_entry : dict) (w : world) (t : string) :
  fs w !! cache_path = Some (File t) →
  (∃ s, fs (write_cache_entry cache_entry w).2 !! cache_path = Some (File (t +:+ s)))
  ∧ (∀ p, p ≠ cache_path → fs (write_cache_entry cache_entry w).2 !! p = fs w !! p).
Proof.
  intros Ht. split.
  - by apply cache_file_grows_write_cache_entry.
  - apply same_fs_but_write_cache_entry.
Qed.

Lemma write_cache_entry_is_append_only_witness :
  (∃ s, fs (write_cache_entry Rerun.up_entry (mkWorld Appended.volume [] [])).2 !! cache_path
        = Some (File (Appended.old_text +:+ s)))
  ∧ (∀ p, p ≠ cache_path →
       fs (write_cache_entry Rerun.up_entry (mkWorld Appended.volume [] [])).2 !! p
       = Appended.volume !! p).
Proof.
  apply (write_cache_entry_is_append_only Rerun.up_entry (mkWorld Appended.volume [] [])
           Appended.old_text).
  apply lookup_insert_eq.
Defined.

Lemma always_raises_bind {A B} (m : M A) (f : A → M B) :
  (∀ a, always_raises (f a)) → always_raises (m ≫= f).
Proof.
  intros Hf w. rewrite M_bind_unfold.
  destruct (m w) as [[a|e] w1]; [apply Hf|by exists e].
Qed.

Lemma write_cache_entry_key_error cache_entry w :
  cache_entry !! KStr "original_path" = None →
  (write_cache_entry cache_entry w).1 = Raise (KeyError "original_path").
Proof.
  intros Hk. unfold write_cache_entry. rewrite try_except_unfold.
  match goal with
  | |- (match ?m w with _ => _ end).1 = _ =>
      assert (always_raises m) as Hm
  end.
  { do 5 (apply always_raises_bind; intros ?).
    intros w1. rewrite M_bind_unfold. unfold lift_res at 1, dict_getitem. rewrite Hk.
    by eexists. }
  destruct (Hm w) as [e He].
  match goal with
  | |- (match ?x with _ => _ end).1 = _ => destruct x as [[[]|e'] w1]
  end; [done|].
  rewrite M_bind_unfold. unfold lift_res at 1, dict_getitem. by rewrite Hk.
Qed.

Lemma write_cache_entry_returns cache_entry w :
  is_Some (cache_entry !! KStr "original_path") →
  (write_cache_entry cache_entry w).1 = Ok tt.
Proof.
  intros [v Hk]. unfold write_cache_entry. rewrite try_except_unfold.
  match goal with
  | |- (match ?x with _ => _ end).1 = _ => destruct x as [[[]|e'] w1]
  end; [done|].
  rewrite M_bind_unfold. unfold lift_res at 1, dict_getitem. by rewrite Hk.
Qed.

(** X7. [write_cache_entry] returns normally for every record that has an
    [original_path], whatever goes wrong with the file; for a record without
    one it raises [KeyError], the error message itself needing the key. *)
Theorem write_cache_entry_raises_only_without_key (cache_entry : dict) (w : world) :
  (write_cache_entry cache_entry w).1
  = match cache_entry !! KStr "original_path" with
    | Some _ => Ok tt
    | None => Raise (KeyError "original_path")
    end.
Proof.
  destruct (cache_entry !! KStr "original_path") as [v|] eqn:Hk.
  - apply write_cache_entry_returns. by eexists.
  - by apply write_cache_entry_key_error.
Qed.

(** ** What the table records *)

(** The [try] block after a move that returned. *)
Lemma route_file_recorded dry_run cache file_path metadata new_path w :
  (rename_and_move_file file_path metadata dry_run w).1 = Ok (file_path, new_path) →
  route_file dry_run cache file_path metadata w
  = (Ok (<[KStr file_path := make_cache_entry file_path new_path metadata]> cache),
     (write_cache_entry (make_cache_entry file_path new_path metadata)
        (rename_and_move_file file_path metadata dry_run w).2).2).
Proof.
  intros Hr. unfold route_file, try_except_ValueError.
  rewrite try_except_unfold, M_bind_unfold.
  destruct (rename_and_move_file _ _ _ _) as [[moved|e] w2]; [|done].
  cbn [fst snd] in *. injection Hr as ->. cbn [fst snd].
  rewrite try_except_unfold, M_bind_unfold.
  pose proof (write_cache_entry_returns (make_cache_entry file_path new_path metadata) w2)
    as Hw.
  destruct (write_cache_entry _ _) as [[[]|e] w3].
  - reflexivity.
  - cbn [fst] in Hw. discriminate Hw; by eexists.
Qed.

(** The handler of the [try] block after a move that raised [ValueError]. *)
Lemma route_file_skipped dry_run cache file_path metadata msg w :
  (rename_and_move_file file_path metadata dry_run w).1 = Raise (ValueError msg) →
  route_file dry_run cache file_path metadata w
  = (Ok cache,
     logged [(WARNING, "Error moving file at original path " +:+ file_path +:+ ": " +:+ msg)]
       (rename_and_move_file file_path metadata dry_run w).2).
Proof.
  intros Hr. unfold route_file, try_except_ValueError.
  rewrite try_except_unfold, M_bind_unfold.
  destruct (rename_and_move_file _ _ _ _) as [[moved|e] w2]; [done|].
  cbn [fst snd] in *. injection Hr as ->. reflexivity.
Qed.

(** X8. A file whose destination could be made is recorded in the table
    under the destination that was synthesised, whether or not anything was
    moved: the outcome of the move is not looked at. This is so for a
    record whose season and episode, where an episodic category has them
    read, are integers when they pass the guard of digits; for the other
    records the conversion raises, and a dry run leaves the table as it
    is. The text of the destination is stated for a year that does not
    start with two slashes. *)
Theorem file_is_recorded_whatever_the_move
    (A : adapters) (dry_run : bool) (cache : cache_table) (file_path : string)
    (metadata : dict) (category title : pyval) (subfolders : list pyval) (w w1 : world) :
  obtain_metadata A cache file_path (logged [processing_line file_path] w)
  = (Ok (Some metadata), w1) →
  metadata !! KStr "category" = Some category →
  category ≠ VNone →
  metadata !! KStr "title" = Some title →
  subfolder_list (dict_get metadata "subfolders" (VList [])) = Some subfolders →
  year_keeps_root category (dict_get metadata "year" (VStr EmptyString)) →
  let rejected :=
    tags_rejected category (dict_get metadata "season" (VStr EmptyString))
      (dict_get metadata "episode" (VStr EmptyString)) in
  (rejected = false →
   (dry_run = false →
    ∃ f, makedirs (fs w1)
           (spec_directory category subfolders title
              (dict_get metadata "season" (VStr EmptyString))) = Ok f) →
   (process_file A dry_run cache file_path w).1
   = Ok (<[KStr file_path :=
             make_cache_entry file_path
               (routed_target file_path metadata category title subfolders) metadata]> cache))
  ∧ (rejected = true → dry_run = true →
     (process_file A dry_run cache file_path w).1 = Ok cache).
Proof.
  intros Hm Hcat Hnone Htitle Hsub _ rejected. split.
  - intros Htags Hdirs.
    rewrite process_file_unfold, Hm.
    rewrite (route_file_recorded dry_run cache file_path metadata
               (routed_target file_path metadata category title subfolders)); [done|].
    rewrite (rename_and_move_result file_path metadata category title subfolders dry_run w1)
      by done.
    destruct dry_run; [done|].
    destruct Hdirs as [f ->]; done.
  - intros Htags ->.
    rewrite process_file_unfold, Hm.
    destruct (rename_and_move_rejected file_path metadata category title subfolders true w1
                Hsub Hcat Hnone Htitle Htags) as (e & He & Hmsg).
    destruct (Hmsg eq_refl) as [msg ->].
    by rewrite (route_file_skipped true cache file_path metadata msg w1 He).
Qed.

Lemma file_is_recorded_whatever_the_move_witness :
  match (process_file Rerun.services false Vanished.cache Vanished.gone_file
           (mkWorld Scenario.movie_fs [] [])).1 with
  | Ok cache' =>
      match cache' !! KStr Vanished.gone_file with
      | Some e => e !! KStr "new_path"
                  = Some (VStr "/Volumes/HDD_RAID/Shared Media/Movies/2020 - Test Movie.mkv")
      | None => False
      end
  | Raise _ => False
  end
  ∧ Scenario.movie_fs !! path_of_str Vanished.gone_file = None.
Proof.
  split; [|by vm_compute].
  rewrite (proj1 (file_is_recorded_whatever_the_move Rerun.services false Vanished.cache
             Vanished.gone_file Scenario.movie_metadata (VStr "Movies") (VStr "Test Movie") []
             (mkWorld Scenario.movie_fs [] [])
             (logged [processing_line Vanished.gone_file;
                      (INFO, "Using cached metadata for " +:+ Vanished.gone_file)]
                (mkWorld Scenario.movie_fs [] []))
             ltac:(unfold obtain_metadata, Vanished.cache;
                   rewrite lookup_singleton_eq; reflexivity)
             eq_refl ltac:(discriminate) eq_refl eq_refl ltac:(by intros _ _))).
  - rewrite lookup_insert_eq. by vm_compute.
  - reflexivity.
  - intros _. cbn [fs logged].
    assert (raised (makedirs Scenario.movie_fs
                      (spec_directory (VStr "Movies") [] (VStr "Test Movie")
                         (dict_get Scenario.movie_metadata "season" (VStr EmptyString))))
            = None) as Hd by (vm_compute; reflexivity).
    destruct (makedirs _ _) as [f|e]; [by eexists|discriminate Hd].
Defined.

(** ** The cache file in a dry run *)

Lemma rename_and_move_dry file_path metadata w :
  fs (rename_and_move_file file_path metadata true w).2 = fs w.
Proof. apply same_fs_rename_and_move_file. Qed.

(** X9. A dry run still writes the cache file: a file that is routed gets
    a record whose new path is the destination it would have been moved to,
    after the records the file held, or after a new header line. A file is
    routed when its season and episode, where an episodic category has them
    read, are integers when they pass the guard of digits; for the other
    files the conversion raises and the dry run leaves every file as it
    is, the cache file included. The text of the destination is stated for
    a year that does not start with two slashes. *)
Theorem dry_run_appends_record
    (A : adapters) (cache : cache_table) (file_path : string)
    (metadata : dict) (category title : pyval) (subfolders : list pyval) (w w1 : world) :
  obtain_metadata A cache file_path (logged [processing_line file_path] w)
  = (Ok (Some metadata), w1) →
  metadata !! KStr "category" = Some category →
  category ≠ VNone →
  metadata !! KStr "title" = Some title →
  subfolder_list (dict_get metadata "subfolders" (VList [])) = Some subfolders →
  year_keeps_root category (dict_get metadata "year" (VStr EmptyString)) →
  let rejected :=
    tags_rejected category (dict_get metadata "season" (VStr EmptyString))
      (dict_get metadata "episode" (VStr EmptyString)) in
  let e := make_cache_entry file_path
             (routed_target file_path metadata category title subfolders) metadata in
  let w' := (process_file A true cache file_path w).2 in
  (rejected = false →
   (fs w !! cache_path = None →
      fs w' !! cache_path
      = Some (File (row_text expected_headers +:+ row_text (entry_cells e))))
   ∧ (∀ t, fs w !! cache_path = Some (File t) →
        fs w' !! cache_path = Some (File (t +:+ row_text (entry_cells e)))))
  ∧ (rejected = true → fs w' = fs w).
Proof.
  intros Hm Hcat Hnone Htitle Hsub _ rejected e w'. subst w'.
  pose proof (same_fs_obtain_metadata A cache file_path
                (logged [processing_line file_path] w)) as Hfs.
  rewrite Hm in Hfs. unfold same_fs in Hfs. cbn [snd fs logged] in Hfs.
  rewrite process_file_unfold, Hm. split.
  - intros Htags.
    rewrite (route_file_recorded true cache file_path metadata
               (routed_target file_path metadata category title subfolders))
      by (by rewrite (rename_and_move_result file_path metadata category title subfolders
                        true w1)).
    cbn [snd]. fold e.
    pose proof (write_cache_entry_file file_path
                  (routed_target file_path metadata category title subfolders) metadata
                  (rename_and_move_file file_path metadata true w1).2) as Hw.
    cbv zeta in Hw. fold e in Hw.
    rewrite rename_and_move_dry, Hfs in Hw. exact Hw.
  - intros Htags.
    destruct (rename_and_move_rejected file_path metadata category title subfolders true w1
                Hsub Hcat Hnone Htitle Htags) as (x & Hx & Hmsg).
    destruct (Hmsg eq_refl) as [msg ->].
    rewrite (route_file_skipped true cache file_path metadata msg w1 Hx).
    cbn [snd fs logged]. by rewrite rename_and_move_dry.
Qed.

Lemma dry_run_appends_record_witness :
  fs (process_file Rerun.services true Vanished.cache Vanished.gone_file empty_world).2
    !! cache_path
  = Some (File (row_text expected_headers
                +:+ row_text (entry_cells
                      (make_cache_entry Vanished.gone_file
                         (routed_target Vanished.gone_file Scenario.movie_metadata
                            (VStr "Movies") (VStr "Test Movie") [])
                         Scenario.movie_metadata)))).
Proof.
  destruct (dry_run_appends_record Rerun.services Vanished.cache Vanished.gone_file
              Scenario.movie_metadata (VStr "Movies") (VStr "Test Movie") [] empty_world
              (logged [processing_line Vanished.gone_file;
                       (INFO, "Using cached metadata for " +:+ Vanished.gone_file)] empty_world))
    as [Hrouted _].
  - unfold obtain_metadata, Vanished.cache. rewrite lookup_singleton_eq. reflexivity.
  - reflexivity.
  - discriminate.
  - reflexivity.
  - reflexivity.
  - by intros _ _.
  - destruct (Hrouted eq_refl) as [Hnew _]. apply Hnew, lookup_empty.
Defined.

(** ** Reading the cache *)

(** X10. Loading the cache never raises, whatever the cache file holds,
    changes no file and asks no remote service: it logs one line and
    returns a table, the empty one when there is no cache file. *)
Theorem read_cache_never_raises (w : world) :
  ∃ cache line,
    read_cache w = (Ok cache, logged [line] w)
    ∧ (fs w !! cache_path = None →
       cache = ∅ ∧ line = (INFO, "No cache file found. Starting with an empty cache.")).
Proof.
  unfold read_cache. rewrite M_bind_unfold. unfold get_fs at 1.
  destruct (fs w !! cache_path) as [n|] eqn:Hc.
  - rewrite (cache_file_exists _ _ Hc).
    destruct (file_read (fs w) cache_path) as [text|e].
    + destruct (read_cache_rows text) as [cache [e|]];
        eexists cache, _; (split; [reflexivity|done]).
    + eexists ∅, _. split; [reflexivity|done].
  - rewrite (cache_file_absent _ Hc).
    eexists ∅, _. split; [reflexivity|done].
Qed.

Lemma fold_insert_last (entries : list dict) (c : cache_table) (p : string) :
  fold_left (λ (c : cache_table) e, <[KStr (stored_path e) := reloaded e]> c) entries c
    !! KStr p
  = match last (records_of p entries) with
    | Some e => Some (reloaded e)
    | None => c !! KStr p
    end.
Proof.
  revert c. induction entries as [|e rest IH]; intros c; [done|].
  cbn [fold_left]. rewrite IH. unfold records_of. cbn [List.filter].
  fold (records_of p rest).
  destruct (String.eqb (stored_path e) p) eqn:He.
  - apply String.eqb_eq in He as ->.
    rewrite last_cons. destruct (last (records_of _ rest)); [done|].
    by rewrite lookup_insert_eq.
  - apply String.eqb_neq in He.
    destruct (last (records_of p rest)); [done|].
    rewrite lookup_insert_ne; [done|]. intros [= ?]. done.
Qed.

(** X11. When the cache file holds several records for a file, the one
    written last is the one that is loaded; a file without a record is not
    in the table. *)
Theorem read_cache_last_record_wins (w : world) (entries : list dict) (p : string) :
  Forall entry_fits entries →
  fs w !! cache_path = Some (File (cache_text entries)) →
  ∃ cache,
    (read_cache w).1 = Ok cache
    ∧ cache !! KStr p = reloaded <$> last (records_of p entries).
Proof.
  intros Hfit Hfile. eexists. split; [by apply read_cache_of_text|].
  unfold stored_path. rewrite (fold_insert_last entries ∅ p).
  destruct (last (records_of p entries)); [done|]. apply lookup_empty.
Qed.

Lemma read_cache_last_record_wins_witness :
  ∃ cache,
    (read_cache (mkWorld {[ cache_path := File (cache_text [Rerun.up_entry; Rerun.up_entry]) ]}
                   [] [])).1 = Ok cache
    ∧ cache !! KStr Rerun.up_file
      = reloaded <$> last (records_of Rerun.up_file [Rerun.up_entry; Rerun.up_entry]).
Proof.
  apply (read_cache_last_record_wins
           (mkWorld {[ cache_path := File (cache_text [Rerun.up_entry; Rerun.up_entry]) ]} [] [])
           [Rerun.up_entry; Rerun.up_entry] Rerun.up_file).
  - repeat constructor; by vm_compute.
  - apply lookup_singleton_eq.
Defined.

(** ** The move executor *)

Lemma for_each_nothing {A} (l : list A) (body : A → M unit) (w : world) :
  (∀ x, x ∈ l → body x w = (Ok tt, w)) → for_each l body w = (Ok tt, w).
Proof.
  induction l as [|x l IH]; intros H; [done|].
  simpl. rewrite M_bind_unfold, H by left. apply IH.
  intros y Hy. apply H. by right.
Qed.

(** X12. When no entry of the source directory has the stem of the file,
    as when the file is no longer there, nothing is moved and the move is
    still logged as done. *)
Theorem nothing_matched_is_logged_as_moved
    (src_file : string) (dest_file : Path) (w : world) (items : list Path) :
  iterdir (fs w) (path_parent (path_of_str src_file)) = Ok items →
  (∀ item, item ∈ items → path_stem item ≠ path_stem (path_of_str src_file)) →
  move_file_and_sidecars src_file dest_file w
  = (Ok tt, logged [(INFO, "Moved " +:+ src_file +:+ " to " +:+ path_str dest_file)] w).
Proof.
  intros Hlist Hnone. unfold move_file_and_sidecars.
  rewrite try_except_unfold, M_bind_unfold. unfold get_fs at 1.
  rewrite M_bind_unfold. unfold lift_res at 1. rewrite Hlist.
  rewrite M_bind_unfold, for_each_nothing; [done|].
  intros item Hitem. unfold move_sibling.
  destruct (String.eqb _ _) eqn:He; [|done].
  apply String.eqb_eq in He. by destruct (Hnone item Hitem).
Qed.

Lemma nothing_matched_is_logged_as_moved_witness :
  move_file_and_sidecars Vanished.gone_file
    (path_of_str "/Volumes/HDD_RAID/Shared Media/Movies/Gone.mkv")
    (mkWorld Scenario.movie_fs [] [])
  = (Ok tt,
     logged [(INFO, "Moved " +:+ Vanished.gone_file +:+ " to "
                    +:+ path_str (path_of_str "/Volumes/HDD_RAID/Shared Media/Movies/Gone.mkv"))]
       (mkWorld Scenario.movie_fs [] [])).
Proof.
  apply (nothing_matched_is_logged_as_moved Vanished.gone_file _
           (mkWorld Scenario.movie_fs [] [])
           [path_of_str "/Volumes/HDD_RAID/Orphaned/Test.Movie.2020.mkv";
            path_of_str "/Volumes/HDD_RAID/Orphaned/Test.Movie.2020.srt"]).
  - by vm_compute.
  - intros item Hitem.
    apply elem_of_cons in Hitem as [->|Hitem]; [by vm_compute|].
    apply list_elem_of_singleton in Hitem as ->. by vm_compute.
Defined.

(** ** The sanitizer, again *)

Lemma re_sub_class_forall cls (s : string) :
  str_forallb (λ a, negb (cls a)) (re_sub_class cls EmptyString s) = true.
Proof.
  induction s as [|a s IH]; [done|]. simpl.
  destruct (cls a) eqn:Ha; [by rewrite str_app_empty_l|].
  simpl. by rewrite Ha, IH.
Qed.

Lemma re_sub_class_app cls (s t : string) :
  re_sub_class cls EmptyString (s +:+ t)
  = re_sub_class cls EmptyString s +:+ re_sub_class cls EmptyString t.
Proof.
  induction s as [|a s IH]; [done|]. rewrite str_app_cons. simpl.
  destruct (cls a); rewrite IH; [by rewrite !str_app_empty_l|by rewrite str_app_cons].
Qed.

(** X13. Sanitizing is idempotent and goes through concatenation: a name
    put together from sanitized pieces needs no second pass. *)
Theorem sanitize_filename_idempotent (v : pyval) (s t : string) :
  sanitize_filename (VStr (sanitize_filename v)) = sanitize_filename v
  ∧ sanitize_filename (VStr (s +:+ t))
    = sanitize_filename (VStr s) +:+ sanitize_filename (VStr t).
Proof.
  split.
  - destruct v as [|z|u|l]; try done. simpl.
    apply re_sub_class_clean, re_sub_class_forall.
  - apply re_sub_class_app.
Qed.

(** ** Sequential dedupe on any value *)

Lemma dedupe_sequential_collapses (v : pyval) (l : list pyval) :
  dedupe_sequential v = Ok l → ∃ items, l = collapse_adjacent items.
Proof.
  unfold dedupe_sequential. destruct (negb (py_truthy v)).
  - intros [= <-]. by exists [].
  - destruct (py_items v) as [items|e]; [|done]. cbn.
    destruct items as [|x rest]; [done|]. intros [= <-].
    exists (x :: rest). apply (dedupe_fold x rest [] x).
Qed.

(** X14. Whatever value is given for the subfolders, a list that
    [dedupe_sequential] returns has no two equal neighbours, and a second
    pass leaves it as it is. *)
Theorem dedupe_sequential_idempotent (v : pyval) (l : list pyval) :
  dedupe_sequential v = Ok l →
  no_adjacent_dup l ∧ dedupe_sequential (VList l) = Ok l.
Proof.
  intros [items ->]%dedupe_sequential_collapses. split.
  - apply collapse_adjacent_no_dup.
  - rewrite dedupe_sequential_list. f_equal.
    apply collapse_adjacent_fixed, collapse_adjacent_no_dup.
Qed.

Lemma dedupe_sequential_idempotent_witness :
  no_adjacent_dup [VStr "A"; VStr "B"; VStr "A"]
  ∧ dedupe_sequential (VList [VStr "A"; VStr "B"; VStr "A"])
    = Ok [VStr "A"; VStr "B"; VStr "A"].
Proof.
  apply (dedupe_sequential_idempotent (VList [VStr "A"; VStr "B"; VStr "B"; VStr "A"])).
  reflexivity.
Defined.

Lemma str_chars_truthy (s : string) :
  py_truthy (VList (str_chars s)) = py_truthy (VStr s).
Proof. by destruct s. Qed.

Lemma dedupe_sequential_str (s : string) :
  dedupe_sequential (VStr s) = dedupe_sequential (VList (str_chars s)).
Proof.
  unfold dedupe_sequential. rewrite str_chars_truthy.
  by destruct (negb (py_truthy (VStr s))).
Qed.

(** X15. Subfolders given as one string instead of an array are taken
    character by character: the destination is the one for the array of
    the characters of the string. *)
Theorem string_subfolders_split_in_characters
    (category title season : pyval) (s : string) (dry_run : bool) :
  build_destination_path category (VStr s) title season dry_run
  = build_destination_path category (VList (str_chars s)) title season dry_run.
Proof.
  unfold build_destination_path.
  by rewrite dedupe_sequential_str, str_chars_truthy.
Qed.

(** ** The components of a destination *)

Lemma none_or_not (v : pyval) : v = VNone ∨ v ≠ VNone.
Proof. destruct v; (by left) || (by right). Qed.

Lemma str_mem_season_folder c n :
  c ∈ forbidden_chars → str_mem c ("Season " +:+ format_02d n) = false.
Proof.
  intros Hc. rewrite str_mem_app, format_02d_chars.
  - rewrite orb_false_r. revert c Hc. by apply Forall_forall; repeat constructor.
  - revert c Hc. by apply Forall_forall; repeat constructor.
  - revert c Hc. by apply Forall_forall; repeat constructor.
Qed.

Lemma directory_segments_forbidden category subfolders title season :
  Forall (λ s, ∀ c, c ∈ forbidden_chars → str_mem c s = false)
    (directory_segments category subfolders title season).
Proof.
  unfold directory_segments. constructor; [intros c; apply sanitize_no_forbidden|].
  apply Forall_app. split.
  - apply Forall_fmap, Forall_forall. intros v _ c. apply sanitize_no_forbidden.
  - destruct (_ && _); [|constructor].
    apply Forall_app. split.
    + destruct subfolders; repeat constructor. intros c. apply sanitize_no_forbidden.
    + destruct (integer_of season); repeat constructor.
      intros c. apply str_mem_season_folder.
Qed.

Lemma spec_directory_clean category subfolders title season :
  ∃ segs,
    spec_directory category subfolders title season = mkPath true (root_parts ++ segs)
    ∧ Forall clean_segment segs.
Proof.
  eexists. split; [reflexivity|].
  apply Forall_forall. intros s Hs%list_elem_of_In%filter_In.
  destruct Hs as [Hs Hp%Is_true_true_2]. split; [by apply Is_true_true_1|].
  pose proof (directory_segments_forbidden category subfolders title season) as Hf.
  rewrite Forall_forall in Hf. apply Hf. by apply list_elem_of_In.
Qed.

(** X16. A destination directory is the media root followed by clean
    components only: none is empty or a single dot, and none holds one of
    the nine characters, whatever the classification supplied. *)
Theorem destination_components_are_clean
    (category supplied : pyval) (subfolders : list pyval) (title season : pyval)
    (dry_run : bool) (w : world) (d : Path) :
  subfolder_list supplied = Some subfolders →
  (build_destination_path category supplied title season dry_run w).1 = Ok d →
  ∃ segs, d = mkPath true (root_parts ++ segs) ∧ Forall clean_segment segs.
Proof.
  intros Hs Hd.
  destruct (destination_follows_rule category supplied subfolders title season dry_run w Hs)
    as [Hnone Hsome].
  destruct (none_or_not category) as [Hc|Hc].
  - rewrite (Hnone Hc) in Hd. done.
  - rewrite (Hsome Hc) in Hd. cbv zeta in Hd.
    destruct (episodic category && py_truthy title && digits_rejected season); [done|].
    destruct (spec_directory_clean category subfolders title season) as (segs & Heq & Hclean).
    exists segs. split; [|done]. rewrite <- Heq.
    destruct dry_run; [by injection Hd as <-|].
    destruct (makedirs _ _); [by injection Hd as <-|done].
Qed.

Lemma destination_components_are_clean_witness :
  ∃ segs,
    mkPath true ["Volumes"; "HDD_RAID"; "Shared Media"; "TV Shows"; "AB"; "AB"; "Season 01"]
    = mkPath true (root_parts ++ segs) ∧ Forall clean_segment segs.
Proof.
  apply (destination_components_are_clean (VStr "TV Shows")
           (VList [VStr "A/B"; VStr "."; VStr "A/B"]) [VStr "A/B"; VStr "."; VStr "A/B"]
           (VStr "Test Show") (VStr "1") true empty_world).
  - reflexivity.
  - by vm_compute.
Defined.

(** ** The directories a run makes *)

Lemma makedirs_from_spec (f : filesystem) abs above todo f' :
  makedirs_from f abs above todo = Ok f' →
  (∀ p n, f !! p = Some n → f' !! p = Some n)
  ∧ (∀ p, f !! p = None → f' !! p = None ∨ f' !! p = Some Dir)
  ∧ (∀ k, 0 < k ≤ length todo → f' !! mkPath abs (above ++ take k todo) = Some Dir).
Proof.
  revert f above. induction todo as [|x todo IH]; intros f above H.
  - injection H as <-. split; [done|]. split; [by left|]. simpl. lia.
  - simpl in H.
    assert (∀ g, makedirs_from g abs (above ++ [x]) todo = Ok f' →
                 g !! mkPath abs (above ++ [x]) = Some Dir →
                 ∀ k, 0 < k ≤ length (x :: todo) →
                      f' !! mkPath abs (above ++ take k (x :: todo)) = Some Dir) as Hdir.
    { intros g Hg Hx k Hk. destruct k as [|k]; [lia|]. simpl.
      destruct (IH _ _ Hg) as (Keep & _ & Dirs).
      destruct k as [|k].
      - rewrite take_0. by apply Keep.
      - rewrite (app_assoc above [x] (take (S k) todo) : above ++ x :: take (S k) todo = _).
        apply Dirs. simpl in Hk. lia. }
    destruct (f !! mkPath abs (above ++ [x])) as [[c|]|] eqn:Hx; [done| |].
    + destruct (IH _ _ H) as (Keep & New & _). split; [done|]. split; [done|].
      exact (Hdir f H Hx).
    + destruct (IH _ _ H) as (Keep & New & _). split; [|split].
      * intros p n Hp. apply Keep. rewrite lookup_insert_ne; [done|]. congruence.
      * intros p Hp. destruct (decide (p = mkPath abs (above ++ [x]))) as [->|Hne].
        -- right. apply Keep. by rewrite lookup_insert_eq.
        -- apply New. by rewrite lookup_insert_ne.
      * apply (Hdir _ H). by rewrite lookup_insert_eq.
Qed.

Lemma makedirs_spec (f : filesystem) (p : Path) f' :
  makedirs f p = Ok f' →
  (∀ q n, f !! q = Some n → f' !! q = Some n)
  ∧ (∀ q, f !! q = None → f' !! q = None ∨ f' !! q = Some Dir)
  ∧ (parts p ≠ [] → f' !! p = Some Dir).
Proof.
  unfold makedirs. intros H.
  destruct (makedirs_from_spec _ _ _ _ _ H) as (Keep & New & Dirs).
  split; [done|]. split; [done|]. intros Hne.
  specialize (Dirs (length (parts p))). rewrite firstn_all in Dirs.
  destruct p as [a ps]. cbn [absolute parts] in *. apply Dirs.
  destruct ps; [done|]. simpl. lia.
Qed.

(** X17. A run that is not dry makes the destination directory with the
    directories above it, and nothing else: on return the destination is a
    directory, every entry there was is still what it was, and every new
    entry is a directory. *)
Theorem destination_is_created
    (category supplied : pyval) (subfolders : list pyval) (title season : pyval)
    (w : world) (d : Path) :
  subfolder_list supplied = Some subfolders →
  (build_destination_path category supplied title season false w).1 = Ok d →
  let w' := (build_destination_path category supplied title season false w).2 in
  fs w' !! d = Some Dir
  ∧ (∀ p n, fs w !! p = Some n → fs w' !! p = Some n)
  ∧ (∀ p, fs w !! p = None → fs w' !! p = None ∨ fs w' !! p = Some Dir).
Proof.
  intros Hs Hd.
  destruct (destination_follows_rule category supplied subfolders title season false w Hs)
    as [Hnone Hsome].
  destruct (none_or_not category) as [Hc|Hc].
  { rewrite (Hnone Hc) in Hd. done. }
  rewrite (Hsome Hc) in Hd |- *. cbv zeta in Hd |- *.
  destruct (episodic category && py_truthy title && digits_rejected season); [done|].
  destruct (makedirs _ _) as [f'|e] eqn:Hm; [|done].
  injection Hd as <-. cbn [snd fs with_fs].
  destruct (makedirs_spec _ _ _ Hm) as (Keep & New & Made).
  split; [|done]. apply Made. unfold spec_directory. by cbn [parts].
Qed.

Lemma destination_is_created_witness :
  fs (build_destination_path (VStr "Movies") (VList [VStr "Pixar"]) (VStr "Up") VNone false
        (mkWorld Scenario.movie_fs [] [])).2
    !! mkPath true ["Volumes"; "HDD_RAID"; "Shared Media"; "Movies"; "Pixar"]
  = Some Dir.
Proof.
  destruct (destination_is_created (VStr "Movies") (VList [VStr "Pixar"]) [VStr "Pixar"]
              (VStr "Up") VNone (mkWorld Scenario.movie_fs [] [])
              (mkPath true ["Volumes"; "HDD_RAID"; "Shared Media"; "Movies"; "Pixar"]))
    as [H _].
  - reflexivity.
  - assert (raised (build_destination_path (VStr "Movies") (VList [VStr "Pixar"]) (VStr "Up")
                      VNone false (mkWorld Scenario.movie_fs [] [])).1 = None) as Hr
      by (vm_compute; reflexivity).
    destruct (destination_follows_rule (VStr "Movies") (VList [VStr "Pixar"]) [VStr "Pixar"]
                (VStr "Up") VNone false (mkWorld Scenario.movie_fs [] []) eq_refl) as [_ Hrule].
    rewrite Hrule in Hr |- * by discriminate. cbv zeta in Hr |- *.
    change (episodic (VStr "Movies")) with false in Hr |- *. cbn [andb] in Hr |- *.
    destruct (makedirs _ _); [reflexivity|discriminate Hr].
  - exact H.
Defined.

(** ** Enrichment *)

(** X18. For a file that is classified outside the two TV categories and
    that the film data base knows, the first search result overrides the
    classifier: the title becomes the result's title, when it has one, and
    the year the first four characters of its release date, the empty
    string when it has none. The other fields of the classification stay. *)
Theorem enrichment_overrides_title_and_year
    (A : adapters) (cache : cache_table) (file_path : string)
    (metadata result : dict) (rest : list dict) (category title : pyval) (date : string)
    (w : world) :
  cache !! KStr file_path = None →
  chat_completion A (path_name (path_of_str file_path)) = ReplyObject metadata →
  metadata !! KStr "category" = Some category →
  py_in_strs category ["TV Shows"; "Kids TV"] = false →
  metadata !! KStr "title" = Some title →
  tmdb_get A "movie" title (year_param metadata) = TmdbResults (result :: rest) →
  result ≠ ∅ →
  dict_get result "release_date" (VStr EmptyString) = VStr date →
  (obtain_metadata A cache file_path w).1
  = Ok (Some (<[KStr "title" := dict_get result "title" title]>
                (<[KStr "year" := VStr (str_take 4 date)]> metadata))).
Proof.
  intros Hmiss Hreply Hcat Htv Htitle Hfind Hne Hdate.
  unfold obtain_metadata. rewrite Hmiss.
  rewrite M_bind_unfold. unfold categorize_file.
  rewrite M_bind_unfold. unfold record_query at 1. rewrite Hreply.
  unfold mret at 1, M_ret at 1.
  rewrite M_bind_unfold. unfold lift_res at 1, dict_getitem at 1. rewrite Hcat, Htv.
  cbn [negb].
  rewrite M_bind_unfold. unfold lift_res at 1, dict_getitem at 1. rewrite Htitle.
  rewrite M_bind_unfold. unfold fetch_metadata_tmdb.
  rewrite M_bind_unfold. unfold record_query at 1.
  fold (year_param metadata). rewrite Hfind.
  unfold mret at 1, M_ret at 1.
  rewrite bool_decide_eq_false_2 by done.
  rewrite M_bind_unfold. unfold lift_res at 1, update_metadata_with_tmdb.
  rewrite Hdate. cbn [slice_4 mbind res_bind].
  unfold dict_getitem. rewrite lookup_insert_ne by done. rewrite Htitle.
  reflexivity.
Qed.

Lemma enrichment_overrides_title_and_year_witness :
  match (obtain_metadata Enriched.services ∅ Enriched.file empty_world).1 with
  | Ok (Some metadata) =>
      metadata !! KStr "title" = Some (VStr "Alien")
      ∧ metadata !! KStr "year" = Some (VStr "1979")
  | _ => False
  end.
Proof.
  rewrite (enrichment_overrides_title_and_year Enriched.services ∅ Enriched.file
             Enriched.reply Enriched.result [] (VStr "Movies") (VStr "alien") "1979-05-25"
             empty_world).
  - split; [by rewrite lookup_insert_eq|].
    rewrite lookup_insert_ne by done. by rewrite lookup_insert_eq.
  - apply lookup_empty.
  - reflexivity.
  - reflexivity.
  - reflexivity.
  - reflexivity.
  - reflexivity.
  - intros H. apply (f_equal (λ m : dict, m !! KStr "title")) in H.
    revert H. by vm_compute.
  - reflexivity.
Defined.

(** ** The generated name as a path component *)








(** ** Video files and their extension *)

Lemma str_lower_length (s : string) : String.length (str_lower s) = String.length s.
Proof. induction s; simpl; congruence. Qed.

Lemma str_lower_drop n (s : string) : str_lower (str_drop n s) = str_drop n (str_lower s).
Proof.
  revert s. induction n as [|n IH]; intros s; [by destruct s|].
  destruct s; [done|]. simpl. apply IH.
Qed.

Lemma str_take_drop n (s : string) : str_take n s +:+ str_drop n s = s.
Proof.
  revert s. induction n as [|n IH]; intros s; [by destruct s|].
  destruct s; [done|]. cbn [str_take str_drop]. by rewrite str_app_cons, IH.
Qed.

Lemma str_take_length n (s : string) :
  n ≤ String.length s → String.length (str_take n s) = n.
Proof.
  revert s. induction n as [|n IH]; intros s Hn; [by destruct s|].
  destruct s; simpl in *; [lia|]. rewrite IH; lia.
Qed.

(** The last occurrence of a character, for a string cut after it. *)
Lemma str_rfind_app c (pre rest : string) :
  str_mem c rest = false →
  str_rfind c (pre +:+ String c rest) = Some (String.length pre).
Proof.
  intros Hr.
  assert (str_rfind c rest = None) as Hn.
  { induction rest as [|a rest IH]; [done|]. simpl in *.
    apply orb_false_iff in Hr as [Ha Hr]. rewrite (IH Hr).
    destruct (ascii_eqb a c) eqn:Hac; [|done].
    apply ascii_eqb_true in Hac as ->. by rewrite ascii_eqb_refl in Ha. }
  induction pre as [|a pre IH].
  - rewrite str_app_empty_l. simpl. by rewrite Hn, ascii_eqb_refl.
  - rewrite str_app_cons. simpl. by rewrite IH.
Qed.

Lemma char_lower_dot a : char_lower a = Chars.dot → a = Chars.dot.
Proof.
  unfold char_lower. destruct (_ || _) eqn:Hc; [|done].
  intros H. apply (f_equal nat_of_ascii) in H.
  pose proof (nat_ascii_bounded a) as Hb.
  assert (65 ≤ nat_of_ascii a ≤ 222) as Hr.
  { apply orb_true_iff in Hc as [[?%Nat.leb_le ?%Nat.leb_le]%andb_true_iff|Hc]; [lia|].
    apply andb_true_iff in Hc as [[?%Nat.leb_le ?%Nat.leb_le]%andb_true_iff _]. lia. }
  rewrite nat_ascii_embedding in H by lia.
  change (nat_of_ascii Chars.dot) with 46 in H. lia.
Qed.

Lemma str_lower_no_dot (s : string) :
  str_mem Chars.dot (str_lower s) = false → str_mem Chars.dot s = false.
Proof.
  induction s as [|a s IH]; [done|]. simpl.
  intros [Ha Hs]%orb_false_iff. apply orb_false_iff. split; [|by apply IH].
  apply ascii_eqb_false. intros <-. by rewrite ascii_eqb_refl in Ha.
Qed.

Lemma video_extension_shape (ext : string) :
  ext ∈ VIDEO_EXTENSIONS →
  ∃ rest, ext = String Chars.dot rest ∧ str_mem Chars.dot rest = false
          ∧ String.length rest = 3.
Proof.
  intros H. repeat (apply elem_of_cons in H as [->|H]; [by eexists|]).
  by apply elem_of_nil in H.
Qed.

(** X20. A file name that [is_video_file] accepts and that is more than
    the bare extension has, for [pathlib], a suffix that is one of the five
    video extensions up to the case of its letters; the suffix is the one
    the generated name keeps. *)
Theorem video_file_has_video_suffix (name : string) :
  is_video_file name = true →
  4 < String.length name →
  str_mem Chars.slash name = false →
  str_lower (path_suffix (path_of_str name)) ∈ VIDEO_EXTENSIONS
  ∧ ∃ stem, name = stem +:+ path_suffix (path_of_str name).
Proof.
  intros Hv Hlen Hslash.
  unfold is_video_file in Hv. apply existsb_exists in Hv as (ext & Hext%list_elem_of_In & He).
  destruct (video_extension_shape ext Hext) as (rest & -> & Hrest & Hlr).
  unfold str_endswith in He. apply andb_true_iff in He as [_ He%String.eqb_eq].
  rewrite str_lower_length in He. cbn [String.length] in He. rewrite Hlr in He.
  rewrite <- str_lower_drop in He.
  set (n := String.length name - 4) in *.
  assert (path_name (path_of_str name) = name) as Hname.
  { rewrite path_of_str_segment by done. unfold proper_segment.
    destruct name as [|a [|b name]]; simpl in Hlen; try lia.
    assert ((String a (String b name) =? ".")%string = false) as ->
      by (simpl; by destruct (Ascii.eqb a _)).
    done. }
  pose proof (str_take_drop n name) as Hsplit.
  destruct (str_drop n name) as [|d tail] eqn:Hd; [done|].
  simpl in He. injection He as Hdot Htail.
  apply char_lower_dot in Hdot as ->.
  assert (str_mem Chars.dot tail = false) as Hnd
    by (apply str_lower_no_dot; by rewrite Htail).
  assert (String.length tail = 3) as Hlt
    by (by rewrite <- (str_lower_length tail), Htail).
  assert (String.length (str_take n name) = n) as Hln
    by (apply str_take_length; unfold n; lia).
  assert (suffix_index name = Some n) as Hidx.
  { unfold suffix_index. rewrite <- Hsplit at 1.
    rewrite (str_rfind_app _ _ _ Hnd), Hln.
    assert ((0 <? n) = true) as -> by (apply Nat.ltb_lt; unfold n; lia).
    assert ((n <? String.length name - 1) = true) as ->
      by (apply Nat.ltb_lt; unfold n; lia).
    done. }
  unfold path_suffix. rewrite Hname, Hidx, Hd. split.
  - simpl. rewrite Htail.
    assert (char_lower Chars.dot = Chars.dot) as -> by reflexivity. done.
  - exists (str_take n name). by rewrite Hsplit.
Qed.

Lemma video_file_has_video_suffix_witness :
  str_lower (path_suffix (path_of_str "Test.Movie.2020.MKV")) ∈ VIDEO_EXTENSIONS
  ∧ ∃ stem, "Test.Movie.2020.MKV" = stem +:+ path_suffix (path_of_str "Test.Movie.2020.MKV").
Proof.
  apply (video_file_has_video_suffix "Test.Movie.2020.MKV").
  - reflexivity.
  - simpl. lia.
  - reflexivity.
Defined.

(** ** Chunks of titles *)

Lemma range_from_chunks {A} (l : list A) (n fuel start : nat) :
  0 < n → length l - start ≤ fuel →
  concat ((λ i, take n (drop i l)) <$> range_from fuel start (length l) n) = drop start l
  ∧ Forall (λ c, 0 < length c ≤ n)
      ((λ i, take n (drop i l)) <$> range_from fuel start (length l) n).
Proof.
  intros Hn. revert start. induction fuel as [|fuel IH]; intros start Hfuel.
  - simpl. split; [|constructor]. symmetry. apply drop_ge. lia.
  - simpl. destruct (start <? length l) eqn:Hlt.
    + apply Nat.ltb_lt in Hlt. destruct (IH (start + n)) as [Hc Hf]; [lia|].
      rewrite fmap_cons. split.
      * cbn [concat]. rewrite Hc, <- drop_drop. apply take_drop.
      * constructor; [|done]. rewrite length_take, length_drop. lia.
    + apply Nat.ltb_ge in Hlt. simpl. split; [|constructor].
      symmetry. by apply drop_ge.
Qed.

(** X21. The titles are handed to the grouping service in chunks that
    together are the list of titles, in its order: no title is left out or
    asked twice, and every chunk has at least one title and at most 500. *)
Theorem title_chunks_partition (titles : list string) :
  concat (title_chunks titles) = titles
  ∧ Forall (λ chunk, 0 < length chunk ≤ max_files_to_think_of_at_once) (title_chunks titles).
Proof.
  unfold title_chunks, py_range.
  destruct (range_from_chunks titles max_files_to_think_of_at_once (length titles) 0)
    as [Hc Hf]; [unfold max_files_to_think_of_at_once; lia|lia|].
  split; [exact Hc|exact Hf].
Qed.

(** ** Asking for groupings *)

Lemma logged_logged l1 l2 w : logged l2 (logged l1 w) = logged (l1 ++ l2) w.
Proof. unfold logged. cbn [fs log queries]. by rewrite app_assoc. Qed.

Lemma bind_logging {A} l msg (k : M A) w :
  (logging l msg ≫= λ _, k) w = k (logged [(l, msg)] w).
Proof. by rewrite M_bind_unfold. Qed.

Lemma get_grouping_data_result G category chunk w :
  ∃ lines,
    get_grouping_data_from_api G category chunk w
    = (Ok (match G category chunk with
           | GroupingObject _ _ groupings => Some groupings
           | _ => None
           end), logged lines w).
Proof.
  unfold get_grouping_data_from_api. cbv zeta.
  destruct (G category chunk) as [raw shown g|raw shown|raw err|e];
    rewrite !bind_logging, ?logged_logged; eexists; reflexivity.
Qed.

Lemma collect_groupings_result G category chunks groupings w :
  ∃ lines,
    collect_groupings G category chunks groupings w
    = (match head (omap (chunk_failure G category) chunks) with
       | Some e => Raise e
       | None => Ok (groupings ++ concat (chunk_groupings G category <$> chunks))
       end, logged lines w).
Proof.
  revert groupings w. induction chunks as [|chunk chunks IH]; intros groupings w.
  - exists []. simpl. unfold logged. rewrite !app_nil_r. by destruct w.
  - cbn [collect_groupings omap list_omap fmap list_fmap concat]. rewrite M_bind_unfold.
    destruct (get_grouping_data_result G category chunk w) as [l1 ->].
    unfold chunk_failure at 1, chunk_groupings at 1.
    destruct (G category chunk) as [raw shown [|found|type_name]| | |];
      rewrite M_bind_unfold; unfold lift_res, extend_groupings, mret, M_ret;
      cbn [head];
      try (match goal with
           | |- context [collect_groupings G category chunks ?g ?w1] =>
               destruct (IH g w1) as [l2 ->]
           end;
           exists (l1 ++ l2); rewrite logged_logged; cbn [app];
           rewrite <- ?app_assoc; reflexivity).
    by exists l1.
Qed.

Lemma get_groupings_result G category files w :
  ∃ lines,
    get_groupings_from_titles G category files w
    = (let chunks := title_chunks ((λ f, path_stem (path_of_str f)) <$> files) in
       match head (omap (chunk_failure G category) chunks) with
       | Some e => Raise e
       | None => Ok (concat (chunk_groupings G category <$> chunks))
       end, logged lines w).
Proof.
  unfold get_groupings_from_titles.
  destruct (collect_groupings_result G category
              (title_chunks ((λ f, path_stem (path_of_str f)) <$> files)) [] w) as [lines ->].
  by exists lines.
Qed.

(** X22. The groupings are asked for chunk by chunk and put together in
    the order of the chunks. A chunk whose answer is not a JSON object, or
    whose request fails, adds nothing and does not stop the others, and
    neither does an object without the entry [groupings]. The first chunk
    whose answer is an object with an entry that cannot be iterated over
    (null, a number, a truth value) ends the loop with [TypeError]; when
    there is none the function returns. Nothing but the log is changed. *)
Theorem failed_chunks_add_nothing
    (G : grouping_service) (category : string) (files : list string) (w : world) :
  let chunks := title_chunks ((λ f, path_stem (path_of_str f)) <$> files) in
  ∃ lines,
    get_groupings_from_titles G category files w
    = (match head (omap (chunk_failure G category) chunks) with
       | Some e => Raise e
       | None => Ok (concat (chunk_groupings G category <$> chunks))
       end, logged lines w).
Proof. apply get_groupings_result. Qed.

(** ** A dry reorganization *)

Lemma same_fs_get_groupings G category files :
  preserves same_fs (get_groupings_from_titles G category files).
Proof.
  intros w. destruct (get_groupings_result G category files w) as [lines ->]. done.
Qed.

Lemma same_fs_move_to_group group_path file_path :
  preserves same_fs (move_to_group true group_path file_path).
Proof. unfold move_to_group. frame. Qed.

#[global] Hint Resolve same_fs_get_groupings same_fs_move_to_group : frame.

Lemma same_fs_move_files_to_groupings groupings files category :
  preserves same_fs (move_files_to_groupings groupings files category true).
Proof. unfold move_files_to_groupings. cbn [negb]. frame. Qed.

#[global] Hint Resolve same_fs_move_files_to_groupings : frame.

Lemma same_fs_reorganize_catalog G media_catalog :
  preserves same_fs (reorganize_catalog G media_catalog true).
Proof. unfold reorganize_catalog. frame. Qed.

#[global] Hint Resolve same_fs_reorganize_catalog : frame.

(** ** Moves into a group *)

Lemma move_to_group_result group_path file_path w :
  ∃ line,
    move_to_group false group_path file_path w
    = (Ok tt, mkWorld (attempt_move group_path (fs w) file_path) (log w ++ [line]) (queries w)).
Proof.
  unfold move_to_group, attempt_move. rewrite try_except_unfold, M_bind_unfold, fs_op_unfold.
  destruct (shutil_move _ _ _) as [f'|e]; eexists; reflexivity.
Qed.

Lemma move_loop_result group_path files w :
  ∃ lines,
    for_each files (move_to_group false group_path) w
    = (Ok tt, mkWorld (fold_left (attempt_move group_path) files (fs w))
                (log w ++ lines) (queries w))
    ∧ length lines = length files.
Proof.
  revert w. induction files as [|file files IH]; intros w.
  - exists []. cbn [for_each fold_left flat_map]. rewrite app_nil_r. by destruct w.
  - cbn [for_each fold_left flat_map]. rewrite M_bind_unfold.
    destruct (move_to_group_result group_path file w) as [line ->].
    destruct (IH (mkWorld (attempt_move group_path (fs w) file) (log w ++ [line]) (queries w)))
      as (lines & -> & Hlen).
    exists (line :: lines). cbn [fs log queries]. rewrite <- app_assoc.
    split; [done|]. simpl. by rewrite Hlen.
Qed.

Lemma title_loop_result group_path files titles w :
  ∃ lines,
    for_each titles (λ title,
      for_each (matched_files files title) (move_to_group false group_path)) w
    = (Ok tt, mkWorld (fold_left (attempt_move group_path)
                         (flat_map (matched_files files) titles) (fs w))
                (log w ++ lines) (queries w))
    ∧ length lines = length (flat_map (matched_files files) titles).
Proof.
  revert w. induction titles as [|title titles IH]; intros w.
  - exists []. cbn [for_each fold_left flat_map]. rewrite app_nil_r. by destruct w.
  - cbn [for_each fold_left flat_map]. rewrite M_bind_unfold.
    destruct (move_loop_result group_path (matched_files files title) w) as (l1 & -> & H1).
    match goal with
    | |- context [for_each titles ?body ?w1] => destruct (IH w1) as (l2 & -> & H2)
    end.
    exists (l1 ++ l2). cbn [fs log queries].
    rewrite fold_left_app, <- app_assoc. split; [done|].
    rewrite !length_app. lia.
Qed.

(** X23. In the grouping loop every move stands for itself: for a group
    with a name and an array of titles whose folder can be made, each file
    whose stem is one of the titles is attempted, in the order of the titles
    and then of the files; a move that fails is logged and leaves the file
    system to the next one as it was. One line is logged for each attempt,
    and the function returns. *)
Theorem grouping_moves_are_independent
    (group : dict) (group_name : pyval) (titles : list pyval) (files : list string)
    (category : string) (w : world) (made : filesystem) :
  dict_get group "group_name" VNone = group_name →
  py_truthy group_name = true →
  dict_get group "titles" (VList []) = VList titles →
  titles ≠ [] →
  makedirs (fs w) (group_folder category group_name) = Ok made →
  let attempted := flat_map (matched_files files) titles in
  ∃ lines,
    move_files_to_groupings [GroupObject group] files category false w
    = (Ok tt,
       mkWorld (fold_left (attempt_move (group_folder category group_name)) attempted made)
         (log w ++ lines) (queries w))
    ∧ length lines = length attempted.
Proof.
  intros Hname Htruthy Htitles Hne Hmade attempted.
  unfold move_files_to_groupings. cbn [for_each].
  rewrite !M_bind_unfold. unfold lift_res at 1. cbn [group_get].
  rewrite M_bind_unfold. unfold lift_res at 1. cbn [group_get].
  rewrite Hname, Htitles, Htruthy.
  assert (py_truthy (VList titles) = true) as -> by by destruct titles.
  cbn [negb orb]. rewrite !M_bind_unfold, fs_op_unfold, Hmade.
  unfold lift_res at 1. cbn [py_iter]. rewrite ?M_bind_unfold.
  destruct (title_loop_result (group_folder category group_name) files titles
              (with_fs made w)) as (lines & -> & Hlen).
  exists lines. split; [reflexivity|exact Hlen].
Qed.

Lemma grouping_moves_are_independent_witness :
  ∃ made lines,
    move_files_to_groupings [GroupObject Grouped.group] Grouped.files "Anime" false
      (mkWorld Grouped.library [] [])
    = (Ok tt,
       mkWorld (fold_left (attempt_move (group_folder "Anime" (VStr "Films")))
                  Grouped.files made) lines [])
    ∧ length lines = 3.
Proof.
  assert (raised (makedirs Grouped.library (group_folder "Anime" (VStr "Films"))) = None)
    as Hd by (vm_compute; reflexivity).
  destruct (makedirs Grouped.library (group_folder "Anime" (VStr "Films")))
    as [made|e] eqn:Hmade; [|discriminate Hd].
  destruct (grouping_moves_are_independent Grouped.group (VStr "Films")
              [VStr "Lost"; VStr "Akira"; VStr "Paprika"] Grouped.files "Anime"
              (mkWorld Grouped.library [] []) made) as (lines & Hrun & Hlen).
  - reflexivity.
  - reflexivity.
  - reflexivity.
  - discriminate.
  - exact Hmade.
  - exists made, lines. split; [exact Hrun|exact Hlen].
Defined.

Example grouping_moves_after_a_failure :
  let w := (move_files_to_groupings [GroupObject Grouped.group] Grouped.files "Anime" false
              (mkWorld Grouped.library [] [])).2 in
  (fst <$> log w) = [ERROR; INFO; INFO]
  ∧ fs w !! path_of_str "/Volumes/HDD_RAID/Shared Media/Anime/Films/Akira.mkv"
    = Some (File "akira")
  ∧ fs w !! path_of_str "/Volumes/HDD_RAID/Shared Media/Anime/Films/Paprika.mkv"
    = Some (File "paprika").
Proof. by vm_compute. Qed.

(** ** Paths put together from strings *)

Lemma str_split_nonempty c (s : string) : str_split c s ≠ [].
Proof.
  destruct s as [|a s]; [done|]. simpl.
  destruct (ascii_eqb a c); [done|]. by destruct (str_split c s).
Qed.

Lemma str_split_app c (a b : string) :
  str_split c (a +:+ String c b) = str_split c a ++ str_split c b.
Proof.
  induction a as [|x a IH].
  - rewrite str_app_empty_l. simpl. by rewrite ascii_eqb_refl.
  - rewrite str_app_cons. simpl. rewrite IH.
    destruct (ascii_eqb x c); [done|].
    pose proof (str_split_nonempty c a) as Hne.
    by destruct (str_split c a).
Qed.

Lemma proper_name_spec (x : string) :
  proper_name x = true → proper_segment x = true ∧ str_mem Chars.slash x = false.
Proof.
  unfold proper_name. intros [? ?%negb_true_iff]%andb_true_iff. done.
Qed.

Lemma proper_name_no_leading_slash (x : string) :
  proper_name x = true → str_starts_with_slash x = false.
Proof.
  intros [_ Hs]%proper_name_spec. destruct x as [|a x]; [done|].
  simpl in *. apply orb_false_iff in Hs as [Hs _].
  apply ascii_eqb_false in Hs. apply ascii_eqb_false. congruence.
Qed.

Lemma path_of_str_app (a name : string) :
  proper_name name = true →
  path_of_str (a +:+ String Chars.slash name)
  = mkPath (str_starts_with_slash (a +:+ "/"))
      (List.filter proper_segment (str_split Chars.slash a) ++ [name]).
Proof.
  intros [Hp Hs]%proper_name_spec. unfold path_of_str. f_equal.
  - by destruct a.
  - rewrite str_split_app, List.filter_app, (str_split_absent _ _ Hs).
    simpl. by rewrite Hp.
Qed.

Lemma str_endswith_slash (a : string) :
  str_endswith a "/" = true → ∃ r, a = r +:+ "/".
Proof.
  unfold str_endswith. intros [_ H%String.eqb_eq]%andb_true_iff.
  exists (str_take (String.length a - String.length "/") a).
  rewrite <- H at 2. by rewrite str_take_drop.
Qed.

(** The path of [os.path.join(root, name)] for a name. *)
Lemma path_of_str_join (root name : string) :
  proper_name name = true →
  path_of_str (os_path_join root name)
  = mkPath (absolute (path_of_str root)) (parts (path_of_str root) ++ [name]).
Proof.
  intros Hn. unfold os_path_join. rewrite (proper_name_no_leading_slash _ Hn).
  destruct root as [|x root].
  - simpl. rewrite str_app_empty_l.
    destruct (proper_name_spec _ Hn) as [Hp Hs].
    rewrite (path_of_str_segment _ Hs), Hp. done.
  - cbn [str_is_empty orb].
    destruct (str_endswith (String x root) "/") eqn:He.
    + destruct (str_endswith_slash _ He) as [r Hr]. rewrite Hr.
      rewrite str_app_assoc.
      change ("/" +:+ name) with (String Chars.slash name).
      rewrite (path_of_str_app _ _ Hn).
      unfold path_of_str at 1 2. cbn [absolute parts].
      change (r +:+ "/") with (r +:+ String Chars.slash EmptyString).
      rewrite str_split_app, List.filter_app. simpl. by rewrite app_nil_r.
    + change ("/" +:+ name) with (String Chars.slash name).
      rewrite (path_of_str_app _ _ Hn). done.
Qed.

(** ** Directory listings *)

Lemma elem_of_keys (f : filesystem) (p : Path) :
  p ∈ (map_to_list f).*1 ↔ is_Some (f !! p).
Proof.
  rewrite list_elem_of_fmap. split.
  - intros [[q n] [-> H%elem_of_map_to_list]]. by exists n.
  - intros [n H]. exists (p, n). split; [done|]. by apply elem_of_map_to_list.
Qed.

Lemma elem_of_iterdir (f : filesystem) (d : Path) (entries : list Path) (p : Path) :
  iterdir f d = Ok entries →
  p ∈ entries ↔ is_Some (f !! p) ∧ parts p ≠ [] ∧ path_parent p = d.
Proof.
  unfold iterdir. destruct (fs_is_dir f d); [|done]. intros [= <-].
  rewrite list_elem_of_In, filter_In, <- list_elem_of_In, elem_of_keys.
  destruct (parts p) eqn:Hp.
  - split; [by intros [_ ?]|by intros (_ & ? & _)].
  - rewrite bool_decide_eq_true. split; [by intros [? ?]|by intros (? & _ & ?)].
Qed.

Lemma path_eta (p : Path) : mkPath (absolute p) (parts p) = p.
Proof. by destruct p. Qed.

(** An entry of a directory is the directory's path with one name more. *)
Lemma child_path (p : Path) :
  parts p ≠ [] →
  p = mkPath (absolute (path_parent p)) (parts (path_parent p) ++ [path_name p]).
Proof.
  intros Hne. unfold path_parent, path_name. cbn [absolute parts].
  rewrite <- (app_removelast_last EmptyString Hne). by destruct p.
Qed.

Lemma child_parent abs ps x : path_parent (mkPath abs (ps ++ [x])) = mkPath abs ps.
Proof. unfold path_parent. cbn [absolute parts]. by rewrite removelast_last. Qed.

Lemma child_name abs ps x : path_name (mkPath abs (ps ++ [x])) = x.
Proof. unfold path_name. cbn [parts]. apply last_last. Qed.

Lemma is_tree_spec (f : filesystem) (p : Path) :
  is_tree f = true → is_Some (f !! p) →
  Forall (λ x, proper_name x = true) (parts p)
  ∧ (parts (path_parent p) ≠ [] → f !! path_parent p = Some Dir).
Proof.
  unfold is_tree. rewrite forallb_forall. intros Ht Hp%elem_of_keys%list_elem_of_In.
  apply Ht, andb_true_iff in Hp as [Hn Hd]. split.
  - apply Forall_forall. intros x Hx%list_elem_of_In.
    rewrite forallb_forall in Hn. by apply Hn.
  - intros Hne. destruct (parts (path_parent p)); [done|].
    unfold is_dir_entry in Hd. by destruct (f !! path_parent p) as [[|]|].
Qed.

Lemma is_tree_name (f : filesystem) (p : Path) :
  is_tree f = true → is_Some (f !! p) → parts p ≠ [] → proper_name (path_name p) = true.
Proof.
  intros Ht Hp Hne. destruct (is_tree_spec f p Ht Hp) as [Hn _].
  rewrite Forall_forall in Hn. apply Hn. unfold path_name.
  rewrite (app_removelast_last EmptyString Hne) at 2.
  apply elem_of_app. right. by left.
Qed.

(** The string the walk makes for an entry is a string of the entry. *)
Lemma entry_path (f : filesystem) (top : string) (entries : list Path) (p : Path) :
  is_tree f = true →
  iterdir f (path_of_str top) = Ok entries →
  p ∈ entries →
  path_of_str (os_path_join top (path_name p)) = p.
Proof.
  intros Ht Hl Hp. apply (elem_of_iterdir _ _ _ _ Hl) in Hp as (Hs & Hne & Hpar).
  rewrite path_of_str_join by by apply (is_tree_name f).
  rewrite <- Hpar. symmetry. by apply child_path.
Qed.

(** ** Below a directory *)

Lemma list_prefixb_spec (l k : list string) :
  list_prefixb l k = true ↔ ∃ r, k = l ++ r.
Proof.
  revert k. induction l as [|x l IH]; intros k; simpl.
  - split; [by exists k|done].
  - destruct k as [|y k]; [split; [done|by intros [r ?]]|].
    rewrite andb_true_iff, String.eqb_eq, IH. split.
    + intros [-> [r ->]]. by exists r.
    + intros [r [= -> ->]]. split; [done|by exists r].
Qed.

Lemma path_below_spec (d p : Path) :
  path_below d p = true ↔ ∃ r, p = mkPath (absolute d) (parts d ++ r).
Proof.
  unfold path_below. rewrite andb_true_iff, list_prefixb_spec. split.
  - intros [Ha%Bool.eqb_prop [r Hr]]. exists r. rewrite <- Hr, Ha. by destruct p.
  - intros [r ->]. cbn [absolute parts]. split; [by destruct (absolute d)|by exists r].
Qed.

(** ** The walk *)

Lemma os_walk_sound (f : filesystem) (fuel : nat) (top root : string)
    (dirs files : list string) (name : string) :
  is_tree f = true →
  (root, dirs, files) ∈ os_walk fuel f top →
  name ∈ files →
  ∃ p c, path_of_str (os_path_join root name) = p
         ∧ f !! p = Some (File c)
         ∧ path_name p = name
         ∧ path_below (path_of_str top) p = true.
Proof.
  intros Ht. revert top. induction fuel as [|fuel IH]; intros top Hin Hname.
  { by apply elem_of_nil in Hin. }
  cbn [os_walk] in Hin.
  destruct (iterdir f (path_of_str top)) as [entries|e] eqn:Hl;
    [|by apply elem_of_nil in Hin].
  apply elem_of_cons in Hin as [[= -> -> ->]|Hin].
  - apply list_elem_of_fmap in Hname as (p & -> & Hp).
    apply list_elem_of_In, filter_In in Hp as [Hp%list_elem_of_In Hnd].
    pose proof (entry_path f top entries p Ht Hl Hp) as Hpath.
    apply (elem_of_iterdir _ _ _ _ Hl) in Hp as ([n Hn] & Hne & Hpar).
    unfold is_dir_entry in Hnd. rewrite Hn in Hnd.
    destruct n as [c|]; [|done].
    exists p, c. split; [done|]. split; [done|]. split; [done|].
    apply path_below_spec. exists [path_name p]. rewrite <- Hpar. by apply child_path.
  - apply list_elem_of_In, in_flat_map in Hin as (d & Hd%list_elem_of_In & Hin%list_elem_of_In).
    apply list_elem_of_fmap in Hd as (q & -> & Hq).
    apply list_elem_of_In, filter_In in Hq as [Hq%list_elem_of_In _].
    destruct (IH _ Hin Hname) as (p & c & Hp & Hc & Hn & Hb).
    exists p, c. split; [done|]. split; [done|]. split; [done|].
    rewrite (entry_path f top entries q Ht Hl Hq) in Hb.
    apply path_below_spec in Hb as [r ->].
    apply (elem_of_iterdir _ _ _ _ Hl) in Hq as (_ & Hne & Hpar).
    pose proof (child_path q Hne) as Hchild. rewrite Hpar in Hchild.
    apply path_below_spec. exists (path_name q :: r).
    generalize dependent (path_name q). intros x Hin Hchild. rewrite Hchild.
    cbn [absolute parts]. by rewrite <- app_assoc.
Qed.

(** X24. On a volume that is a tree, every path the scan returns is a
    regular file below the directory that was scanned, with a name that has
    a video extension, whatever the case of its letters, and that does not
    start with a dot and an underscore. *)
Theorem found_files_are_video_files (f : filesystem) (directory s : string) :
  is_tree f = true →
  s ∈ get_files_in_directory f directory →
  ∃ c, f !! path_of_str s = Some (File c)
       ∧ path_below (path_of_str directory) (path_of_str s) = true
       ∧ wanted (path_name (path_of_str s)) = true.
Proof.
  intros Ht Hs. unfold get_files_in_directory in Hs.
  apply list_elem_of_In, in_flat_map in Hs as ([[root dirs] files] & Hw%list_elem_of_In & Hs).
  cbn [fst snd] in Hs.
  apply list_elem_of_In, list_elem_of_fmap in Hs as (name & -> & Hn).
  apply list_elem_of_In, filter_In in Hn as [Hn%list_elem_of_In Hwanted].
  destruct (os_walk_sound f _ directory root dirs files name Ht Hw Hn)
    as (p & c & -> & Hc & Hname & Hb).
  exists c. split; [done|]. split; [done|]. by rewrite Hname.
Qed.

Lemma found_files_are_video_files_witness :
  ∃ c, Walked.volume !! path_of_str "/Volumes/HDD_RAID/Orphaned/Shows/Episode.mp4"
       = Some (File c)
       ∧ path_below (path_of_str ORPHANED_PATH)
           (path_of_str "/Volumes/HDD_RAID/Orphaned/Shows/Episode.mp4") = true
       ∧ wanted (path_name (path_of_str "/Volumes/HDD_RAID/Orphaned/Shows/Episode.mp4"))
         = true.
Proof.
  apply (found_files_are_video_files Walked.volume ORPHANED_PATH
           "/Volumes/HDD_RAID/Orphaned/Shows/Episode.mp4").
  - by vm_compute.
  - apply (bool_decide_unpack _). by vm_compute.
Defined.

Lemma walk_fuel_enough (f : filesystem) (p : Path) :
  is_Some (f !! p) → length (parts p) < walk_fuel f.
Proof.
  intros Hp%elem_of_keys. unfold walk_fuel.
  assert (length (parts p) ≤ max_list ((λ p, length (parts p)) <$> (map_to_list f).*1));
    [|lia].
  apply max_list_elem_of_le, list_elem_of_fmap. by exists p.
Qed.

Lemma fs_is_dir_of_dir (f : filesystem) (p : Path) :
  f !! p = Some Dir → fs_is_dir f p = true.
Proof. intros H. unfold fs_is_dir. rewrite H. by destruct (parts p). Qed.

Lemma os_walk_complete (f : filesystem) (rel : list string) :
  is_tree f = true →
  ∀ (fuel : nat) (top name : string) (c : string),
    let d := path_of_str top in
    fs_is_dir f d = true →
    length rel < fuel →
    (∀ k, 0 < k ≤ length rel →
          f !! mkPath (absolute d) (parts d ++ take k rel) = Some Dir) →
    f !! mkPath (absolute d) (parts d ++ rel ++ [name]) = Some (File c) →
    ∃ root dirs files,
      (root, dirs, files) ∈ os_walk fuel f top
      ∧ name ∈ files
      ∧ path_of_str root = mkPath (absolute d) (parts d ++ rel).
Proof.
  intros Ht. induction rel as [|x rel IH]; intros fuel top name c d Hd Hfuel Hdirs Hfile.
  - destruct fuel as [|fuel]; [simpl in Hfuel; lia|]. cbn [os_walk]. fold d.
    cbn [app] in Hfile.
    destruct (iterdir f d) as [entries|e] eqn:Hl;
      [|unfold iterdir in Hl; by rewrite Hd in Hl].
    eexists top, _, _. split; [left|]. split.
    + apply list_elem_of_fmap. exists (mkPath (absolute d) (parts d ++ [name])).
      split; [by rewrite child_name|].
      apply list_elem_of_In, filter_In. split.
      * apply list_elem_of_In, (elem_of_iterdir _ _ _ _ Hl).
        split; [by eexists|]. split; [by destruct (parts d)|].
        rewrite child_parent. apply path_eta.
      * unfold is_dir_entry. by rewrite Hfile.
    + rewrite app_nil_r. symmetry. apply path_eta.
  - destruct fuel as [|fuel]; [simpl in Hfuel; lia|]. cbn [os_walk]. fold d.
    destruct (iterdir f d) as [entries|e] eqn:Hl;
      [|unfold iterdir in Hl; by rewrite Hd in Hl].
    set (q := mkPath (absolute d) (parts d ++ [x])).
    assert (f !! q = Some Dir) as Hq by (apply (Hdirs 1); simpl; lia).
    assert (q ∈ entries) as Hqin.
    { apply (elem_of_iterdir _ _ _ _ Hl).
      split; [by eexists|]. split; [unfold q; by destruct (parts d)|].
      unfold q. rewrite child_parent. apply path_eta. }
    assert (path_of_str (os_path_join top x) = q) as Htop.
    { rewrite <- (child_name (absolute d) (parts d) x). fold q.
      by apply (entry_path f top entries). }
    destruct (IH fuel (os_path_join top x) name c) as (root & dirs & files & Hin & Hn & Hr).
    + rewrite Htop. by apply fs_is_dir_of_dir.
    + simpl in Hfuel. lia.
    + intros k Hk. rewrite Htop. unfold q. cbn [absolute parts].
      rewrite <- app_assoc. apply (Hdirs (S k)). simpl. lia.
    + rewrite Htop. unfold q. cbn [absolute parts]. by rewrite <- app_assoc.
    + exists root, dirs, files. split; [|split; [done|]].
      * right. apply list_elem_of_In, in_flat_map. exists x.
        split; [|by apply list_elem_of_In].
        apply list_elem_of_In, list_elem_of_fmap. exists q.
        split; [unfold q; by rewrite child_name|].
        apply list_elem_of_In, filter_In. split; [by apply list_elem_of_In|].
        unfold is_dir_entry. by rewrite Hq.
      * rewrite Hr, Htop. unfold q. cbn [absolute parts]. by rewrite <- app_assoc.
Qed.

(** On a tree, the directories between a directory and an entry below it
    are there. *)
Lemma directories_between (f : filesystem) (d : Path) (rel : list string) :
  is_tree f = true →
  is_Some (f !! mkPath (absolute d) (parts d ++ rel)) →
  ∀ k, 0 < k < length rel →
       f !! mkPath (absolute d) (parts d ++ take k rel) = Some Dir.
Proof.
  intros Ht. induction rel as [|x rel IH] using rev_ind; [simpl; lia|].
  intros Hp k Hk. rewrite length_app in Hk. simpl in Hk.
  assert (f !! mkPath (absolute d) (parts d ++ rel) = Some Dir) as Hpar.
  { destruct (is_tree_spec f _ Ht Hp) as [_ Hdir].
    rewrite app_assoc, child_parent in Hdir. apply Hdir.
    cbn [parts]. destruct rel; [simpl in Hk; lia|]. by destruct (parts d). }
  destruct (decide (k = length rel)) as [->|Hne].
  - by rewrite take_app_length.
  - rewrite take_app_le by lia. apply IH; [by eexists|lia].
Qed.

(** X25. On a volume that is a tree, the scan of a directory misses no
    video file: every regular file below the directory with a name that
    has a video extension and does not start with a dot and an underscore
    is returned, however deep it lies. *)
Theorem video_files_are_found
    (f : filesystem) (directory : string) (p : Path) (c : string) :
  is_tree f = true →
  fs_is_dir f (path_of_str directory) = true →
  f !! p = Some (File c) →
  path_below (path_of_str directory) p = true →
  wanted (path_name p) = true →
  ∃ s, s ∈ get_files_in_directory f directory ∧ path_of_str s = p.
Proof.
  intros Ht Hd Hp Hb Hw. set (d := path_of_str directory) in *.
  apply path_below_spec in Hb as [r Hr].
  destruct r as [|x r0] using rev_ind.
  { exfalso. rewrite app_nil_r, path_eta in Hr. subst p.
    unfold fs_is_dir in Hd. destruct (parts d) eqn:Hparts.
    - unfold wanted, is_video_file, path_name in Hw. rewrite Hparts in Hw. done.
    - by rewrite Hp in Hd. }
  clear IHr0. subst p.
  assert (path_name (mkPath (absolute d) (parts d ++ r0 ++ [x])) = x) as Hname
    by (by rewrite app_assoc, child_name).
  rewrite Hname in Hw.
  destruct (os_walk_complete f r0 Ht (walk_fuel f) directory x c)
    as (root & dirs & files & Hin & Hx & Hroot).
  - done.
  - pose proof (walk_fuel_enough f _ (ex_intro _ _ Hp)) as Hfuel.
    cbn [parts] in Hfuel. rewrite !length_app in Hfuel. lia.
  - intros k Hk. fold d.
    destruct (decide (k = length r0)) as [->|Hne].
    + rewrite firstn_all.
      destruct (is_tree_spec f _ Ht (ex_intro _ _ Hp)) as [_ Hdir].
      rewrite app_assoc, child_parent in Hdir. apply Hdir. cbn [parts].
      destruct r0; [simpl in Hk; lia|]. by destruct (parts d).
    + rewrite <- (take_app_le r0 [x]) by lia.
      apply (directories_between f d (r0 ++ [x]) Ht); [by eexists|].
      rewrite length_app. simpl. lia.
  - done.
  - exists (os_path_join root x). split.
    + unfold get_files_in_directory. apply list_elem_of_In, in_flat_map.
      exists (root, dirs, files). split; [by apply list_elem_of_In|].
      cbn [fst snd]. apply list_elem_of_In, list_elem_of_fmap. exists x.
      split; [done|]. apply list_elem_of_In, filter_In.
      split; [by apply list_elem_of_In|done].
    + rewrite path_of_str_join, Hroot.
      * cbn [absolute parts]. by rewrite <- app_assoc.
      * rewrite <- Hname. apply (is_tree_name f); [done|by eexists|].
        cbn [parts]. by destruct (parts d), r0.
Qed.

Lemma video_files_are_found_witness :
  ∃ s, s ∈ get_files_in_directory Walked.volume ORPHANED_PATH
       ∧ path_of_str s = path_of_str "/Volumes/HDD_RAID/Orphaned/Shows/Episode.mp4".
Proof.
  apply (video_files_are_found Walked.volume ORPHANED_PATH
           (path_of_str "/Volumes/HDD_RAID/Orphaned/Shows/Episode.mp4") "episode").
  - by vm_compute.
  - by vm_compute.
  - by vm_compute.
  - by vm_compute.
  - by vm_compute.
Defined.

Example scan_of_the_orphans :
  get_files_in_directory Walked.volume ORPHANED_PATH
  = ["/Volumes/HDD_RAID/Orphaned/Film.MKV"; "/Volumes/HDD_RAID/Orphaned/Shows/Episode.mp4"].
Proof. by vm_compute. Qed.

(** ** Dry runs *)

Lemma same_fs_collect_media_files : preserves same_fs collect_media_files.
Proof. unfold collect_media_files. frame. Qed.

#[global] Hint Resolve same_fs_collect_media_files : frame.

Lemma same_fs_reorganize_shared_media G :
  preserves same_fs (reorganize_shared_media G true).
Proof. unfold reorganize_shared_media. frame. Qed.

(** X26. A dry reorganization changes no file and no directory, whatever
    the grouping service answers, also when it ends with an exception. *)
Theorem dry_reorganization_changes_nothing (G : grouping_service) (w : world) :
  fs (reorganize_shared_media G true w).2 = fs w.
Proof. apply same_fs_reorganize_shared_media. Qed.

(** X27. With the dry run flag the program moves nothing and creates
    nothing, whichever of its two jobs it does: whatever the remote services
    answer and whatever the cache holds, every path other than the cache
    file is after the run what it was before, also when the run ends with an
    exception. *)
Theorem dry_run_touches_only_cache_file
    (A : adapters) (G : grouping_service) (rescue_arg reorganize_arg no_cache : bool)
    (w : world) (p : Path) :
  p ≠ cache_path →
  fs (main A G rescue_arg reorganize_arg no_cache true w).2 !! p = fs w !! p.
Proof.
  intros Hp. unfold main. destruct rescue_arg.
  - rewrite M_bind_unfold. unfold get_fs at 1. by apply dry_rescue_touches_only_cache_file.
  - destruct reorganize_arg; [|done].
    by rewrite (same_fs_reorganize_shared_media G w).
Qed.

Lemma dry_run_touches_only_cache_file_witness :
  fs (main Rerun.services (λ _ _, GroupingFailed (OSError "offline")) true false false true
        (mkWorld Scenario.movie_fs [] [])).2 !! path_of_str Scenario.movie_file
  = Some (File "video").
Proof.
  rewrite (dry_run_touches_only_cache_file Rerun.services
             (λ _ _, GroupingFailed (OSError "offline")) true false false
             (mkWorld Scenario.movie_fs [] []) (path_of_str Scenario.movie_file)).
  - by vm_compute.
  - by vm_compute.
Defined.

(** ** A move that goes well *)

Section siblings.
Variables (stem : string) (dest_file src_dir : Path).

Local Abbreviation dest_dir := (path_parent dest_file).
Local Abbreviation target := (sibling_target dest_file).
Local Abbreviation matched i := (path_stem i = stem).
Local Abbreviation ready := (siblings_ready stem dest_file src_dir).

Lemma target_path (i : Path) :
  proper_name (path_name i) = true →
  target i = mkPath (absolute dest_dir) (parts dest_dir ++ [path_name i]).
Proof.
  intros [Hp Hs]%proper_name_spec. unfold sibling_target.
  by rewrite (path_div_segment _ _ Hs), Hp.
Qed.

Lemma target_parent (i : Path) :
  proper_name (path_name i) = true → path_parent (target i) = dest_dir.
Proof. intros Hi. rewrite (target_path i Hi), child_parent. apply path_eta. Qed.

Lemma target_not_dest_dir (i : Path) :
  proper_name (path_name i) = true → target i ≠ dest_dir.
Proof.
  intros Hi H. rewrite (target_path i Hi) in H.
  apply (f_equal (λ p, length (parts p))) in H. cbn [parts] in H.
  rewrite length_app in H. simpl in H. lia.
Qed.

Lemma target_inj (i j : Path) :
  parts i ≠ [] → parts j ≠ [] → path_parent i = path_parent j →
  proper_name (path_name i) = true → proper_name (path_name j) = true →
  target i = target j → i = j.
Proof.
  intros Hi Hj Hpar Hni Hnj H.
  rewrite (target_path i Hni), (target_path j Hnj) in H.
  injection H as H. apply app_inj_tail in H as [_ Hname].
  rewrite (child_path i Hi), (child_path j Hj). by rewrite Hpar, Hname.
Qed.

Lemma move_sibling_file (f : filesystem) (i : Path) (c : string) :
  fs_is_dir f dest_dir = true →
  proper_name (path_name i) = true →
  f !! i = Some (File c) →
  is_dir_entry f (target i) = false →
  shutil_move f i (target i) = Ok (<[target i := File c]> (delete i f)).
Proof.
  intros Hd Hn Hi Ht. unfold shutil_move.
  assert (fs_is_dir f (target i) = false) as ->.
  { unfold fs_is_dir. rewrite (target_path i Hn) at 1. cbn [parts].
    destruct (parts dest_dir ++ [path_name i]) eqn:He; [by destruct (parts dest_dir)|].
    unfold is_dir_entry in Ht. by destruct (f !! target i) as [[|]|]. }
  cbn [andb]. by rewrite Hi, (target_parent i Hn), Hd.
Qed.

Lemma sibling_loop (items : list Path) :
  NoDup items → dest_dir ≠ src_dir →
  ∀ w, ready items (fs w) →
  ∃ f',
    for_each items (move_sibling stem dest_file) w = (Ok tt, with_fs f' w)
    ∧ (∀ i c, i ∈ items → matched i → fs w !! i = Some (File c) →
         f' !! target i = Some (File c) ∧ f' !! i = None)
    ∧ (∀ p, (∀ i, i ∈ items → matched i → p ≠ i ∧ p ≠ target i) → f' !! p = fs w !! p).
Proof.
  intros Hnd Hdirs. induction items as [|i items IH]; intros w [Hdest Hready].
  { exists (fs w). split; [by destruct w|]. split; [|done].
    intros i c Hi. by apply elem_of_nil in Hi. }
  apply NoDup_cons in Hnd as [Hfresh Hnd].
  destruct (Hready i) as (Hparts & Hpar & Hname & Hm); [left|].
  cbn [for_each]. rewrite M_bind_unfold. unfold move_sibling at 1.
  destruct (String.eqb (path_stem i) stem) eqn:Hstem.
  - apply String.eqb_eq in Hstem. destruct (Hm Hstem) as [[c Hc] Hfree].
    fold (sibling_target dest_file i).
    rewrite fs_op_unfold, (move_sibling_file (fs w) i c Hdest Hname Hc Hfree).
    set (f1 := <[target i := File c]> (delete i (fs w))).
    assert (∀ p, p ≠ i → p ≠ target i → f1 !! p = fs w !! p) as Hf1.
    { intros p H1 H2. unfold f1. by rewrite lookup_insert_ne, lookup_delete_ne. }
    assert (∀ j, j ∈ items → j ≠ i ∧ j ≠ target i ∧ target j ≠ i ∧ target j ≠ target i)
      as Hother.
    { intros j Hj.
      destruct (Hready j) as (Hpj & Hparj & Hnj & _); [by right|].
      split; [by intros ->|]. split; [|split].
      - intros ->. rewrite (target_parent i Hname) in Hparj. done.
      - intros <-. rewrite (target_parent j Hnj) in Hpar. done.
      - intros Heq. apply target_inj in Heq; try done; [|congruence].
        subst j. done. }
    destruct (IH Hnd (with_fs f1 w)) as (f' & Hrun & Hmoved & Hkept).
    { split.
      - cbn [fs with_fs]. unfold fs_is_dir in *. destruct (parts dest_dir) eqn:Hp; [done|].
        rewrite Hf1; [done| |].
        + intros Heq. rewrite Heq, Hc in Hdest. done.
        + intros Heq. by apply (target_not_dest_dir i Hname).
      - intros j Hj. destruct (Hready j) as (Hpj & Hparj & Hnj & Hmj); [by right|].
        destruct (Hother j Hj) as (H1 & H2 & H3 & H4).
        split; [done|]. split; [done|]. split; [done|].
        intros Hmatch. destruct (Hmj Hmatch) as [[cj Hcj] Hfreej]. cbn [fs with_fs].
        split; [exists cj; by rewrite Hf1|].
        unfold is_dir_entry in *. by rewrite Hf1. }
    exists f'. rewrite Hrun. cbn [fs with_fs] in *.
    split; [by destruct w|]. split.
    + intros j cj [->|Hj]%elem_of_cons Hmatch Hcj.
      * rewrite Hc in Hcj. injection Hcj as <-.
        rewrite !Hkept.
        -- assert (target i ≠ i) as Hti.
           { intros Heq. apply Hdirs. by rewrite <- (target_parent i Hname), Heq. }
           unfold f1. by rewrite lookup_insert_eq, lookup_insert_ne, lookup_delete_eq.
        -- intros k Hk _. destruct (Hother k Hk) as (H1 & H2 & H3 & H4). by split.
        -- intros k Hk _. destruct (Hother k Hk) as (H1 & H2 & H3 & H4). by split.
      * destruct (Hother j Hj) as (H1 & H2 & H3 & H4).
        apply (Hmoved j cj Hj Hmatch). by rewrite Hf1.
    + intros p Hp. rewrite Hkept.
      * destruct (Hp i) as [H1 H2]; [left|done|]. by apply Hf1.
      * intros k Hk Hmatch. apply Hp; [by right|done].
  - destruct (IH Hnd w) as (f' & Hrun & Hmoved & Hkept).
    { split; [done|]. intros j Hj. apply Hready. by right. }
    exists f'. unfold mret at 1, M_ret at 1. rewrite Hrun.
    apply String.eqb_neq in Hstem.
    split; [done|]. split.
    + intros j cj [->|Hj]%elem_of_cons Hmatch Hcj; [done|]. by apply Hmoved.
    + intros p Hp. apply Hkept. intros k Hk Hmatch. apply Hp; [by right|done].
Qed.
End siblings.

Lemma NoDup_iterdir (f : filesystem) (d : Path) (items : list Path) :
  iterdir f d = Ok items → NoDup items.
Proof.
  unfold iterdir. destruct (fs_is_dir f d); [|done]. intros [= <-].
  apply NoDup_ListNoDup, List.NoDup_filter, NoDup_ListNoDup, NoDup_fst_map_to_list.
Qed.

(** X28. A move that goes well takes the file and its sidecars along
    together. On a volume that is a tree, when the destination directory is
    there and is not the source directory, and the entries of the source
    directory that have the stem of the file are regular files whose names
    are not names of directories in the destination directory, then each of
    them is afterwards in the destination directory, under its own name and
    with its content, and no longer in the source directory; every other
    path is what it was, and the move is logged once. *)
Theorem siblings_are_moved_together
    (src_file : string) (dest_file : Path) (w : world) (items : list Path) :
  is_tree (fs w) = true →
  iterdir (fs w) (path_parent (path_of_str src_file)) = Ok items →
  fs_is_dir (fs w) (path_parent dest_file) = true →
  path_parent dest_file ≠ path_parent (path_of_str src_file) →
  (∀ i, i ∈ items → is_sibling src_file i = true →
        (∃ c, fs w !! i = Some (File c))
        ∧ is_dir_entry (fs w) (sibling_target dest_file i) = false) →
  ∃ f',
    move_file_and_sidecars src_file dest_file w
    = (Ok tt,
       mkWorld f'
         (log w ++ [(INFO, "Moved " +:+ src_file +:+ " to " +:+ path_str dest_file)])
         (queries w))
    ∧ (∀ i c, i ∈ items → is_sibling src_file i = true → fs w !! i = Some (File c) →
         f' !! sibling_target dest_file i = Some (File c) ∧ f' !! i = None)
    ∧ (∀ p, (∀ i, i ∈ items → is_sibling src_file i = true →
                  p ≠ i ∧ p ≠ sibling_target dest_file i) →
            f' !! p = fs w !! p).
Proof.
  intros Ht Hl Hdest Hdirs Hfiles.
  destruct (sibling_loop (path_stem (path_of_str src_file)) dest_file
              (path_parent (path_of_str src_file)) items
              (NoDup_iterdir _ _ _ Hl) Hdirs w) as (f' & Hrun & Hmoved & Hkept).
  { split; [done|]. intros i Hi.
    pose proof Hi as Hin. apply (elem_of_iterdir _ _ _ _ Hl) in Hin as (Hs & Hne & Hpar).
    split; [done|]. split; [done|]. split; [by apply (is_tree_name (fs w))|].
    intros Hstem. apply Hfiles; [done|]. unfold is_sibling. by apply String.eqb_eq. }
  exists f'. split; [|split].
  - unfold move_file_and_sidecars. rewrite try_except_unfold.
    rewrite M_bind_unfold. unfold get_fs at 1.
    rewrite M_bind_unfold. unfold lift_res at 1. rewrite Hl.
    rewrite M_bind_unfold, Hrun. reflexivity.
  - intros i c Hi Hs%String.eqb_eq. by apply Hmoved.
  - intros p Hp. apply Hkept. intros i Hi Hs. apply Hp; [done|].
    unfold is_sibling. by apply String.eqb_eq.
Qed.

Lemma siblings_are_moved_together_witness :
  ∃ f',
    move_file_and_sidecars Scenario.movie_file Moved.dest_file (mkWorld Moved.volume [] [])
    = (Ok tt,
       mkWorld f'
         [(INFO, "Moved " +:+ Scenario.movie_file +:+ " to " +:+ path_str Moved.dest_file)] [])
    ∧ f' !! path_of_str "/Volumes/HDD_RAID/Shared Media/Movies/Test.Movie.2020.srt"
      = Some (File "subtitles")
    ∧ f' !! path_of_str "/Volumes/HDD_RAID/Orphaned/Test.Movie.2020.srt" = None
    ∧ f' !! path_of_str "/Volumes/HDD_RAID/Orphaned/Other.mkv" = Some (File "other").
Proof.
  destruct (siblings_are_moved_together Scenario.movie_file Moved.dest_file
              (mkWorld Moved.volume [] [])
              [path_of_str "/Volumes/HDD_RAID/Orphaned/Other.mkv";
               path_of_str "/Volumes/HDD_RAID/Orphaned/Test.Movie.2020.mkv";
               path_of_str "/Volumes/HDD_RAID/Orphaned/Test.Movie.2020.srt"])
    as (f' & Hrun & Hmoved & Hkept).
  - by vm_compute.
  - by vm_compute.
  - by vm_compute.
  - by vm_compute.
  - intros i Hi Hs. cbn [fs].
    apply elem_of_cons in Hi as [->|Hi]; [by vm_compute in Hs|].
    apply elem_of_cons in Hi as [->|Hi];
      [split; [by exists "video"|by vm_compute]|].
    apply list_elem_of_singleton in Hi as ->.
    split; [by exists "subtitles"|by vm_compute].
  - exists f'. split; [exact Hrun|].
    destruct (Hmoved (path_of_str "/Volumes/HDD_RAID/Orphaned/Test.Movie.2020.srt")
                "subtitles") as [Hthere Hgone].
    + apply (bool_decide_unpack _). by vm_compute.
    + by vm_compute.
    + by vm_compute.
    + split; [exact Hthere|]. split; [exact Hgone|].
      rewrite Hkept; [by vm_compute|].
      intros i Hi Hs.
      apply elem_of_cons in Hi as [->|Hi]; [by vm_compute in Hs|].
      apply elem_of_cons in Hi as [->|Hi]; [split; by vm_compute|].
      apply list_elem_of_singleton in Hi as ->. split; by vm_compute.
Defined.
